(** * solid-webgpu: the WebGPU renderer, its resource cache and the PBR material

    A shallow embedding of [WebGPURenderer] (resource cache, swapchain
    targets, per-mesh pipeline assembly, draw ordering, draw calls), of the
    view-matrix effect of the [Camera] component and of the [PBRMaterial]
    setters, together with the properties the specification states about
    them.

    Conventions of the embedding:
    - a JavaScript number is an exact rational ([Q]); rounding to 32-bit
      floats when a value is stored in a [Float32Array], [NaN] and the
      infinities are not represented, except in the count of a draw call
      ([Count]);
    - a JavaScript object that is used for its identity (a cache key, a
      descriptor carrying a mutable [needsUpdate] flag) is a [Key]; its
      mutable fields live in the [World];
    - the GPU device is an allocator of fresh handles plus a chronological
      [trace] of the calls made on the device, its queue and the render
      pass encoder. *)

From Stdlib Require Import QArith Qminmax Lqa Sorted Permutation Ascii String.
From Stdlib Require Import Decimal DecimalString DecimalZ DecimalPos.
From stdpp Require Import gmap strings list fin_maps.

Set Warnings "-register-all".

Local Open Scope Q_scope.

(** ** Numbers, vectors and matrices *)

(** Identity of a JavaScript object: an object handed to the renderer by the
    application, or one the renderer allocates itself (numbered by the
    allocation counter of the [World]). *)
Inductive Key :=
  | KObj (p : positive)
  | KNew (n : nat).

Global Instance Key_eq_dec : EqDecision Key.
Proof. solve_decision. Defined.

Definition Key_to_sum (k : Key) : positive + nat :=
  match k with KObj p => inl p | KNew n => inr n end.

Definition Key_of_sum (s : positive + nat) : Key :=
  match s with inl p => KObj p | inr n => KNew n end.

Global Instance Key_countable : Countable Key.
Proof. refine (inj_countable' Key_to_sum Key_of_sum _). intros []; reflexivity. Defined.

(** [Number(b)] for a boolean: the coercion behind [(x as unknown as number)]. *)
Definition bool_num (b : bool) : Q := if b then 1 else 0.

(** [a || b] on numbers: [a] when it is truthy (non-zero), else [b]. *)
Definition num_or (a b : Q) : Q := if Qeq_bool a 0 then b else a.

Record Vec3 := mkVec3 { vx : Q; vy : Q; vz : Q }.

(** A [Mat4] is a 16-element array in column-major order; reading an index
    is [m[i]]. *)
Definition Mat4 := list Q.

Definition at_ (m : list Q) (i : nat) : Q := nth i m 0.

(** Modelled from the spec: the math module ([./math]) is an external
    pure-function library with standard semantics; these are the
    column-major product of two 4x4 matrices and the projective transform of
    a point (with the [w || 1.0] guard), used where a concrete instance of
    the library is needed. *)
Definition Mat4_multiply_std (a b : Mat4) : Mat4 :=
  flat_map (fun c : nat =>
    map (fun r : nat =>
      at_ a r * at_ b (4 * c) + at_ a (4 + r) * at_ b (4 * c + 1)
      + at_ a (8 + r) * at_ b (4 * c + 2) + at_ a (12 + r) * at_ b (4 * c + 3))
      [0; 1; 2; 3]%nat)
    [0; 1; 2; 3]%nat.

Definition Vec3_transformMat4_std (v : Vec3) (m : Mat4) : Vec3 :=
  let w := num_or (at_ m 3 * vx v + at_ m 7 * vy v + at_ m 11 * vz v + at_ m 15) 1 in
  {| vx := (at_ m 0 * vx v + at_ m 4 * vy v + at_ m 8 * vz v + at_ m 12) / w;
     vy := (at_ m 1 * vx v + at_ m 5 * vy v + at_ m 9 * vz v + at_ m 13) / w;
     vz := (at_ m 2 * vx v + at_ m 6 * vy v + at_ m 10 * vz v + at_ m 14) / w |}.

Definition Mat4_identity : Mat4 :=
  [1; 0; 0; 0; 0; 1; 0; 0; 0; 0; 1; 0; 0; 0; 0; 1].

(** ** Descriptors: typed arrays, uniforms, geometry, material, mesh *)

(** A typed array view: its identity, element width, element count and
    offset into its [ArrayBuffer]. *)
Record TypedArray := {
  ta_key : Key;
  BYTES_PER_ELEMENT : Z;
  ta_length : Z;
  ta_byteOffset : Z
}.

Definition ta_byteLength (a : TypedArray) : Z := (ta_length a * BYTES_PER_ELEMENT a)%Z.

(** The value of a buffer uniform: [TypedArray | ArrayBuffer]. *)
Inductive BufferSource :=
  | SrcTyped (a : TypedArray)
  | SrcArrayBuffer (k : Key) (byteLength : Z).

Definition src_byteLength (d : BufferSource) : Z :=
  match d with
  | SrcTyped a => ta_byteLength a
  | SrcArrayBuffer _ n => n
  end.

(** ['byteOffset' in data ? data.byteOffset : 0] *)
Definition src_writeOffset (d : BufferSource) : Z :=
  match d with
  | SrcTyped a => ta_byteOffset a
  | SrcArrayBuffer _ _ => 0%Z
  end.

Record TextureDescriptor := {
  td_format : option string;
  td_usage : option Z;
  td_size : list Z
}.

(** A uniform binding; every binding is an object with an identity and an
    optional mutable [needsUpdate] flag (kept in the [World]). *)
Inductive Uniform :=
  | UBuffer (k : Key) (value : BufferSource)
  | UTexture (k : Key) (descriptor : TextureDescriptor) (image : option Key)
  | UExternalTexture (k : Key) (descriptor : TextureDescriptor)
  | USampler (k : Key) (descriptor : string).

Definition uniform_key (u : Uniform) : Key :=
  match u with
  | UBuffer k _ | UTexture k _ _ | UExternalTexture k _ | USampler k _ => k
  end.

Record VertexAttribute := { attr_name : string; attr_type : string }.

Record VertexBufferLayout := { arrayStride : Z; layout_attributes : string }.

Record VertexBuffer := {
  vb_key : Key;
  vb_buffer : TypedArray;
  vb_layout : VertexBufferLayout;
  vb_attribute : option VertexAttribute
}.

Record IndexBuffer := { ib_key : Key; ib_buffer : TypedArray }.

(** A count handed to a draw call: a finite number, [Infinity] (the usual
    default of [drawRange.count]) or [NaN]. *)
Inductive Count := Finite (q : Q) | Infinity | NaN.

Record DrawRange := { dr_start : option Q; dr_count : Count }.

(** [Math.min] on two such values. *)
Definition Math_min (a b : Count) : Count :=
  match a, b with
  | NaN, _ | _, NaN => NaN
  | Infinity, _ => b
  | _, Infinity => a
  | Finite x, Finite y => Finite (Qmin x y)
  end.

(** [a / b] for an integer [a >= 0] and an integer [b >= 0]. *)
Definition div_length (a b : Z) : Count :=
  if (b =? 0)%Z then (if (a =? 0)%Z then NaN else Infinity)
  else Finite (inject_Z a / inject_Z b).

Record Geometry := {
  topology : string;
  vertexBuffers : list VertexBuffer;
  indexBuffer : option IndexBuffer;
  drawRange : DrawRange;
  instanceCount : Q
}.

Record Material := {
  uniforms_key : Key;
  uniforms : list Uniform;
  shaderCode : string;
  transparent : bool;
  cullMode : string;
  depthTest : bool;
  depthWrite : bool;
  blending : string
}.

Record Mesh := {
  mesh_key : Key;
  matrix : Mat4;
  material : Material;
  geometry : Geometry
}.

Record Camera := {
  cam_matrix : Mat4;
  projectionMatrix : Mat4;
  viewMatrix : Mat4;
  projectionViewMatrix : Mat4;
  matrixAutoUpdate : bool;
  position : Vec3
}.

(** A node of the scene graph: its visibility, whether it is a [Mesh]
    ([node instanceof Mesh]) and its children. *)
Inductive Object3D :=
  | Node (visible : bool) (mesh : option Mesh) (children : list Object3D).

(** ** Visibility and ordering: [WebGPURenderer.sort] *)

(** [Array.prototype.sort(compareFn)]. For a consistent comparator the
    language fixes the result: the stable sorted arrangement, which is what
    insertion of each element before the first later element it does not
    follow computes. *)
Fixpoint sort_insert {A} (compareFn : A -> A -> Q) (x : A) (l : list A) : list A :=
  match l with
  | [] => [x]
  | y :: l' =>
      if Qle_bool (compareFn x y) 0 then x :: y :: l'
      else y :: sort_insert compareFn x l'
  end.

Definition Array_sort {A} (compareFn : A -> A -> Q) (l : list A) : list A :=
  foldr (sort_insert compareFn) [] l.

(** [a] may come before [b]: the comparator is not positive. *)
Definition cmp_le {A} (cmp : A -> A -> Q) (a b : A) : Prop := cmp a b <= 0.

(** The comparator of [sort] on the three keys of a node: the depth-test
    flag, the depth and the transparency flag. *)
Definition compare_keys (d1 : bool) (z1 : Q) (t1 : bool) (d2 : bool) (z2 : Q) (t2 : bool) : Q :=
  num_or (num_or (bool_num d2 - bool_num d1) (z2 - z1)) (bool_num t1 - bool_num t2).

Section Sort.
(** The two functions of the math module that [sort] calls. *)
Variable Mat4_multiply : Mat4 -> Mat4 -> Mat4.
Variable Vec3_transformMat4 : Vec3 -> Mat4 -> Vec3.

(** Modelled from the spec: [Object3D.traverse] is not in the sources; it
    is a depth-first walk in which a callback that returns [true] prunes
    the subtree. With the callback of [sort], an invisible node prunes its
    subtree, a visible mesh is pushed, and the children of every visible
    node are visited. *)
Fixpoint renderList (node : Object3D) : list Mesh :=
  match node with
  | Node visible mesh children =>
      if negb visible then []
      else match mesh with Some m => [m] | None => [] end
           ++ flat_map renderList children
  end.

(** [camera.projectionViewMatrix] as [sort] leaves it. *)
Definition sort_projectionView (camera : Camera) : Mat4 :=
  if matrixAutoUpdate camera
  then Mat4_multiply (projectionMatrix camera) (viewMatrix camera)
  else projectionViewMatrix camera.

Definition sort_camera (camera : Camera) : Camera :=
  {| cam_matrix := cam_matrix camera;
     projectionMatrix := projectionMatrix camera;
     viewMatrix := viewMatrix camera;
     projectionViewMatrix := sort_projectionView camera;
     matrixAutoUpdate := matrixAutoUpdate camera;
     position := position camera |}.

(** The [z] read back from [tempVec3] after [Vec3.set] with the node's
    world translation and [Vec3.transformMat4] with the projection-view
    matrix. *)
Definition projected_z (pv : Mat4) (m : Mesh) : Q :=
  vz (Vec3_transformMat4
        (mkVec3 (at_ (matrix m) 12) (at_ (matrix m) 13) (at_ (matrix m) 14)) pv).

(** The comparator passed to [renderList.sort]. *)
Definition sort_compare (camera : option Camera) (a b : Mesh) : Q :=
  let res := bool_num (depthTest (material b)) - bool_num (depthTest (material a)) in
  let res :=
    match camera with
    | Some c =>
        let tempZ := projected_z (sort_projectionView c) b in
        num_or res (tempZ - projected_z (sort_projectionView c) a)
    | None => res
    end in
  num_or res (bool_num (transparent (material a)) - bool_num (transparent (material b))).

Definition sort (scene : Object3D) (camera : option Camera) : list Mesh :=
  Array_sort (sort_compare camera) (renderList scene).

(** The depth [sort] compares two nodes by: the projected [z] when a camera
    is supplied; without a camera the depth tier is skipped, which is
    comparing equal depths. *)
Definition sort_depth (camera : option Camera) (m : Mesh) : Q :=
  match camera with
  | Some c => projected_z (sort_projectionView c) m
  | None => 0
  end.

(** Two nodes with the same sort key: same depth-test flag, equal depth,
    same transparency. *)
Definition same_sort_key (camera : option Camera) (a b : Mesh) : bool :=
  Bool.eqb (depthTest (material a)) (depthTest (material b))
  && Qeq_bool (sort_depth camera a) (sort_depth camera b)
  && Bool.eqb (transparent (material a)) (transparent (material b)).
End Sort.

(** ** Shader patching: the vertex-input struct *)

Local Open Scope string_scope.
Local Open Scope list_scope.

Definition builtinAttributeNames : list string :=
  ["POSITION"; "NORMAL"; "TANGENT"; "TEXCOORD_0"].

(** [v.attribute?.name && builtinAttributeNames.includes(v.attribute?.name)] *)
Definition is_builtin (v : VertexBuffer) : bool :=
  match vb_attribute v with
  | Some a =>
      negb (String.eqb (attr_name a) "")
      && existsb (String.eqb (attr_name a)) builtinAttributeNames
  | None => false
  end.

Definition nl : string := String "010"%char "".

(** A number in a template literal: its decimal digits. *)
Definition decimal (n : nat) : string := NilZero.string_of_uint (Nat.to_uint n).

Definition decimal_Z (z : Z) : string := NilZero.string_of_int (Z.to_int z).

Fixpoint join (sep : string) (l : list string) : string :=
  match l with
  | [] => ""
  | [s] => s
  | s :: l' => s +:+ sep +:+ join sep l'
  end.

(** The member line of one attribute; [v.attribute!] is defined for every
    element that passed the filter. *)
Definition member_line (i : nat) (v : VertexBuffer) : string :=
  match vb_attribute v with
  | Some a => "  @location(" +:+ decimal i +:+ ") " +:+ attr_name a +:+ ": " +:+ attr_type a
  | None => ""
  end.

Definition vertexInputStr (vbs : list VertexBuffer) : string :=
  join ("," +:+ nl) (imap member_line (List.filter is_builtin vbs)).

Definition is_line_terminator (c : ascii) : bool :=
  Ascii.eqb c "010"%char || Ascii.eqb c "013"%char.

(** What [(.|\n)*?}] consumes from [s]: the lazy star stops at the first
    closing brace; a character is consumed when it is not a line terminator
    or is a line feed, so a carriage return before the first brace makes
    the match fail. Sources are ASCII text, so the line and paragraph
    separators U+2028 and U+2029 do not occur. *)
Fixpoint match_body (s : string) : option string :=
  match s with
  | EmptyString => None
  | String c s' =>
      if Ascii.eqb c "}"%char then Some "}"
      else if negb (is_line_terminator c) || Ascii.eqb c "010"%char
      then option_map (String c) (match_body s')
      else None
  end.

Fixpoint strip_prefix (p s : string) : option string :=
  match p, s with
  | EmptyString, _ => Some s
  | String a p', String b s' => if Ascii.eqb a b then strip_prefix p' s' else None
  | String _ _, EmptyString => None
  end.

Definition struct_header : string := "struct VertexInput {" +:+ nl.

(** [code.match(/^struct VertexInput {\n(.|\n)*?}/)?.[0]]: the pattern has
    no [m] flag, so [^] is the start of the source. *)
Definition match_VertexInput (code : string) : option string :=
  match strip_prefix struct_header code with
  | Some rest => option_map (fun body => struct_header +:+ body) (match_body rest)
  | None => None
  end.

Fixpoint string_drop (n : nat) (s : string) : string :=
  match n, s with
  | O, _ => s
  | S n', String _ s' => string_drop n' s'
  | S _, EmptyString => EmptyString
  end.

(** The replacement text of [String.prototype.replace] with a string
    pattern: in the template [$$] is a dollar sign, [$&] the matched text,
    [$`] the text before the match and [$'] the text after it; with a
    string pattern there are no captures, so every other [$] is literal. *)
Fixpoint getSubstitution (matched before after template : string) : string :=
  match template with
  | EmptyString => EmptyString
  | String c rest =>
      if Ascii.eqb c "$"%char then
        match rest with
        | String d rest' =>
            if Ascii.eqb d "$"%char then String "$"%char (getSubstitution matched before after rest')
            else if Ascii.eqb d "&"%char then matched +:+ getSubstitution matched before after rest'
            else if Ascii.eqb d "`"%char then before +:+ getSubstitution matched before after rest'
            else if Ascii.eqb d "'"%char then after +:+ getSubstitution matched before after rest'
            else String c (getSubstitution matched before after rest)
        | EmptyString => String c EmptyString
        end
      else String c (getSubstitution matched before after rest)
  end.

(** [code.replace(old, rep)] where [old] was matched at the start of
    [code]: the first occurrence of [old] is that prefix. *)
Definition replace_prefix (code old rep : string) : string :=
  let after := string_drop (String.length old) code in
  getSubstitution old "" after rep +:+ after.

(** The source handed to [createShaderModule]. *)
Definition patch_shader (code : string) (vbs : list VertexBuffer) : string :=
  let vertexInputStr := vertexInputStr vbs in
  if String.eqb vertexInputStr "" then code
  else
    let rep := "struct VertexInput {" +:+ nl +:+ vertexInputStr +:+ nl +:+ "}" in
    match match_VertexInput code with
    | Some old =>
        if (String.length old =? 0)%nat then rep +:+ nl +:+ code
        else replace_prefix code old rep
    | None => rep +:+ nl +:+ code
    end.

(** The struct the specification describes: one member per declared
    attribute with a recognised name, numbered in order. *)
Definition recognised (vbs : list VertexBuffer) : list VertexAttribute :=
  omap (fun v =>
          match vb_attribute v with
          | Some a => if bool_decide (attr_name a ∈ builtinAttributeNames) then Some a else None
          | None => None
          end) vbs.

Fixpoint spec_members (i : nat) (attrs : list VertexAttribute) : list string :=
  match attrs with
  | [] => []
  | a :: attrs' =>
      ("  @location(" +:+ decimal i +:+ ") " +:+ attr_name a +:+ ": " +:+ attr_type a)
        :: spec_members (S i) attrs'
  end.

Definition spec_struct (vbs : list VertexBuffer) : string :=
  "struct VertexInput {" +:+ nl +:+ join ("," +:+ nl) (spec_members 0 (recognised vbs)) +:+ nl +:+ "}".

(** ** The device, the renderer state and the state monad *)

(** A GPU object (buffer, texture, view, sampler, layout, pipeline ...) is
    identified by the number the device allocator gave it. *)
Definition Handle := nat.

Inductive BindingKind := BkBuffer | BkTexture | BkSampler.

Record LayoutEntry := {
  le_binding : nat;
  le_visibility : Z;
  le_kind : BindingKind
}.

Inductive Resource :=
  | ResBuffer (buffer : Handle)
  | ResView (view : Handle)
  | ResSampler (sampler : Handle).

Record BindGroupEntry := { bge_binding : nat; bge_resource : Resource }.

Record PipelineOption := {
  po_transparent : bool;
  po_cullMode : string;
  po_topology : string;
  po_depthWriteEnabled : bool;
  po_depthCompare : string;
  po_vertexBufferLayouts : list VertexBufferLayout;
  po_blending : string;
  po_colorAttachments : Z;
  po_samples : Z
}.

Record RenderPipelineDescriptor := {
  rp_layout : Handle;
  rp_label : string;
  rp_module : Handle;
  rp_buffers : list VertexBufferLayout;
  rp_targetFormat : string;
  rp_cullMode : string;
  rp_topology : string;
  rp_depthWriteEnabled : bool;
  rp_depthCompare : string;
  rp_multisample : Z
}.

(** The calls made on the canvas context, the device, its queue, the
    command encoder and the pass encoder. *)
Inductive Event :=
  | Configure (format : string)
  | CreateTexture (h : Handle) (format : string) (size : list Z) (usage : Z)
      (sampleCount : option Z)
  | DestroyTexture (h : Handle)
  | CreateView (h : Handle) (texture : Handle)
  | CurrentTextureView (h : Handle)
  | CreateBuffer (h : Handle) (label : option string) (size : Z) (usage : Z)
  | WriteBuffer (buffer : Handle) (bufferOffset : Z) (data : Key) (size : Z)
  | CopyExternalImageToTexture (source : Key) (texture : Handle) (size : list Z)
  | CreateSampler (h : Handle) (descriptor : string)
  | CreateBindGroupLayout (h : Handle) (entries : list LayoutEntry)
  | CreateShaderModule (h : Handle) (code : string)
  | CreatePipelineLayout (h : Handle) (bindGroupLayouts : list Handle)
  | CreateRenderPipeline (h : Handle) (descriptor : RenderPipelineDescriptor)
  | CreateBindGroup (h : Handle) (layout : Handle) (entries : list BindGroupEntry)
  | CreateCommandEncoder (h : Handle)
  | BeginRenderPass (view resolveTarget depthView : option Handle) (clear : bool)
  | SetViewport (width height : Z)
  | SetPipeline (pipeline : Handle)
  | SetIndexBuffer (buffer : Handle) (indexFormat : string)
  | SetVertexBuffer (slot : nat) (buffer : Handle)
  | SetBindGroup (index : nat) (bindGroup : Handle)
  | DrawIndexed (indexCount : Count) (instanceCount firstIndex : Q)
  | Draw (vertexCount : Count) (instanceCount : Q) (firstVertex : option Q)
  | EndPass
  | Submit (encoder : Handle).

(** What the cache map holds ([unknown] in the source): a GPU object with
    its label, or the uniform list and bind-group layout of a material. The
    list holds the uniform objects themselves; an object is written with the
    fields ([type], [value], [descriptor], [image]) it had when the list
    was built, which are its fields later as long as the application does
    not assign to them. What does change on a cached object, the flag
    [needsUpdate] and the contents of its arrays, is kept in the [World]. *)
Inductive Cached :=
  | CObject (h : Handle) (label : string)
  | CLayout (uniforms : list Uniform) (bindGroupLayout : Handle).

(** The casts at the call sites of [_cached]; the object behind a key has
    one class, so the other constructor is not met. *)
Definition cached_handle (c : Cached) : Handle :=
  match c with CObject h _ => h | CLayout _ h => h end.

Definition cached_label (c : Cached) : string :=
  match c with CObject _ l => l | CLayout _ _ => "" end.

Definition cached_uniforms (c : Cached) : list Uniform :=
  match c with CLayout us _ => us | CObject _ _ => [] end.

Record GPUTexture := { tex_handle : Handle; tex_size : list Z; tex_sampleCount : Z }.

Record World := {
  canvas_width : Z;
  canvas_height : Z;
  format : string;
  autoClear : bool;
  samples : Z;
  _msaaTexture : option GPUTexture;
  _msaaTextureView : option Handle;
  _depthTexture : option GPUTexture;
  _depthTextureView : option Handle;
  _cacheMap : gmap Key Cached;
  needsUpdate : gmap Key bool;
  floats : gmap Key (list Q);
  nextHandle : nat;
  trace : list Event
}.

Definition M (A : Type) : Type := World -> A * World.

Definition ret {A} (a : A) : M A := fun w => (a, w).

Definition bind {A B} (m : M A) (f : A -> M B) : M B :=
  fun w => let '(a, w') := m w in f a w'.

Notation "'do' x <- m ; k" := (bind m (fun x => k))
  (at level 10, x name, m at level 100, k at level 200, only parsing).

Definition get {A} (f : World -> A) : M A := fun w => (f w, w).

Definition with_trace (t : list Event) (w : World) : World :=
  {| canvas_width := canvas_width w; canvas_height := canvas_height w;
     format := format w; autoClear := autoClear w; samples := samples w;
     _msaaTexture := _msaaTexture w; _msaaTextureView := _msaaTextureView w;
     _depthTexture := _depthTexture w; _depthTextureView := _depthTextureView w;
     _cacheMap := _cacheMap w; needsUpdate := needsUpdate w; floats := floats w;
     nextHandle := nextHandle w; trace := t |}.

Definition with_nextHandle (n : nat) (w : World) : World :=
  {| canvas_width := canvas_width w; canvas_height := canvas_height w;
     format := format w; autoClear := autoClear w; samples := samples w;
     _msaaTexture := _msaaTexture w; _msaaTextureView := _msaaTextureView w;
     _depthTexture := _depthTexture w; _depthTextureView := _depthTextureView w;
     _cacheMap := _cacheMap w; needsUpdate := needsUpdate w; floats := floats w;
     nextHandle := n; trace := trace w |}.

Definition with_cacheMap (c : gmap Key Cached) (w : World) : World :=
  {| canvas_width := canvas_width w; canvas_height := canvas_height w;
     format := format w; autoClear := autoClear w; samples := samples w;
     _msaaTexture := _msaaTexture w; _msaaTextureView := _msaaTextureView w;
     _depthTexture := _depthTexture w; _depthTextureView := _depthTextureView w;
     _cacheMap := c; needsUpdate := needsUpdate w; floats := floats w;
     nextHandle := nextHandle w; trace := trace w |}.

Definition with_needsUpdate (f : gmap Key bool) (w : World) : World :=
  {| canvas_width := canvas_width w; canvas_height := canvas_height w;
     format := format w; autoClear := autoClear w; samples := samples w;
     _msaaTexture := _msaaTexture w; _msaaTextureView := _msaaTextureView w;
     _depthTexture := _depthTexture w; _depthTextureView := _depthTextureView w;
     _cacheMap := _cacheMap w; needsUpdate := f; floats := floats w;
     nextHandle := nextHandle w; trace := trace w |}.

Definition with_floats (f : gmap Key (list Q)) (w : World) : World :=
  {| canvas_width := canvas_width w; canvas_height := canvas_height w;
     format := format w; autoClear := autoClear w; samples := samples w;
     _msaaTexture := _msaaTexture w; _msaaTextureView := _msaaTextureView w;
     _depthTexture := _depthTexture w; _depthTextureView := _depthTextureView w;
     _cacheMap := _cacheMap w; needsUpdate := needsUpdate w; floats := f;
     nextHandle := nextHandle w; trace := trace w |}.

Definition with_canvas (width height : Z) (w : World) : World :=
  {| canvas_width := width; canvas_height := height;
     format := format w; autoClear := autoClear w; samples := samples w;
     _msaaTexture := _msaaTexture w; _msaaTextureView := _msaaTextureView w;
     _depthTexture := _depthTexture w; _depthTextureView := _depthTextureView w;
     _cacheMap := _cacheMap w; needsUpdate := needsUpdate w; floats := floats w;
     nextHandle := nextHandle w; trace := trace w |}.

Definition with_msaa (t : GPUTexture) (view : Handle) (w : World) : World :=
  {| canvas_width := canvas_width w; canvas_height := canvas_height w;
     format := format w; autoClear := autoClear w; samples := samples w;
     _msaaTexture := Some t; _msaaTextureView := Some view;
     _depthTexture := _depthTexture w; _depthTextureView := _depthTextureView w;
     _cacheMap := _cacheMap w; needsUpdate := needsUpdate w; floats := floats w;
     nextHandle := nextHandle w; trace := trace w |}.

Definition with_depth (t : GPUTexture) (view : Handle) (w : World) : World :=
  {| canvas_width := canvas_width w; canvas_height := canvas_height w;
     format := format w; autoClear := autoClear w; samples := samples w;
     _msaaTexture := _msaaTexture w; _msaaTextureView := _msaaTextureView w;
     _depthTexture := Some t; _depthTextureView := Some view;
     _cacheMap := _cacheMap w; needsUpdate := needsUpdate w; floats := floats w;
     nextHandle := nextHandle w; trace := trace w |}.

(** A call on the device or an encoder is appended to the trace. *)
Definition emit (e : Event) : M unit :=
  fun w => (tt, with_trace (trace w ++ [e]) w).

(** A new object: the next number of the allocator. *)
Definition allocate : M Handle :=
  fun w => (nextHandle w, with_nextHandle (S (nextHandle w)) w).

Definition set_needsUpdate (k : Key) (b : bool) : M unit :=
  fun w => (tt, with_needsUpdate (<[k := b]> (needsUpdate w)) w).

Definition set_floats (k : Key) (v : list Q) : M unit :=
  fun w => (tt, with_floats (<[k := v]> (floats w)) w).

(** Truthiness of an optional flag: [v.needsUpdate], [v.needsUpdate ?? false]. *)
Definition truthy (o : option bool) : bool := default false o.

(** ** The resource cache *)

(** Modelled from the spec: [weakCached] lives in [./utils], which is not
    in the sources. On the first lookup for an identity it invokes the
    creation function once, stores the result and returns it; on later
    lookups, if the staleness predicate returns true for the stored object
    it invokes the creation function again, replaces the stored object and
    returns the new one; otherwise it returns the stored object unchanged. *)
Definition weakCached (k : Key) (onCreate : M Cached)
    (stale : option (Cached -> M bool)) : M Cached :=
  do old <- get (fun w => _cacheMap w !! k);
  match old with
  | Some o =>
      do s <- match stale with Some f => f o | None => ret false end;
      if s then
        do v <- onCreate;
        (fun w => (v, with_cacheMap (<[k := v]> (_cacheMap w)) w))
      else ret o
  | None =>
      do v <- onCreate;
      (fun w => (v, with_cacheMap (<[k := v]> (_cacheMap w)) w))
  end.

(** [WebGPURenderer._cached]: [weakCached] on the renderer's own map. *)
Definition _cached (k : Key) (onCreate : M Cached)
    (stale : option (Cached -> M bool)) : M Cached :=
  weakCached k onCreate stale.

(** ** Swapchain targets *)

Definition GPUTextureUsage_COPY_SRC : Z := 1.
Definition GPUTextureUsage_COPY_DST : Z := 2.
Definition GPUTextureUsage_TEXTURE_BINDING : Z := 4.
Definition GPUTextureUsage_RENDER_ATTACHMENT : Z := 16.
Definition GPUBufferUsage_COPY_DST : Z := 8.
Definition GPUBufferUsage_INDEX : Z := 16.
Definition GPUBufferUsage_VERTEX : Z := 32.
Definition GPUBufferUsage_UNIFORM : Z := 64.
Definition GPUBufferUsage_STORAGE : Z := 128.
Definition GPUShaderStage_VERTEX : Z := 1.
Definition GPUShaderStage_FRAGMENT : Z := 2.

Definition destroy_if_defined (t : option GPUTexture) : M unit :=
  match t with
  | Some t => emit (DestroyTexture (tex_handle t))
  | None => ret tt
  end.

Definition _resizeSwapchain : M unit :=
  do fmt <- get format;
  do _ <- emit (Configure fmt);
  do size <- get (fun w => [canvas_width w; canvas_height w]);
  let usage := Z.lor GPUTextureUsage_COPY_DST GPUTextureUsage_RENDER_ATTACHMENT in
  do sampleCount <- get samples;
  do oldMsaa <- get _msaaTexture;
  do _ <- destroy_if_defined oldMsaa;
  do msaa <- allocate;
  do _ <- emit (CreateTexture msaa fmt size usage (Some sampleCount));
  do msaaView <- allocate;
  do _ <- emit (CreateView msaaView msaa);
  do _ <- (fun w => (tt, with_msaa {| tex_handle := msaa; tex_size := size;
                                      tex_sampleCount := sampleCount |} msaaView w));
  do oldDepth <- get _depthTexture;
  do _ <- destroy_if_defined oldDepth;
  do depth <- allocate;
  do _ <- emit (CreateTexture depth "depth24plus-stencil8" size usage (Some sampleCount));
  do depthView <- allocate;
  do _ <- emit (CreateView depthView depth);
  fun w => (tt, with_depth {| tex_handle := depth; tex_size := size;
                              tex_sampleCount := sampleCount |} depthView w).

Definition setSize (width height : Z) : M unit :=
  do _ <- (fun w => (tt, with_canvas width height w));
  _resizeSwapchain.

(** The events of one [_resizeSwapchain], from the state it starts in. *)
Definition resize_events (w : World) : list Event :=
  let size := [canvas_width w; canvas_height w] in
  let n := nextHandle w in
  [Configure (format w)]
  ++ match _msaaTexture w with Some t => [DestroyTexture (tex_handle t)] | None => [] end
  ++ [CreateTexture n (format w) size 18 (Some (samples w)); CreateView (S n) n]
  ++ match _depthTexture w with Some t => [DestroyTexture (tex_handle t)] | None => [] end
  ++ [CreateTexture (S (S n)) "depth24plus-stencil8" size 18 (Some (samples w));
      CreateView (S (S (S n))) (S (S n))].

(** The textures created and not destroyed along a trace. *)
Fixpoint live_textures (t : list Event) (live : list Handle) : list Handle :=
  match t with
  | [] => live
  | CreateTexture h _ _ _ _ :: t' => live_textures t' (live ++ [h])
  | DestroyTexture h :: t' => live_textures t' (List.filter (fun x => negb (x =? h)%nat) live)
  | _ :: t' => live_textures t' live
  end.

(** ** Materializer: buffers, samplers, textures *)

Definition src_key (d : BufferSource) : Key :=
  match d with
  | SrcTyped a => ta_key a
  | SrcArrayBuffer k _ => k
  end.

Definition _createBuffer (data : BufferSource) (usage : Z) (label : option string)
    : M Handle :=
  do buffer <- allocate;
  do _ <- emit (CreateBuffer buffer label (src_byteLength data)
                  (Z.lor (Z.lor usage GPUBufferUsage_COPY_DST) GPUBufferUsage_STORAGE));
  do _ <- emit (WriteBuffer buffer 0 (src_key data) (src_byteLength data));
  ret buffer.

(** The creation function and the staleness predicate of a sampler. *)
Definition create_sampler (k : Key) (descriptor : string) : M Cached :=
  do target <- allocate;
  do _ <- emit (CreateSampler target descriptor);
  do _ <- set_needsUpdate k false;
  ret (CObject target "").

Definition stale_sampler (k : Key) (_ : Cached) : M bool :=
  get (fun w => truthy (needsUpdate w !! k)).

Definition _updateSampler (k : Key) (descriptor : string) : M Cached :=
  _cached k (create_sampler k descriptor) (Some (stale_sampler k)).

(** The creation function and the staleness predicate of a texture; a
    stale texture is destroyed by the predicate. *)
Definition create_texture (k : Key) (descriptor : TextureDescriptor)
    (image : option Key) : M Cached :=
  do fmt <- get format;
  do target <- allocate;
  do _ <- emit (CreateTexture target (default fmt (td_format descriptor))
                  (td_size descriptor)
                  (Z.lor (Z.lor (Z.lor (Z.lor (default 0%Z (td_usage descriptor))
                     GPUTextureUsage_TEXTURE_BINDING)
                     GPUTextureUsage_RENDER_ATTACHMENT)
                     GPUTextureUsage_COPY_SRC)
                     GPUTextureUsage_COPY_DST)
                  None);
  do _ <- match image with
          | Some img => emit (CopyExternalImageToTexture img target (td_size descriptor))
          | None => ret tt
          end;
  do _ <- set_needsUpdate k false;
  ret (CObject target "").

Definition stale_texture (k : Key) (o : Cached) : M bool :=
  do res <- get (fun w => truthy (needsUpdate w !! k));
  do _ <- (if res then emit (DestroyTexture (cached_handle o)) else ret tt);
  ret res.

Definition _updateTexture (k : Key) (descriptor : TextureDescriptor)
    (image : option Key) : M Cached :=
  _cached k (create_texture k descriptor image) (Some (stale_texture k)).

(** ** Pipeline assembly: [_updatePipeline] *)

(** Reading and writing through [bo.subarray(start, stop)]: the view shares
    the block's storage, and a write outside the block is dropped. *)
Definition subarray (start stop : nat) (bo : list Q) : list Q :=
  take (stop - start) (drop start bo).

Definition subarray_set (start len : nat) (src : list Q) (bo : list Q) : list Q :=
  foldr (fun i acc => <[(start + i)%nat := at_ src i]> acc) bo (seq 0 len).

Definition layout_entry (i : nat) (v : Uniform) : LayoutEntry :=
  match v with
  | UBuffer _ _ =>
      {| le_binding := i;
         le_visibility := Z.lor GPUShaderStage_VERTEX GPUShaderStage_FRAGMENT;
         le_kind := BkBuffer |}
  | UTexture _ _ _ | UExternalTexture _ _ =>
      {| le_binding := i; le_visibility := GPUShaderStage_FRAGMENT; le_kind := BkTexture |}
  | USampler _ _ =>
      {| le_binding := i; le_visibility := GPUShaderStage_FRAGMENT; le_kind := BkSampler |}
  end.

Definition needsUpdate_truthy (k : Key) : M bool :=
  get (fun w => truthy (needsUpdate w !! k)).

(** The callback of [uniforms.map] that resolves one binding. *)
Definition bind_uniform (i : nat) (v : Uniform) : M BindGroupEntry :=
  match v with
  | UBuffer k value =>
      let label := "uniform " +:+ decimal i +:+ " buffer" in
      do buffer <- _cached k
                     (do b <- _createBuffer value GPUBufferUsage_UNIFORM (Some label);
                      ret (CObject b label))
                     None;
      do dirty <- needsUpdate_truthy k;
      do _ <- (if dirty then
                 do _ <- emit (WriteBuffer (cached_handle buffer) (src_writeOffset value)
                                 (src_key value) (src_byteLength value));
                 set_needsUpdate k false
               else ret tt);
      ret {| bge_binding := i; bge_resource := ResBuffer (cached_handle buffer) |}
  | UTexture k descriptor image =>
      do texture <- _updateTexture k descriptor image;
      do view <- allocate;
      do _ <- emit (CreateView view (cached_handle texture));
      ret {| bge_binding := i; bge_resource := ResView view |}
  | UExternalTexture k descriptor =>
      do texture <- _updateTexture k descriptor None;
      do view <- allocate;
      do _ <- emit (CreateView view (cached_handle texture));
      ret {| bge_binding := i; bge_resource := ResView view |}
  | USampler k descriptor =>
      do sampler <- _updateSampler k descriptor;
      ret {| bge_binding := i; bge_resource := ResSampler (cached_handle sampler) |}
  end.

Fixpoint bind_uniforms (i : nat) (us : list Uniform) : M (list BindGroupEntry) :=
  match us with
  | [] => ret []
  | v :: us' =>
      do e <- bind_uniform i v;
      do es <- bind_uniforms (S i) us';
      ret (e :: es)
  end.

(** The callback of [vertexBuffers.forEach]. *)
Definition bind_vertexBuffer (i : nat) (vb : VertexBuffer) : M unit :=
  do buffer <- _cached (vb_key vb)
                 (do _ <- set_needsUpdate (vb_key vb) false;
                  do b <- _createBuffer (SrcTyped (vb_buffer vb)) GPUBufferUsage_VERTEX None;
                  ret (CObject b ""))
                 None;
  do dirty <- needsUpdate_truthy (vb_key vb);
  do _ <- (if dirty then
             do _ <- emit (WriteBuffer (cached_handle buffer) (ta_byteOffset (vb_buffer vb))
                             (ta_key (vb_buffer vb)) (ta_byteLength (vb_buffer vb)));
             set_needsUpdate (vb_key vb) false
           else ret tt);
  emit (SetVertexBuffer i (cached_handle buffer)).

Fixpoint bind_vertexBuffers (i : nat) (vbs : list VertexBuffer) : M unit :=
  match vbs with
  | [] => ret tt
  | vb :: vbs' => do _ <- bind_vertexBuffer i vb; bind_vertexBuffers (S i) vbs'
  end.

Definition pipelineOption (samples : Z) (mesh : Mesh) : PipelineOption :=
  {| po_transparent := transparent (material mesh);
     po_cullMode := cullMode (material mesh);
     po_topology := topology (geometry mesh);
     po_depthWriteEnabled := depthWrite (material mesh);
     po_depthCompare := if depthTest (material mesh) then "less" else "always";
     po_vertexBufferLayouts := map vb_layout (vertexBuffers (geometry mesh));
     po_blending := blending (material mesh);
     po_colorAttachments := 1;
     po_samples := samples |}.

Section Renderer.
(** [JSON.stringify] on the pipeline options, and the functions of the math
    module: the matrix product, [Mat3.normalFromMat4] (given the previous
    contents of its output, which it leaves alone for a singular matrix),
    [Mat4.invert] and [Vec3.transformMat4]. *)
Variable JSON_stringify : PipelineOption -> string.
Variable Mat4_multiply : Mat4 -> Mat4 -> Mat4.
Variable Mat3_normalFromMat4 : list Q -> Mat4 -> list Q.
Variable Mat4_invert : Mat4 -> Mat4.
Variable Vec3_transformMat4 : Vec3 -> Mat4 -> Vec3.

(** The effect of the [Camera] component that keeps the view matrix:
    [m.copy(mat).invert()] on the camera's matrix. *)
Definition Camera_viewMatrix_effect (c : Camera) : Camera :=
  {| cam_matrix := cam_matrix c;
     projectionMatrix := projectionMatrix c;
     viewMatrix := Mat4_invert (cam_matrix c);
     projectionViewMatrix := projectionViewMatrix c;
     matrixAutoUpdate := matrixAutoUpdate c;
     position := position c |}.

(** The creation function of the uniform layout of a material. *)
Definition create_layout (mesh : Mesh) : M Cached :=
  do array <- allocate;
  do _ <- set_floats (KNew array) (replicate 80 0%Q);
  do binding <- allocate;
  let baseUniformBuffer :=
    UBuffer (KNew binding)
      (SrcTyped {| ta_key := KNew array; BYTES_PER_ELEMENT := 4;
                   ta_length := 80; ta_byteOffset := 0 |}) in
  let uniforms := baseUniformBuffer :: uniforms (material mesh) in
  do bindGroupLayout <- allocate;
  do _ <- emit (CreateBindGroupLayout bindGroupLayout (imap layout_entry uniforms));
  ret (CLayout uniforms bindGroupLayout).

(** The writes into the base uniform block [bo]. *)
Definition write_base (mesh : Mesh) (camera : Camera) (bo : list Q) : list Q :=
  let bo := subarray_set 0 16 (matrix mesh) bo in
  let bo := subarray_set 16 16 (viewMatrix camera) bo in
  let bo := subarray_set 32 16 (projectionMatrix camera) bo in
  let bo := subarray_set 48 16 (subarray 16 32 bo) bo in
  let bo := subarray_set 48 16 (Mat4_multiply (subarray 48 64 bo) (subarray 0 16 bo)) bo in
  let bo := subarray_set 64 9 (Mat3_normalFromMat4 (subarray 64 73 bo) (subarray 48 64 bo)) bo in
  subarray_set 76 3 [vx (position camera); vy (position camera); vz (position camera)] bo.

(** [uniforms[0] as UniformBuffer], its value as a [Float32Array]: rewrite
    the block and raise the flag. *)
Definition update_base (mesh : Mesh) (camera : Camera) (us : list Uniform) : M unit :=
  match us with
  | UBuffer k (SrcTyped bo) :: _ =>
      do old <- get (fun w => default [] (floats w !! ta_key bo));
      do _ <- set_floats (ta_key bo) (write_base mesh camera old);
      set_needsUpdate k true
  | _ => ret tt
  end.

(** The creation function of the pipeline of a mesh. *)
Definition create_pipeline (mesh : Mesh) (bindGroupLayout : Handle)
    (option : PipelineOption) (pipelineCacheKey : string) : M Cached :=
  let code := patch_shader (shaderCode (material mesh)) (vertexBuffers (geometry mesh)) in
  do shaderModule <- allocate;
  do _ <- emit (CreateShaderModule shaderModule code);
  do fmt <- get format;
  do layout <- allocate;
  do _ <- emit (CreatePipelineLayout layout [bindGroupLayout]);
  do pipeline <- allocate;
  do _ <- emit (CreateRenderPipeline pipeline
                  {| rp_layout := layout;
                     rp_label := pipelineCacheKey;
                     rp_module := shaderModule;
                     rp_buffers := po_vertexBufferLayouts option;
                     rp_targetFormat := fmt;
                     rp_cullMode := cullMode (material mesh);
                     rp_topology := topology (geometry mesh);
                     rp_depthWriteEnabled := po_depthWriteEnabled option;
                     rp_depthCompare := po_depthCompare option;
                     rp_multisample := po_samples option |});
  ret (CObject pipeline pipelineCacheKey).

(** The staleness predicate of a pipeline: [o.label !== pipelineCacheKey]. *)
Definition pipeline_stale (pipelineCacheKey : string) (o : Cached) : M bool :=
  ret (negb (String.eqb (cached_label o) pipelineCacheKey)).

(** The pipeline of a mesh: cached under the mesh, stale when the label of
    the cached pipeline is not the current fingerprint. *)
Definition resolve_pipeline (mesh : Mesh) (bindGroupLayout : Handle) : M Cached :=
  do samples <- get samples;
  let option := pipelineOption samples mesh in
  let pipelineCacheKey := JSON_stringify option in
  _cached (mesh_key mesh)
    (create_pipeline mesh bindGroupLayout option pipelineCacheKey)
    (Some (pipeline_stale pipelineCacheKey)).

Definition bind_indexBuffer (ib : option IndexBuffer) : M unit :=
  match ib with
  | Some ib =>
      do buffer <- _cached (ib_key ib)
                     (do b <- _createBuffer (SrcTyped (ib_buffer ib)) GPUBufferUsage_INDEX None;
                      ret (CObject b ""))
                     None;
      emit (SetIndexBuffer (cached_handle buffer)
              ("uint" +:+ decimal_Z (BYTES_PER_ELEMENT (ib_buffer ib) * 8)))
  | None => ret tt
  end.

(** The first half of [_updatePipeline]: the uniform layout of the material
    and the rewrite of its base block. *)
Definition uniform_setup (mesh : Mesh) (camera : Camera) : M Cached :=
  do layout <- _cached (uniforms_key (material mesh)) (create_layout mesh) None;
  do _ <- update_base mesh camera (cached_uniforms layout);
  ret layout.

Definition _updatePipeline (mesh : Mesh) (camera : Camera) : M unit :=
  do layout <- uniform_setup mesh camera;
  let uniforms := cached_uniforms layout in
  let bindGroupLayout := cached_handle layout in
  do bindGroupEntries <- bind_uniforms 0 uniforms;
  do pipeline <- resolve_pipeline mesh bindGroupLayout;
  do _ <- emit (SetPipeline (cached_handle pipeline));
  do _ <- bind_indexBuffer (indexBuffer (geometry mesh));
  do _ <- bind_vertexBuffers 0 (vertexBuffers (geometry mesh));
  if (length bindGroupEntries =? 0)%nat then ret tt
  else
    do bindGroup <- allocate;
    do _ <- emit (CreateBindGroup bindGroup bindGroupLayout bindGroupEntries);
    emit (SetBindGroup 0 bindGroup).
End Renderer.

(** ** The frame: [render] *)

(** The draw call issued for a node after its pipeline is bound. *)
Definition draw_node (node : Mesh) : M unit :=
  let g := geometry node in
  match indexBuffer g with
  | Some indexBuffer =>
      let count := Math_min (dr_count (drawRange g))
                     (Finite (inject_Z (ta_length (ib_buffer indexBuffer)))) in
      emit (DrawIndexed count (instanceCount g) (default 0%Q (dr_start (drawRange g))))
  | None =>
      match vertexBuffers g with
      | position :: _ =>
          let count := Math_min (dr_count (drawRange g))
                         (div_length (ta_length (vb_buffer position))
                            (arrayStride (vb_layout position))) in
          emit (Draw count (instanceCount g) (Some (default 0%Q (dr_start (drawRange g)))))
      | [] => emit (Draw (Finite 3) (instanceCount g) None)
      end
  end.

(** The count the specification gives for a non-indexed draw: the byte
    length of the first vertex buffer divided by its stride. *)
Definition spec_vertex_count (g : Geometry) (position : VertexBuffer) : Count :=
  Math_min (dr_count (drawRange g))
    (div_length (ta_byteLength (vb_buffer position)) (arrayStride (vb_layout position))).

Section Frame.
Variable JSON_stringify : PipelineOption -> string.
Variable Mat4_multiply : Mat4 -> Mat4 -> Mat4.
Variable Mat3_normalFromMat4 : list Q -> Mat4 -> list Q.
Variable Vec3_transformMat4 : Vec3 -> Mat4 -> Vec3.

Fixpoint render_nodes (renderList : list Mesh) (camera : Camera) : M unit :=
  match renderList with
  | [] => ret tt
  | node :: rest =>
      do _ <- _updatePipeline JSON_stringify Mat4_multiply Mat3_normalFromMat4 node camera;
      do _ <- draw_node node;
      render_nodes rest camera
  end.

(** One frame. The world matrices of the scene and the camera are taken as
    [scene.updateMatrix()] and [camera.updateMatrix()] leave them. *)
Definition render (scene : Object3D) (camera : Camera) : M unit :=
  do samples <- get samples;
  do msaa <- get _msaaTexture;
  do _ <- (if bool_decide (option_map tex_sampleCount msaa = Some samples)
           then ret tt else _resizeSwapchain);
  do renderView <- get _msaaTextureView;
  do resolveTarget <- allocate;
  do _ <- emit (CurrentTextureView resolveTarget);
  do clear <- get autoClear;
  do encoder <- allocate;
  do _ <- emit (CreateCommandEncoder encoder);
  do depthView <- get _depthTextureView;
  do _ <- emit (BeginRenderPass renderView (Some resolveTarget) depthView clear);
  do width <- get canvas_width;
  do height <- get canvas_height;
  do _ <- emit (SetViewport width height);
  let renderList := sort Mat4_multiply Vec3_transformMat4 scene (Some camera) in
  do _ <- render_nodes renderList (sort_camera Mat4_multiply camera);
  do _ <- emit EndPass;
  emit (Submit encoder).
End Frame.

(** The renderer as its constructor leaves it: the swapchain targets are
    created for the canvas. *)
Definition empty_world (width height : Z) (fmt : string) : World :=
  {| canvas_width := width; canvas_height := height; format := fmt;
     autoClear := true; samples := 4;
     _msaaTexture := None; _msaaTextureView := None;
     _depthTexture := None; _depthTextureView := None;
     _cacheMap := ∅; needsUpdate := ∅; floats := ∅;
     nextHandle := 0; trace := [] |}.

Definition new_renderer (width height : Z) (fmt : string) : World :=
  (_resizeSwapchain (empty_world width height fmt)).2.

(** ** The PBR material *)

Module PBR.

(** A typed-array view on an [ArrayBuffer]: the buffer, the byte offset and
    the number of 4-byte elements. Every view of the material is 4-byte
    aligned on 4-byte elements, so a buffer is kept as its list of 32-bit
    words. *)
Record View := { view_buffer : Key; view_byteOffset : nat; view_length : nat }.

Inductive Uniform :=
  | Buffer (value : Key) (needsUpdate : option bool)
  | Texture (k : Key)
  | Sampler (descriptor : string).

Record PBRMaterial := {
  buffers : gmap Key (list Z);
  uniforms : list Uniform;
  _pbrBuffer : Key;
  _albedo : View;
  _pbrParamsValue : View;
  _pbrFlag : View
}.

Record Options := {
  opt_albedo : option Vec3;
  opt_metallic : option Q;
  opt_roughness : option Q;
  opt_occlusion : option Q;
  opt_albedoTexture : option Key;
  opt_occlusionRoughnessMetallicTexture : option Key
}.

Inductive Setter :=
  | albedo (v : Vec3)
  | metallic (v : Q)
  | roughness (v : Q)
  | occlusion (v : Q)
  | albedoTexture (v : option Key)
  | occlusionRoughnessMetallicTexture (v : option Key).

(** [view[i] = word]: a store outside the view is dropped. *)
Definition view_set (v : View) (i : nat) (word : Z) (h : gmap Key (list Z))
    : gmap Key (list Z) :=
  if (i <? view_length v)%nat
  then alter (fun l => <[(view_byteOffset v / 4 + i)%nat := word]> l) (view_buffer v) h
  else h.

Definition view_get (v : View) (i : nat) (h : gmap Key (list Z)) : Z :=
  default 0%Z (h !! view_buffer v ≫= fun l => l !! (view_byteOffset v / 4 + i)%nat).

(** [u.needsUpdate = b]; the binding at index 0, the only one the setters
    mark, is a buffer binding. *)
Definition mark (b : bool) (u : Uniform) : Uniform :=
  match u with
  | Buffer value _ => Buffer value (Some b)
  | _ => u
  end.

Definition with_buffers (h : gmap Key (list Z)) (m : PBRMaterial) : PBRMaterial :=
  {| buffers := h; uniforms := uniforms m; _pbrBuffer := _pbrBuffer m;
     _albedo := _albedo m; _pbrParamsValue := _pbrParamsValue m; _pbrFlag := _pbrFlag m |}.

Definition with_uniforms (us : list Uniform) (m : PBRMaterial) : PBRMaterial :=
  {| buffers := buffers m; uniforms := us; _pbrBuffer := _pbrBuffer m;
     _albedo := _albedo m; _pbrParamsValue := _pbrParamsValue m; _pbrFlag := _pbrFlag m |}.

(** What every reachable material satisfies: the first binding is the
    buffer binding of [_pbrBuffer], there are five bindings, the three views
    are views of [_pbrBuffer] at bytes 0, 12 and 24, and [_pbrBuffer] holds
    eight words (32 bytes). *)
Record inv (m : PBRMaterial) : Prop := {
  inv_first : exists f rest, uniforms m = Buffer (_pbrBuffer m) f :: rest;
  inv_length : length (uniforms m) = 5%nat;
  inv_albedo : _albedo m = {| view_buffer := _pbrBuffer m; view_byteOffset := 0; view_length := 3 |};
  inv_params : _pbrParamsValue m
               = {| view_buffer := _pbrBuffer m; view_byteOffset := 12; view_length := 3 |};
  inv_flag : _pbrFlag m = {| view_buffer := _pbrBuffer m; view_byteOffset := 24; view_length := 1 |};
  inv_words : exists words, buffers m !! _pbrBuffer m = Some words /\ length words = 8%nat
}.

Section Material.
(** The bits of the 32-bit float nearest to a number, [setBitOfValue] of
    [./utils] (not in the sources), and the module's default texture. *)
Variable float32_bits : Q -> Z.
Variable setBitOfValue : Z -> nat -> bool -> Z.
Variable defaultTexture : Key.

(** A store into a [Uint32Array]: the value modulo 2^32. *)
Definition uint32 (z : Z) : Z := (z mod 2 ^ 32)%Z.

(** [this.uniforms[0].needsUpdate = true] *)
Definition dirty_first (m : PBRMaterial) : PBRMaterial :=
  with_uniforms (alter (mark true) 0%nat (uniforms m)) m.

Definition set_flag_bit (bit : nat) (on : bool) (m : PBRMaterial) : PBRMaterial :=
  with_buffers
    (view_set (_pbrFlag m) 0
       (uint32 (setBitOfValue (view_get (_pbrFlag m) 0 (buffers m)) bit on))
       (buffers m)) m.

Definition set_param (i : nat) (v : Q) (m : PBRMaterial) : PBRMaterial :=
  with_buffers (view_set (_pbrParamsValue m) i (float32_bits v) (buffers m)) m.

(** The property setters of the class. *)
Definition apply (s : Setter) (m : PBRMaterial) : PBRMaterial :=
  match s with
  | albedo v =>
      dirty_first
        (with_buffers
           (view_set (_albedo m) 2 (float32_bits (vz v))
              (view_set (_albedo m) 1 (float32_bits (vy v))
                 (view_set (_albedo m) 0 (float32_bits (vx v)) (buffers m)))) m)
  | metallic v => dirty_first (set_param 0 v m)
  | roughness v => dirty_first (set_param 1 v m)
  | occlusion v => dirty_first (set_param 2 v m)
  | albedoTexture v =>
      dirty_first
        (set_flag_bit 0 (bool_decide (is_Some v))
           (with_uniforms (<[2%nat := Texture (default defaultTexture v)]> (uniforms m)) m))
  | occlusionRoughnessMetallicTexture v =>
      dirty_first
        (set_flag_bit 1 (bool_decide (is_Some v))
           (with_uniforms (<[3%nat := Texture (default defaultTexture v)]> (uniforms m)) m))
  end.

(** The constructor; [buffer] and [lightValues] are the two arrays it
    allocates. *)
Definition constructor (options : Options) (buffer lightValues : Key) : PBRMaterial :=
  let v_albedo := default (mkVec3 0 (1 # 2) 1) (opt_albedo options) in
  let albedo := {| view_buffer := buffer; view_byteOffset := 0; view_length := 3 |} in
  let pbrParamsValue := {| view_buffer := buffer; view_byteOffset := 12; view_length := 3 |} in
  let pbrFlag := {| view_buffer := buffer; view_byteOffset := 24; view_length := 1 |} in
  let h := {[ buffer := replicate 8 0%Z ]} in
  let h := view_set albedo 0 (float32_bits (vx v_albedo)) h in
  let h := view_set albedo 1 (float32_bits (vy v_albedo)) h in
  let h := view_set albedo 2 (float32_bits (vz v_albedo)) h in
  let h := view_set pbrParamsValue 0 (float32_bits (default (1 # 2) (opt_metallic options))) h in
  let h := view_set pbrParamsValue 1 (float32_bits (default (1 # 2) (opt_roughness options))) h in
  let h := view_set pbrParamsValue 2 (float32_bits (default 1 (opt_occlusion options))) h in
  let h := view_set pbrFlag 0
             (uint32 (setBitOfValue (view_get pbrFlag 0 h) 0
                        (bool_decide (is_Some (opt_albedoTexture options))))) h in
  let h := view_set pbrFlag 0
             (uint32 (setBitOfValue (view_get pbrFlag 0 h) 1
                        (bool_decide (is_Some (opt_occlusionRoughnessMetallicTexture options))))) h in
  {| buffers := h;
     uniforms :=
       [ Buffer buffer None;
         Buffer lightValues None;
         Texture (default defaultTexture (opt_albedoTexture options));
         Texture (default defaultTexture (opt_occlusionRoughnessMetallicTexture options));
         Sampler "linear,linear,linear,repeat,repeat" ];
     _pbrBuffer := buffer;
     _albedo := albedo;
     _pbrParamsValue := pbrParamsValue;
     _pbrFlag := pbrFlag |}.

(** The materials a program can hold: a constructed one, after any number
    of property assignments. *)
Inductive reachable : PBRMaterial -> Prop :=
  | reach_new options buffer lightValues :
      reachable (constructor options buffer lightValues)
  | reach_set s m : reachable m -> reachable (apply s m).

(** Whether the binding is the buffer binding of [k] with its flag raised. *)
Definition is_dirty_buffer (k : Key) (u : option Uniform) : Prop :=
  u = Some (Buffer k (Some true)).

End Material.

(** A [setBitOfValue] for concrete runs: bit [bit] of [value] becomes [on]. *)
Definition setBitOfValue_std (value : Z) (bit : nat) (on : bool) : Z :=
  if on then Z.lor value (Z.shiftl 1 (Z.of_nat bit))
  else Z.land value (Z.lnot (Z.shiftl 1 (Z.of_nat bit))).

End PBR.

(** ** A concrete instance of the external functions, and sample scenes *)

Local Open Scope Q_scope.

(** Modelled from the spec: the inverse of a 4x4 matrix and the
    inverse-transpose of its upper 3x3 block, with the standard semantics
    (cofactors over the determinant); a singular matrix is left as it is. *)
Definition remove_at {A} (i : nat) (l : list A) : list A := take i l ++ drop (S i) l.

Definition sign (j : nat) : Q := if Nat.even j then 1 else - (1).

Fixpoint det (n : nat) (m : list (list Q)) : Q :=
  match n, m with
  | S n', row :: rest =>
      foldr Qplus 0 (imap (fun j x => sign j * x * det n' (map (remove_at j) rest)) row)
  | _, _ => 1
  end.

Definition cofactor (n : nat) (m : list (list Q)) (i j : nat) : Q :=
  sign (i + j) * det (n - 1) (map (remove_at j) (remove_at i m)).

Definition rows (n : nat) (a : Mat4) : list (list Q) :=
  map (fun r => map (fun c => at_ a (4 * c + r)) (seq 0 n)) (seq 0 n).

Definition Mat4_invert_std (a : Mat4) : Mat4 :=
  let m := rows 4 a in
  let d := det 4 m in
  if Qeq_bool d 0 then a
  else flat_map (fun c => map (fun r => Qred (cofactor 4 m c r / d)) (seq 0 4)) (seq 0 4).

Definition Mat3_normalFromMat4_std (out : list Q) (a : Mat4) : list Q :=
  let m := rows 3 a in
  let d := det 3 m in
  if Qeq_bool d 0 then out
  else flat_map (fun c => map (fun r => Qred (cofactor 3 m r c / d)) (seq 0 3)) (seq 0 3).

Local Open Scope string_scope.
Local Open Scope list_scope.

(** A serialisation of the pipeline options in the manner of
    [JSON.stringify]: the fields in declaration order. *)
Definition json_bool (b : bool) : string := if b then "true" else "false".

Definition json_string (s : string) : string := String "034" (s +:+ String "034" "").

Definition JSON_stringify_std (o : PipelineOption) : string :=
  "{" +:+ json_string "transparent" +:+ ":" +:+ json_bool (po_transparent o)
  +:+ "," +:+ json_string "cullMode" +:+ ":" +:+ json_string (po_cullMode o)
  +:+ "," +:+ json_string "topology" +:+ ":" +:+ json_string (po_topology o)
  +:+ "," +:+ json_string "depthWriteEnabled" +:+ ":" +:+ json_bool (po_depthWriteEnabled o)
  +:+ "," +:+ json_string "depthCompare" +:+ ":" +:+ json_string (po_depthCompare o)
  +:+ "," +:+ json_string "vertexBufferLayouts" +:+ ":["
  +:+ join ","
        (map (fun l => "{" +:+ json_string "arrayStride" +:+ ":" +:+ decimal_Z (arrayStride l)
                       +:+ "," +:+ json_string "attributes" +:+ ":" +:+ layout_attributes l +:+ "}")
           (po_vertexBufferLayouts o))
  +:+ "]," +:+ json_string "blending" +:+ ":" +:+ json_string (po_blending o)
  +:+ "," +:+ json_string "colorAttachments" +:+ ":" +:+ decimal_Z (po_colorAttachments o)
  +:+ "," +:+ json_string "samples" +:+ ":" +:+ decimal_Z (po_samples o) +:+ "}".

Definition ex_float32 (k : positive) (n : Z) : TypedArray :=
  {| ta_key := KObj k; BYTES_PER_ELEMENT := 4; ta_length := n; ta_byteOffset := 0 |}.

Definition ex_uint16 (k : positive) (n : Z) : TypedArray :=
  {| ta_key := KObj k; BYTES_PER_ELEMENT := 2; ta_length := n; ta_byteOffset := 0 |}.

(** A vertex buffer of three [vec3f] vertices (nine floats, stride 12). *)
Definition ex_vertexBuffer (k : positive) (name type : string) : VertexBuffer :=
  {| vb_key := KObj k;
     vb_buffer := ex_float32 (k + 1) 9;
     vb_layout := {| arrayStride := 12; layout_attributes := "[]" |};
     vb_attribute := Some {| attr_name := name; attr_type := type |} |}.

Definition ex_geometry (k : positive) (indexed : bool) (count : Count) : Geometry :=
  {| topology := "triangle-list";
     vertexBuffers := [ex_vertexBuffer k "POSITION" "vec3f"];
     indexBuffer :=
       if indexed then Some {| ib_key := KObj (k + 2); ib_buffer := ex_uint16 (k + 3) 3 |}
       else None;
     drawRange := {| dr_start := Some 0%Q; dr_count := count |};
     instanceCount := 1%Q |}.

Definition ex_buffer_uniform (k : positive) : Uniform :=
  UBuffer (KObj k) (SrcArrayBuffer (KObj (k + 1)) 32).

Definition ex_material (k : positive) (depthTest transparent : bool) : Material :=
  {| uniforms_key := KObj k;
     uniforms := [ex_buffer_uniform (k + 1)];
     shaderCode := "fn vs_main() {}";
     transparent := transparent;
     cullMode := "back";
     depthTest := depthTest;
     depthWrite := true;
     blending := "" |}.

Definition ex_translation (x y z : Q) : Mat4 :=
  [1; 0; 0; 0; 0; 1; 0; 0; 0; 0; 1; 0; x; y; z; 1]%Q.

(** Mesh number [n] uses the keys [10 n] to [10 n + 9]. *)
Definition ex_mesh (n : positive) (z : Q) (depthTest transparent : bool) : Mesh :=
  {| mesh_key := KObj (10 * n);
     matrix := ex_translation 0 0 z;
     material := ex_material (10 * n + 1) depthTest transparent;
     geometry := ex_geometry (10 * n + 4) true Infinity |}.

Definition ex_camera : Camera :=
  {| cam_matrix := ex_translation 0 0 5;
     projectionMatrix := Mat4_identity;
     viewMatrix := Mat4_invert_std (ex_translation 0 0 5);
     projectionViewMatrix := Mat4_identity;
     matrixAutoUpdate := true;
     position := mkVec3 0 0 5 |}.

Definition ex_scene (meshes : list Mesh) : Object3D :=
  Node true None (map (fun m => Node true (Some m) []) meshes).

Definition ex_world : World := new_renderer 300 150 "bgra8unorm".

Definition ex_render (scene : Object3D) : M unit :=
  render JSON_stringify_std Mat4_multiply_std Mat3_normalFromMat4_std
    Vec3_transformMat4_std scene ex_camera.

(** ** Predicates used in the statements *)

(** Whether a string holds a dollar sign, the one character a replacement
    template treats specially. *)
Fixpoint has_dollar (s : string) : bool :=
  match s with
  | EmptyString => false
  | String c s' => Ascii.eqb c "$"%char || has_dollar s'
  end.

(** A struct body the pattern can cross: no closing brace and no carriage
    return. *)
Fixpoint plain_body (s : string) : bool :=
  match s with
  | EmptyString => true
  | String c s' =>
      negb (Ascii.eqb c "}"%char) && negb (Ascii.eqb c "013"%char) && plain_body s'
  end.

(** A source together with vertex buffers for concrete runs of the shader
    patch. *)
Definition ex_attributes : list VertexBuffer :=
  [ex_vertexBuffer 1 "POSITION" "vec3f"; ex_vertexBuffer 4 "COLOR" "vec4f";
   ex_vertexBuffer 7 "NORMAL" "vec3f"].

Definition ex_struct_source : string :=
  "struct VertexInput {" +:+ nl +:+ "  @location(0) POSITION: vec3f" +:+ nl +:+ "}" +:+ nl
  +:+ "fn vs_main() {}".

(** Sources that declare the struct in a form the pattern does not match:
    after a comment line, on one line, with CR LF line ends, and with a
    single CR LF line end inside the body; and an attribute whose type
    holds a dollar pattern. *)
Definition cr : string := String "013"%char "".

Definition ex_commented_source : string := "// vertex input" +:+ nl +:+ ex_struct_source.

Definition ex_one_line_source : string :=
  "struct VertexInput { @location(0) POSITION: vec3f }" +:+ nl +:+ "fn vs_main() {}".

Definition ex_crlf_source : string :=
  "struct VertexInput {" +:+ cr +:+ nl +:+ "  @location(0) POSITION: vec3f" +:+ cr +:+ nl
  +:+ "}" +:+ cr +:+ nl +:+ "fn vs_main() {}".

Definition ex_cr_body_source : string :=
  "struct VertexInput {" +:+ nl +:+ "  @location(0) POSITION: vec3f" +:+ cr +:+ nl
  +:+ "}" +:+ nl +:+ "fn vs_main() {}".

Definition ex_dollar_attributes : list VertexBuffer := [ex_vertexBuffer 1 "POSITION" "$&"].

(** The state in which the base block of a material can be rewritten: no
    layout is cached for the material yet, or the cached layout starts with
    a buffer binding whose 80-float array is in the store. *)
Definition base_block_ready (mesh : Mesh) (w : World) : Prop :=
  match _cacheMap w !! uniforms_key (material mesh) with
  | None => True
  | Some c =>
      exists kb ta rest bgl bo,
        c = CLayout (UBuffer kb (SrcTyped ta) :: rest) bgl
        /\ floats w !! ta_key ta = Some bo /\ length bo = 80%nat
  end.

(** A creation function that returns a newly allocated object. *)
Definition allocates (onCreate : M Cached) : Prop :=
  forall w,
    (nextHandle w <= cached_handle (onCreate w).1)%nat
    /\ (cached_handle (onCreate w).1 < nextHandle (onCreate w).2)%nat.

(** A staleness predicate that leaves the cache map alone and does not
    move the allocator backwards. *)
Definition keeps_cache (stale : Cached -> M bool) : Prop :=
  forall o w,
    _cacheMap (stale o w).2 = _cacheMap w
    /\ (nextHandle w <= nextHandle (stale o w).2)%nat.

(** The cache holds objects the allocator has handed out, one per key. *)
Definition cache_wf (w : World) : Prop :=
  (forall k c, _cacheMap w !! k = Some c -> (cached_handle c < nextHandle w)%nat)
  /\ (forall k1 k2 c1 c2,
        _cacheMap w !! k1 = Some c1 -> _cacheMap w !! k2 = Some c2 ->
        cached_handle c1 = cached_handle c2 -> k1 = k2).

(** The queue writes of a trace whose data is the array [data], and the
    pipelines a trace binds. *)
Definition writes_of (data : Key) (t : list Event) : list Event :=
  List.filter (fun e => match e with
                        | WriteBuffer _ _ d _ => bool_decide (d = data)
                        | _ => false
                        end) t.

Definition pipelines_set (t : list Event) : list Handle :=
  omap (fun e => match e with SetPipeline p => Some p | _ => None end) t.

(** The events a computation appends to the trace. *)
Definition new_events (w w' : World) : list Event := drop (length (trace w)) (trace w').

(** The application sets the flag of a descriptor between two frames. *)
Definition mark_dirty (k : Key) (w : World) : World :=
  with_needsUpdate (<[k := true]> (needsUpdate w)) w.

(** A computation that leaves the cache map alone and does not move the
    allocator backwards; a creation function that moreover returns an
    object it has allocated; a computation that keeps the cache
    well-formed. *)
Definition quiet {A} (m : M A) : Prop :=
  forall w, _cacheMap (m w).2 = _cacheMap w /\ (nextHandle w <= nextHandle (m w).2)%nat.

Definition creates (m : M Cached) : Prop :=
  forall w,
    _cacheMap (m w).2 = _cacheMap w
    /\ (nextHandle w <= cached_handle (m w).1)%nat
    /\ (cached_handle (m w).1 < nextHandle (m w).2)%nat.

Definition keeps_wf {A} (m : M A) : Prop :=
  forall w, cache_wf w -> cache_wf (m w).2 /\ (nextHandle w <= nextHandle (m w).2)%nat.

(** ** Frames, histories and the calls of a frame *)

Local Close Scope Q_scope.

(** The draw calls, and the calls made while one mesh is set up (resources,
    queue writes and the bindings of the pass encoder). *)
Definition is_draw (e : Event) : bool :=
  match e with
  | Draw _ _ _ | DrawIndexed _ _ _ => true
  | _ => false
  end.

Definition is_setup (e : Event) : bool :=
  match e with
  | CreateTexture _ _ _ _ _ | DestroyTexture _ | CreateView _ _ | CreateBuffer _ _ _ _
  | WriteBuffer _ _ _ _ | CopyExternalImageToTexture _ _ _ | CreateSampler _ _
  | CreateBindGroupLayout _ _ | CreateShaderModule _ _ | CreatePipelineLayout _ _
  | CreateRenderPipeline _ _ | CreateBindGroup _ _ _ | SetPipeline _
  | SetIndexBuffer _ _ | SetVertexBuffer _ _ | SetBindGroup _ _ => true
  | _ => false
  end.

(** A computation that appends to the trace, and appends only calls that
    satisfy [P]. *)
Definition emits {A} (P : Event -> bool) (m : M A) : Prop :=
  forall w, exists es, trace (m w).2 = trace w ++ es /\ forallb P es = true.

(** The state a frame works in: the one it starts in, or the one
    [_resizeSwapchain] leaves when the sample count of the MSAA texture is
    not [samples]. *)
Definition frame_start (w : World) : World :=
  if bool_decide (option_map tex_sampleCount (_msaaTexture w) = Some (samples w))
  then w else (_resizeSwapchain w).2.

(** The calls that open the render pass of a frame. *)
Definition pass_prologue (w : World) : list Event :=
  [CurrentTextureView (nextHandle w);
   CreateCommandEncoder (S (nextHandle w));
   BeginRenderPass (_msaaTextureView w) (Some (nextHandle w)) (_depthTextureView w)
     (autoClear w);
   SetViewport (canvas_width w) (canvas_height w)].

(** [renderer.samples = n] and [renderer.autoClear = b], the two public
    fields an application assigns. *)
Definition with_samples (n : Z) (w : World) : World :=
  {| canvas_width := canvas_width w; canvas_height := canvas_height w;
     format := format w; autoClear := autoClear w; samples := n;
     _msaaTexture := _msaaTexture w; _msaaTextureView := _msaaTextureView w;
     _depthTexture := _depthTexture w; _depthTextureView := _depthTextureView w;
     _cacheMap := _cacheMap w; needsUpdate := needsUpdate w; floats := floats w;
     nextHandle := nextHandle w; trace := trace w |}.

Definition with_autoClear (b : bool) (w : World) : World :=
  {| canvas_width := canvas_width w; canvas_height := canvas_height w;
     format := format w; autoClear := b; samples := samples w;
     _msaaTexture := _msaaTexture w; _msaaTextureView := _msaaTextureView w;
     _depthTexture := _depthTexture w; _depthTextureView := _depthTextureView w;
     _cacheMap := _cacheMap w; needsUpdate := needsUpdate w; floats := floats w;
     nextHandle := nextHandle w; trace := trace w |}.

(** What an application does with a renderer between its construction and
    now: frames, resizes, assignments to [samples] and [autoClear], and
    [needsUpdate = true] on a descriptor. *)
Inductive Op :=
  | OpRender (scene : Object3D) (camera : Camera)
  | OpSetSize (width height : Z)
  | OpSamples (n : Z)
  | OpAutoClear (b : bool)
  | OpNeedsUpdate (k : Key).

Section History.
Variable JSON_stringify : PipelineOption -> string.
Variable Mat4_multiply : Mat4 -> Mat4 -> Mat4.
Variable Mat3_normalFromMat4 : list Q -> Mat4 -> list Q.
Variable Vec3_transformMat4 : Vec3 -> Mat4 -> Vec3.

Definition step (w : World) (op : Op) : World :=
  match op with
  | OpRender scene camera =>
      (render JSON_stringify Mat4_multiply Mat3_normalFromMat4 Vec3_transformMat4
         scene camera w).2
  | OpSetSize width height => (setSize width height w).2
  | OpSamples n => with_samples n w
  | OpAutoClear b => with_autoClear b w
  | OpNeedsUpdate k => mark_dirty k w
  end.

Definition run (ops : list Op) (w : World) : World := foldl step w ops.
End History.

(** The fields of the renderer other than its cache, the allocator and the
    trace: the canvas size, the format, [autoClear], [samples] and the
    render targets with their views. *)
Definition renderer_fields (w : World) :=
  (canvas_width w, canvas_height w, format w, autoClear w, samples w,
   _msaaTexture w, _msaaTextureView w, _depthTexture w, _depthTextureView w).

(** The kind of binding a bind-group entry supplies. *)
Definition resource_kind (r : Resource) : BindingKind :=
  match r with
  | ResBuffer _ => BkBuffer
  | ResView _ => BkTexture
  | ResSampler _ => BkSampler
  end.

(** [mesh.material.uniforms] after the application has assigned to elements
    of the array (as the texture setters of [PBRMaterial] do): the same
    array, with other contents. *)
Definition with_material_uniforms (us : list Uniform) (mesh : Mesh) : Mesh :=
  {| mesh_key := mesh_key mesh;
     matrix := matrix mesh;
     material :=
       {| uniforms_key := uniforms_key (material mesh);
          uniforms := us;
          shaderCode := shaderCode (material mesh);
          transparent := transparent (material mesh);
          cullMode := cullMode (material mesh);
          depthTest := depthTest (material mesh);
          depthWrite := depthWrite (material mesh);
          blending := blending (material mesh) |};
     geometry := geometry mesh |}.

(** A texture binding for concrete runs, and a sample mesh whose material
    has a buffer, a texture and a sampler. *)
Definition ex_texture (k : positive) : Uniform :=
  UTexture (KObj k) {| td_format := None; td_usage := None; td_size := [1; 1]%Z |}
    (Some (KObj (k + 1))).

Definition ex_textured_mesh (texture : positive) : Mesh :=
  with_material_uniforms
    [ex_buffer_uniform 12; ex_texture texture; USampler (KObj 60) "linear"]
    (ex_mesh 1 0%Q true false).

(** The uniforms of [us] that are objects of a cached layout have the
    fields the layout holds for them: since the layout was cached the
    application may have put other objects into the array, it has not
    assigned to the fields of an object the layout holds. *)
Definition objects_as_cached (layout : Cached) (us : list Uniform) : Prop :=
  forall u c,
    In u us -> In c (cached_uniforms layout) -> uniform_key u = uniform_key c -> u = c.

(** ** The getters of the PBR material *)

Module PBRGet.
Import PBR.

(** The getters of [PBRMaterial]. A number read from a [Float32Array] view
    is given by its 32 bits; [albedo] returns the three elements of the
    [_albedo] view. *)
Definition get_albedo (m : PBRMaterial) : list Z :=
  map (fun i => view_get (_albedo m) i (buffers m)) [0; 1; 2]%nat.

Definition get_metallic (m : PBRMaterial) : Z := view_get (_pbrParamsValue m) 0 (buffers m).

Definition get_roughness (m : PBRMaterial) : Z := view_get (_pbrParamsValue m) 1 (buffers m).

Definition get_occlusion (m : PBRMaterial) : Z := view_get (_pbrParamsValue m) 2 (buffers m).

Definition get_albedoTexture (m : PBRMaterial) : option Uniform := uniforms m !! 2%nat.

Definition get_occlusionRoughnessMetallicTexture (m : PBRMaterial) : option Uniform :=
  uniforms m !! 3%nat.

(** [_pbrFlag[0]], the word the shader reads the texture-presence bits
    from. *)
Definition flag_word (m : PBRMaterial) : Z := view_get (_pbrFlag m) 0 (buffers m).

(** What the getters of a material return, all together. *)
Definition observe (m : PBRMaterial) :=
  (get_albedo m, get_metallic m, get_roughness m, get_occlusion m,
   get_albedoTexture m, get_occlusionRoughnessMetallicTexture m).

(** [setBitOfValue] as the material uses it: on a 32-bit word, bit [bit] of
    the result is [on] and the other bits below 32 are those of the word. *)
Definition sets_bit (setBitOfValue : Z -> nat -> bool -> Z) : Prop :=
  forall (value : Z) (bit : nat) (on : bool) (j : nat),
    (0 <= value < 2 ^ 32)%Z -> (bit < 32)%nat -> (j < 32)%nat ->
    Z.testbit (setBitOfValue value bit on) (Z.of_nat j)
    = if decide (j = bit) then on else Z.testbit value (Z.of_nat j).

End PBRGet.

(** The bits of the 32-bit floats of the numbers the sample runs use (0,
    0.5 and 1), and a sample material. *)
Definition ex_float32_bits (q : Q) : Z :=
  if Qeq_bool q 0 then 0%Z
  else if Qeq_bool q (1 # 2) then 1056964608%Z
  else if Qeq_bool q 1 then 1065353216%Z
  else 2143289344%Z.

Definition ex_pbr_material : PBR.PBRMaterial :=
  PBR.constructor ex_float32_bits PBR.setBitOfValue_std (KObj 1)
    {| PBR.opt_albedo := None; PBR.opt_metallic := None; PBR.opt_roughness := Some 1%Q;
       PBR.opt_occlusion := None; PBR.opt_albedoTexture := Some (KObj 4);
       PBR.opt_occlusionRoughnessMetallicTexture := None |}
    (KObj 2) (KObj 3).

(** ** The glTF texture loader: [getTexture] *)

Module GLTF.

(** A promise that has settled: resolved with a value, or rejected with the
    message of the error thrown. *)
Inductive Result (A : Type) :=
  | Resolved (a : A)
  | Rejected (message : string).
Arguments Resolved {A} a.
Arguments Rejected {A} message.

(** An entry of [json.textures] (an object; of its fields [getTexture]
    reads [source]), and the part of the loader context [getTexture] reads:
    the optional [textures] array of the document. *)
Record GLTFTexture := { source : option Z }.

Record LoaderContext := { json_textures : option (list GLTFTexture) }.

(** [context.json.textures?.[textureIndex]] *)
Definition textures_at (context : LoaderContext) (textureIndex : Z) : option GLTFTexture :=
  match json_textures context with
  | Some textures =>
      if (textureIndex <? 0)%Z then None else textures !! Z.to_nat textureIndex
  | None => None
  end.

(** [`image_${json.source}`] *)
Definition image_key (source : Z) : string := "image_" +:+ decimal_Z source.

Section Loader.
(** The cache of the loader context with its [_cached] method, [getImage]
    and [textureFromImageData] are not in the sources; they are parameters.
    A computation of the loader takes the cache and returns the settled
    promise with the cache it leaves. *)
Variables Image Texture Cache : Type.
Variable context_cached :
  string -> (Cache -> Result Image * Cache) -> Cache -> Result Image * Cache.
Variable getImage : Z -> LoaderContext -> Cache -> Result Image * Cache.
Variable textureFromImageData : Image -> Texture.

Definition getTexture (textureIndex : Z) (context : LoaderContext) (c : Cache)
    : Result Texture * Cache :=
  match textures_at context textureIndex with
  | None => (Rejected "gltf texture not found", c)
  | Some json =>
      match source json with
      | None => (Rejected "gltf texture.source is undefined", c)
      | Some s =>
          match context_cached (image_key s) (getImage s context) c with
          | (Resolved image, c') => (Resolved (textureFromImageData image), c')
          | (Rejected message, c') => (Rejected message, c')
          end
      end
  end.
End Loader.

End GLTF.

(** ** Kinds of objects, and the textures alive on the device *)

(** The kind of object behind an identity: the [uniforms] array of a
    material, a buffer binding, a texture binding, a sampler binding, a
    mesh, a vertex buffer or an index buffer. In JavaScript an object has
    one class; with identities as numbers this is stated by a map from keys
    to kinds that every scene agrees with. *)
Inductive Kind :=
  | KindUniforms | KindBuffer | KindTexture | KindSampler
  | KindMesh | KindVertexBuffer | KindIndexBuffer.

Global Instance Kind_eq_dec : EqDecision Kind.
Proof. solve_decision. Defined.

Definition uniform_kind (u : Uniform) : Kind :=
  match u with
  | UBuffer _ _ => KindBuffer
  | UTexture _ _ _ | UExternalTexture _ _ => KindTexture
  | USampler _ _ => KindSampler
  end.

(** The textures created and not destroyed so far. *)
Definition live (w : World) : list Handle := live_textures (trace w) [].

Definition is_texture_event (e : Event) : bool :=
  match e with
  | CreateTexture _ _ _ _ _ | DestroyTexture _ => true
  | _ => false
  end.

(** A Hoare triple on the state monad. *)
Definition hoare {A} (P : World -> Prop) (m : M A) (Q : A -> World -> Prop) : Prop :=
  forall w, P w -> Q (m w).1 (m w).2.

(** A computation that leaves the cache, the renderer's fields and the
    live textures alone and does not move the allocator backwards; and a
    creation function that moreover returns an object it has allocated. *)
Definition calm {A} (m : M A) : Prop :=
  forall w,
    _cacheMap (m w).2 = _cacheMap w
    /\ nextHandle w <= nextHandle (m w).2
    /\ renderer_fields (m w).2 = renderer_fields w
    /\ live (m w).2 = live w.

Definition calm_creator (m : M Cached) : Prop :=
  calm m
  /\ forall w, nextHandle w <= cached_handle (m w).1 < nextHandle (m w).2.

Section Kinds.
Variable kind : Key -> Kind.

Definition uniform_of_kind (u : Uniform) : Prop := kind (uniform_key u) = uniform_kind u.

Definition mesh_of_kind (mesh : Mesh) : Prop :=
  kind (mesh_key mesh) = KindMesh
  /\ kind (uniforms_key (material mesh)) = KindUniforms
  /\ Forall uniform_of_kind (uniforms (material mesh))
  /\ Forall (fun vb => kind (vb_key vb) = KindVertexBuffer) (vertexBuffers (geometry mesh))
  /\ (forall ib, indexBuffer (geometry mesh) = Some ib -> kind (ib_key ib) = KindIndexBuffer).

Definition op_of_kind (op : Op) : Prop :=
  match op with
  | OpRender scene _ => Forall mesh_of_kind (renderList scene)
  | _ => True
  end.

(** The arrays and bindings the renderer allocates itself (the base uniform
    block of a material) are buffers. *)
Definition renderer_keys_of_kind : Prop := forall n, kind (KNew n) = KindBuffer.

(** A texture is referenced by the renderer when it is one of its two
    render targets or the texture cached for a texture binding. *)
Definition referenced (w : World) (h : Handle) : Prop :=
  (exists t, _msaaTexture w = Some t /\ tex_handle t = h)
  \/ (exists t, _depthTexture w = Some t /\ tex_handle t = h)
  \/ (exists k c, kind k = KindTexture /\ _cacheMap w !! k = Some c /\ cached_handle c = h).

(** The state of a renderer that has been constructed: the cache is
    well-formed, both render targets exist, are different, are not cached
    objects, the live textures are the referenced ones, and the uniform
    lists of the cached layouts agree with the kinds. *)
Record good (w : World) : Prop := {
  good_wf : cache_wf w;
  good_targets :
    exists m d,
      _msaaTexture w = Some m /\ _depthTexture w = Some d
      /\ tex_handle m <> tex_handle d
      /\ tex_handle m < nextHandle w /\ tex_handle d < nextHandle w
      /\ forall k c, _cacheMap w !! k = Some c ->
           cached_handle c <> tex_handle m /\ cached_handle c <> tex_handle d;
  good_live : forall h, In h (live w) <-> referenced w h;
  good_layouts : forall k c, _cacheMap w !! k = Some c -> Forall uniform_of_kind (cached_uniforms c)
}.
End Kinds.

(** The kinds of the objects of the sample meshes: mesh [n] has the mesh
    key [10 n], the uniforms array [10 n + 1], the vertex buffer
    [10 n + 4] and the index buffer [10 n + 6]; the sample textures have
    keys 50 and 70 and the sample sampler key 60. *)
Definition ex_kind (k : Key) : Kind :=
  match k with
  | KObj 10 | KObj 20 => KindMesh
  | KObj 11 | KObj 21 => KindUniforms
  | KObj 14 | KObj 24 => KindVertexBuffer
  | KObj 16 | KObj 26 => KindIndexBuffer
  | KObj 50 | KObj 70 => KindTexture
  | KObj 60 => KindSampler
  | _ => KindBuffer
  end.

Definition ex_run (ops : list Op) : World :=
  run JSON_stringify_std Mat4_multiply_std Mat3_normalFromMat4_std Vec3_transformMat4_std
    ops ex_world.

(** A computation that leaves the canvas size, the format, [autoClear],
    [samples] and the render targets alone. *)
Definition keeps_fields {A} (m : M A) : Prop :=
  forall w, renderer_fields (m w).2 = renderer_fields w.

(** The render targets are in line with the canvas: both exist, have the
    size of the canvas and the same sample count. *)
Definition targets_fit (w : World) : Prop :=
  exists m d,
    _msaaTexture w = Some m /\ _depthTexture w = Some d
    /\ tex_size m = [canvas_width w; canvas_height w]
    /\ tex_size d = [canvas_width w; canvas_height w]
    /\ tex_sampleCount d = tex_sampleCount m.

(** ** Steady frames *)

(** The calls a frame makes anyway: the pass and its encoder, the view of
    the current texture, the views and bind groups made for each mesh, the
    queue writes, the bindings and the draw calls. The other calls create,
    destroy or upload a resource that outlives the frame (a buffer, a
    texture, a sampler, a layout, a shader module, a pipeline) or
    reconfigure the context. *)
Definition is_per_frame (e : Event) : bool :=
  match e with
  | CurrentTextureView _ | CreateCommandEncoder _ | BeginRenderPass _ _ _ _
  | SetViewport _ _ | CreateView _ _ | CreateBindGroup _ _ _ | WriteBuffer _ _ _ _
  | SetPipeline _ | SetIndexBuffer _ _ | SetVertexBuffer _ _ | SetBindGroup _ _
  | DrawIndexed _ _ _ | Draw _ _ _ | EndPass | Submit _ => true
  | _ => false
  end.

(** A computation that leaves the cache and [samples] alone and sets no
    [needsUpdate] flag. *)
Definition tame {A} (m : M A) : Prop :=
  forall w,
    _cacheMap (m w).2 = _cacheMap w
    /\ samples (m w).2 = samples w
    /\ forall k, truthy (needsUpdate (m w).2 !! k) = true -> truthy (needsUpdate w !! k) = true.

(** The trace of [w'] is the trace of [w] followed by calls that all
    satisfy [P]. *)
Definition extends_by (P : Event -> bool) (w w' : World) : Prop :=
  exists es, trace w' = trace w ++ es /\ forallb P es = true.

(** A mesh is one object: in a scene, two meshes with the same identity
    are the same mesh. *)
Definition mesh_keys_identify (meshes : list Mesh) : Prop :=
  forall m1 m2, In m1 meshes -> In m2 meshes -> mesh_key m1 = mesh_key m2 -> m1 = m2.

Section Steady.
Variable kind : Key -> Kind.
Variable JSON_stringify : PipelineOption -> string.
Variable meshes : list Mesh.

(** A binding that has been resolved: its object is cached and, for a
    texture or a sampler, its flag is down. *)
Definition settled_uniform (w : World) (u : Uniform) : Prop :=
  is_Some (_cacheMap w !! uniform_key u)
  /\ (uniform_kind u <> KindBuffer -> truthy (needsUpdate w !! uniform_key u) = false).

(** The pipeline cached for a mesh carries the current fingerprint. *)
Definition pipeline_ok (w : World) (mesh : Mesh) : Prop :=
  exists o, _cacheMap w !! mesh_key mesh = Some o
    /\ cached_label o = JSON_stringify (pipelineOption (samples w) mesh).

(** A mesh that has been set up: its layout is cached with all its
    bindings resolved, its pipeline is cached with the current fingerprint,
    and its index and vertex buffers are cached. *)
Definition settled_mesh (w : World) (mesh : Mesh) : Prop :=
  (exists layout, _cacheMap w !! uniforms_key (material mesh) = Some layout
     /\ Forall (settled_uniform w) (cached_uniforms layout))
  /\ pipeline_ok w mesh
  /\ (forall ib, indexBuffer (geometry mesh) = Some ib -> is_Some (_cacheMap w !! ib_key ib))
  /\ Forall (fun vb => is_Some (_cacheMap w !! vb_key vb)) (vertexBuffers (geometry mesh)).

(** How the state moves while the meshes of a scene are set up: cached
    identities stay cached, cached layouts stay as they are, the flags of
    textures and samplers that are down stay down, the pipelines that carry
    the current fingerprint of their mesh stay, and [samples] stays. *)
Definition evolves (w w' : World) : Prop :=
  (forall k, is_Some (_cacheMap w !! k) -> is_Some (_cacheMap w' !! k))
  /\ (forall k c, kind k = KindUniforms -> _cacheMap w !! k = Some c ->
        _cacheMap w' !! k = Some c)
  /\ (forall k, kind k = KindTexture \/ kind k = KindSampler ->
        truthy (needsUpdate w !! k) = false -> truthy (needsUpdate w' !! k) = false)
  /\ (forall mesh, In mesh meshes -> pipeline_ok w mesh -> pipeline_ok w' mesh)
  /\ samples w' = samples w.

(** The renderer has everything the meshes need and its MSAA texture has
    the current sample count. *)
Definition steady (w : World) : Prop :=
  good kind w
  /\ (forall mesh, In mesh meshes -> settled_mesh w mesh)
  /\ option_map tex_sampleCount (_msaaTexture w) = Some (samples w).
End Steady.

(** * Properties *)

Local Open Scope Q_scope.

(** ** Draw calls *)

Lemma Math_min_finite (c l : Q) :
  Math_min (Finite c) (Finite l) = Finite (Qmin c l).
Proof. reflexivity. Qed.

Lemma Qmin_gt (c l : Q) : l < c -> Qmin c l = l.
Proof.
  intros H. unfold Qmin, GenericMinMax.gmin.
  apply Qgt_alt in H. now rewrite H.
Qed.

Lemma Qmin_le (c l : Q) : c <= l -> Qmin c l = c.
Proof.
  intros H. unfold Qmin, GenericMinMax.gmin.
  apply Qle_alt in H. destruct (c ?= l) eqn:E; try reflexivity.
  now destruct H.
Qed.

(** C4. For a node with an index buffer of [L] elements and a draw-range
    count [C], the frame issues one indexed draw whose count is
    [Math.min(C, L)], whose instance count is the geometry's and whose first
    index is [drawRange.start ?? 0]; for a finite [C] that count is the
    smaller of [C] and [L], so it is [L] whenever [C > L] ([Infinity]
    included) and [C] whenever [C <= L]. *)
Theorem draw_indexed_count_clamped (node : Mesh) (ib : IndexBuffer) (w : World) :
  indexBuffer (geometry node) = Some ib ->
  let g := geometry node in
  let L := inject_Z (ta_length (ib_buffer ib)) in
  let count := Math_min (dr_count (drawRange g)) (Finite L) in
  draw_node node w
    = (tt, with_trace
             (trace w ++ [DrawIndexed count (instanceCount g)
                            (default 0 (dr_start (drawRange g)))]) w)
  /\ (forall C, dr_count (drawRange g) = Finite C ->
        count = Finite (Qmin C L)
        /\ (L < C -> count = Finite L)
        /\ (C <= L -> count = Finite C))
  /\ (dr_count (drawRange g) = Infinity -> count = Finite L).
Proof.
  intros Hib g L count. subst count L g. split; [|split].
  - unfold draw_node. rewrite Hib. reflexivity.
  - intros C HC. rewrite HC. cbn [Math_min]. repeat split.
    + intros Hlt. now rewrite Qmin_gt.
    + intros Hle. now rewrite Qmin_le.
  - intros HC. now rewrite HC.
Qed.

(** C4, at a triangle whose draw range asks for more indices than the index
    buffer holds. *)
Lemma draw_indexed_count_clamped_witness :
  let node := {| mesh_key := KObj 10; matrix := Mat4_identity;
                 material := ex_material 11 true false;
                 geometry := ex_geometry 14 true (Finite 7) |} in
  exists ib, indexBuffer (geometry node) = Some ib
  /\ draw_node node ex_world
     = (tt, with_trace (trace ex_world ++ [DrawIndexed (Finite 3) 1 0]) ex_world).
Proof.
  eexists. split; [reflexivity|].
  exact (proj1 (draw_indexed_count_clamped
                  {| mesh_key := KObj 10; matrix := Mat4_identity;
                     material := ex_material 11 true false;
                     geometry := ex_geometry 14 true (Finite 7) |}
                  _ ex_world eq_refl)).
Defined.

(** The count of a non-indexed draw is computed from the element count of
    the first vertex buffer, not from its byte length. *)
Lemma draw_nonindexed_count (node : Mesh) (position : VertexBuffer)
    (rest : list VertexBuffer) (w : World) :
  indexBuffer (geometry node) = None ->
  vertexBuffers (geometry node) = position :: rest ->
  let g := geometry node in
  draw_node node w
    = (tt, with_trace
             (trace w ++ [Draw (Math_min (dr_count (drawRange g))
                                  (div_length (ta_length (vb_buffer position))
                                     (arrayStride (vb_layout position))))
                            (instanceCount g)
                            (Some (default 0 (dr_start (drawRange g))))]) w).
Proof.
  intros Hib Hvb g. subst g. unfold draw_node. now rewrite Hib, Hvb.
Qed.

(** C5. A triangle of three [vec3f] vertices in a [Float32Array] (nine
    elements, 36 bytes, stride 12) with a draw-range count of 3 and no index
    buffer: the specified vertex count is [min(3, 36 / 12) = 3], the issued
    one is [min(3, 9 / 12) = 3/4]. *)
Theorem draw_nonindexed_count_failing_input :
  let node := {| mesh_key := KObj 10; matrix := Mat4_identity;
                 material := ex_material 11 true false;
                 geometry := ex_geometry 14 false (Finite 3) |} in
  let position := ex_vertexBuffer 14 "POSITION" "vec3f" in
  trace (draw_node node ex_world).2
    = trace ex_world ++ [Draw (Finite (9 # 12)) 1 (Some 0)]
  /\ spec_vertex_count (geometry node) position = Finite (3 # 1)
  /\ ~ (9 # 12 == 3 # 1).
Proof.
  cbv zeta. split; [|split].
  - reflexivity.
  - reflexivity.
  - intros H. discriminate H.
Qed.

(** ** Swapchain targets *)

Lemma live_textures_app (t1 t2 : list Event) (live : list Handle) :
  live_textures (t1 ++ t2) live = live_textures t2 (live_textures t1 live).
Proof.
  revert live. induction t1 as [|e t1 IH]; intros live; [reflexivity|].
  destruct e; cbn [live_textures app]; apply IH.
Qed.

Lemma not_in_filter_neq (h : Handle) (l : list Handle) :
  ~ In h (List.filter (fun x => negb (x =? h)%nat) l).
Proof.
  rewrite filter_In. intros [_ H]. now rewrite Nat.eqb_refl in H.
Qed.

Lemma in_filter_neq (h x : Handle) (l : list Handle) :
  In x (List.filter (fun y => negb (y =? h)%nat) l) -> In x l /\ x <> h.
Proof.
  rewrite filter_In. intros [H1 H2]. split; [assumption|].
  intros ->. now rewrite Nat.eqb_refl in H2.
Qed.


Lemma resizeSwapchain_effect (w : World) :
  let w' := (_resizeSwapchain w).2 in
  trace w' = trace w ++ resize_events w
  /\ _msaaTexture w'
     = Some {| tex_handle := nextHandle w;
               tex_size := [canvas_width w; canvas_height w];
               tex_sampleCount := samples w |}
  /\ _depthTexture w'
     = Some {| tex_handle := S (S (nextHandle w));
               tex_size := [canvas_width w; canvas_height w];
               tex_sampleCount := samples w |}
  /\ nextHandle w' = (4 + nextHandle w)%nat
  /\ canvas_width w' = canvas_width w /\ canvas_height w' = canvas_height w
  /\ format w' = format w /\ samples w' = samples w.
Proof.
  unfold resize_events.
  destruct w as [cw ch fmt ac smp msaa mv dep dv cm nu fl nh tr].
  destruct msaa as [m|], dep as [d|]; cbn;
    rewrite <- ?app_assoc; cbn; repeat split; reflexivity.
Qed.

(** C9. Two [setSize] calls with the same width and height leave an MSAA
    texture and a depth texture of that size each time; the second call
    destroys the MSAA texture of the first before it creates its successor
    and the depth texture of the first before it creates its successor, and
    afterwards neither texture of the first call is among the live
    textures. *)
Theorem setSize_twice_same_size_no_leak (w : World) (width height : Z) :
  let w1 := (setSize width height w).2 in
  let w2 := (setSize width height w1).2 in
  exists m1 d1 m2 d2 v2 dv2,
    _msaaTexture w1 = Some m1 /\ _depthTexture w1 = Some d1
    /\ _msaaTexture w2 = Some m2 /\ _depthTexture w2 = Some d2
    /\ tex_size m1 = [width; height] /\ tex_size d1 = [width; height]
    /\ tex_size m2 = [width; height] /\ tex_size d2 = [width; height]
    /\ trace w2
       = trace w1
         ++ [Configure (format w);
             DestroyTexture (tex_handle m1);
             CreateTexture (tex_handle m2) (format w) [width; height] 18 (Some (samples w));
             CreateView v2 (tex_handle m2);
             DestroyTexture (tex_handle d1);
             CreateTexture (tex_handle d2) "depth24plus-stencil8" [width; height] 18
               (Some (samples w));
             CreateView dv2 (tex_handle d2)]
    /\ ~ In (tex_handle m1) (live_textures (trace w2) [])
    /\ ~ In (tex_handle d1) (live_textures (trace w2) [])
    /\ In (tex_handle m2) (live_textures (trace w2) [])
    /\ In (tex_handle d2) (live_textures (trace w2) []).
Proof.
  intros w1 w2.
  pose (wa := with_canvas width height w).
  destruct (resizeSwapchain_effect wa) as (Ht1 & Hm1 & Hd1 & Hn1 & Hcw1 & Hch1 & Hf1 & Hs1).
  change ((_resizeSwapchain wa).2) with w1 in *.
  pose (wb := with_canvas width height w1).
  destruct (resizeSwapchain_effect wb) as (Ht2 & Hm2 & Hd2 & Hn2 & _).
  change ((_resizeSwapchain wb).2) with w2 in *.
  assert (Hwb : trace wb = trace w1 /\ nextHandle wb = nextHandle w1
                /\ _msaaTexture wb = _msaaTexture w1 /\ _depthTexture wb = _depthTexture w1
                /\ format wb = format w /\ samples wb = samples w
                /\ canvas_width wb = width /\ canvas_height wb = height).
  { cbn. rewrite Hf1, Hs1. repeat split; reflexivity. }
  destruct Hwb as (Etr & Enh & Ems & Eds & Efm & Esm & Ecw & Ech).
  unfold resize_events in Ht2.
  rewrite Ems, Eds, Hm1, Hd1, Efm, Esm, Ecw, Ech, Etr, Enh in Ht2.
  rewrite Ecw, Ech, Esm, Enh in Hm2, Hd2.
  cbn [tex_handle app] in Ht2.
  do 6 eexists.
  split; [exact Hm1|]. split; [exact Hd1|].
  split; [exact Hm2|]. split; [exact Hd2|].
  split; [reflexivity|]. split; [reflexivity|].
  split; [reflexivity|]. split; [reflexivity|].
  split; [exact Ht2|].
  rewrite Ht2, live_textures_app. cbn [live_textures tex_handle].
  set (L := live_textures (trace w1) []).
  set (a := nextHandle wa) in *. set (b := nextHandle w1) in *.
  assert (Hab : b = (4 + a)%nat) by exact Hn1.
  repeat split.
  - intros H. apply in_app_or in H as [H|[H|[]]]; [|lia].
    apply in_filter_neq in H as [H _].
    apply in_app_or in H as [H|[H|[]]]; [|lia].
    now apply not_in_filter_neq in H.
  - intros H. apply in_app_or in H as [H|[H|[]]]; [|lia].
    now apply not_in_filter_neq in H.
  - apply in_or_app. left. rewrite filter_In. split.
    + apply in_or_app. right. now left.
    + apply negb_true_iff, Nat.eqb_neq. lia.
  - apply in_or_app. right. now left.
Qed.

(** ** The PBR material *)

Module PBRFacts.
Import PBR.

Section Facts.
Variable float32_bits : Q -> Z.
Variable setBitOfValue : Z -> nat -> bool -> Z.
Variable defaultTexture : Key.

Local Abbreviation apply := (PBR.apply float32_bits setBitOfValue defaultTexture).
Local Abbreviation constructor := (PBR.constructor float32_bits setBitOfValue defaultTexture).
Local Abbreviation reachable := (PBR.reachable float32_bits setBitOfValue defaultTexture).

Ltac pbr_simpl :=
  cbn [PBR.apply PBR.constructor dirty_first set_flag_bit set_param with_buffers
       with_uniforms buffers uniforms _pbrBuffer _albedo _pbrParamsValue _pbrFlag] in *.


Lemma view_set_words (v : View) (i : nat) (x : Z) (h : gmap Key (list Z)) (k : Key) :
  (exists words, h !! k = Some words /\ length words = 8%nat) ->
  exists words, view_set v i x h !! k = Some words /\ length words = 8%nat.
Proof.
  intros (words & Hw & Hl). unfold view_set.
  destruct (i <? view_length v)%nat; [|eauto].
  destruct (decide (view_buffer v = k)) as [->|Hne].
  - rewrite lookup_alter_eq, Hw. cbn. eexists. split; [reflexivity|].
    now rewrite length_insert.
  - rewrite lookup_alter_ne by assumption. eauto.
Qed.

Lemma view_set_flag_word (k : Key) (x : Z) (h : gmap Key (list Z)) :
  (exists words, h !! k = Some words /\ length words = 8%nat) ->
  exists words,
    view_set {| view_buffer := k; view_byteOffset := 24; view_length := 1 |} 0 x h !! k
      = Some words
    /\ length words = 8%nat /\ words !! 6%nat = Some x.
Proof.
  intros (words & Hw & Hl). unfold view_set. cbn.
  rewrite lookup_alter_eq, Hw. cbn. eexists. split; [reflexivity|].
  rewrite length_insert. split; [assumption|].
  apply list_lookup_insert_eq. lia.
Qed.

Lemma inv_constructor options buffer lightValues :
  inv (constructor options buffer lightValues).
Proof.
  constructor; pbr_simpl; eauto.
  repeat apply view_set_words.
  exists (replicate 8 0%Z). split; [apply lookup_singleton_eq | reflexivity].
Qed.

Lemma dirty_first_uniforms (m : PBRMaterial) f rest :
  uniforms m = Buffer (_pbrBuffer m) f :: rest ->
  uniforms (dirty_first m) = Buffer (_pbrBuffer m) (Some true) :: rest.
Proof. intros H. pbr_simpl. now rewrite H. Qed.

Lemma insert_tail_first (us : list Uniform) (i : nat) (u u0 : Uniform) rest :
  us = u0 :: rest -> <[S i := u]> us = u0 :: <[i := u]> rest.
Proof. now intros ->. Qed.

Lemma inv_apply (s : Setter) (m : PBRMaterial) : inv m -> inv (apply s m).
Proof.
  intros [(f & rest & Hu) Hlen Ha Hp Hf Hw].
  destruct s; constructor; pbr_simpl; try assumption;
    rewrite ?Hu; cbn [alter list_alter insert list_insert]; eauto;
    rewrite ?length_alter, ?length_insert; try assumption;
    try (repeat apply view_set_words; assumption).
  all: rewrite Hu in Hlen; cbn [length] in Hlen |- *; try exact Hlen.
  all: rewrite <- Hlen; f_equal; apply length_insert.
Qed.

Lemma reachable_inv (m : PBRMaterial) : reachable m -> inv m.
Proof.
  induction 1; [apply inv_constructor | now apply inv_apply].
Qed.

(** C10. On every material a program can hold, each property setter leaves
    the first uniform binding as the buffer binding of [_pbrBuffer] with
    [needsUpdate = true]; [_pbrBuffer] is a 32-byte buffer, the flag view is
    its word at byte 24, and after a texture setter that word holds the
    texture-presence bit as [setBitOfValue] computed it. *)
Theorem setter_marks_pbr_buffer_dirty (m : PBRMaterial) (s : Setter) :
  reachable m ->
  let m' := apply s m in
  uniforms m' !! 0%nat = Some (Buffer (_pbrBuffer m') (Some true))
  /\ _pbrBuffer m' = _pbrBuffer m
  /\ _pbrFlag m' = {| view_buffer := _pbrBuffer m'; view_byteOffset := 24; view_length := 1 |}
  /\ exists words,
       buffers m' !! _pbrBuffer m' = Some words
       /\ length words = 8%nat
       /\ (forall v, s = albedoTexture v ->
             words !! 6%nat
             = Some (uint32 (setBitOfValue (view_get (_pbrFlag m) 0 (buffers m)) 0
                               (bool_decide (is_Some v)))))
       /\ (forall v, s = occlusionRoughnessMetallicTexture v ->
             words !! 6%nat
             = Some (uint32 (setBitOfValue (view_get (_pbrFlag m) 0 (buffers m)) 1
                               (bool_decide (is_Some v))))).
Proof.
  intros Hr m'. pose proof (reachable_inv m Hr) as Hm.
  pose proof (inv_apply s m Hm) as Hm'. fold m' in Hm'.
  destruct Hm as [(f & rest & Hu) Hlen Ha Hp Hf Hw].
  assert (Hk : _pbrBuffer m' = _pbrBuffer m) by (subst m'; now destruct s).
  split; [|split; [exact Hk|split; [apply (inv_flag _ Hm')|]]].
  - subst m'. destruct s; pbr_simpl; rewrite ?Hu; reflexivity.
  - destruct (inv_words _ Hm') as (ws & Hws & Hl).
    destruct s;
      try (exists ws; repeat split; [exact Hws | exact Hl | discriminate | discriminate]).
    + clear ws Hws Hl. rewrite Hk. subst m'. pbr_simpl. rewrite Hf.
      destruct (view_set_flag_word (_pbrBuffer m)
                  (uint32 (setBitOfValue
                     (view_get {| view_buffer := _pbrBuffer m; view_byteOffset := 24;
                                  view_length := 1 |} 0 (buffers m)) 0
                     (bool_decide (is_Some v)))) _ Hw) as (ws & Hws & Hl & H6).
      exists ws. repeat split; [exact Hws | exact Hl | | discriminate].
      intros v0 [= <-]. exact H6.
    + clear ws Hws Hl. rewrite Hk. subst m'. pbr_simpl. rewrite Hf.
      destruct (view_set_flag_word (_pbrBuffer m)
                  (uint32 (setBitOfValue
                     (view_get {| view_buffer := _pbrBuffer m; view_byteOffset := 24;
                                  view_length := 1 |} 0 (buffers m)) 1
                     (bool_decide (is_Some v)))) _ Hw) as (ws & Hws & Hl & H6).
      exists ws. repeat split; [exact Hws | exact Hl | discriminate | ].
      intros v0 [= <-]. exact H6.
Qed.

End Facts.

(** C10, on a freshly constructed material whose albedo texture is then
    assigned. *)
Lemma setter_marks_pbr_buffer_dirty_witness :
  let m := PBR.constructor (fun _ => 0%Z) setBitOfValue_std (KObj 1)
             {| opt_albedo := None; opt_metallic := None; opt_roughness := None;
                opt_occlusion := None; opt_albedoTexture := None;
                opt_occlusionRoughnessMetallicTexture := None |} (KObj 2) (KObj 3) in
  let m' := PBR.apply (fun _ => 0%Z) setBitOfValue_std (KObj 1) (albedoTexture (Some (KObj 4))) m in
  PBR.reachable (fun _ => 0%Z) setBitOfValue_std (KObj 1) m
  /\ uniforms m !! 0%nat = Some (Buffer (KObj 2) None)
  /\ uniforms m' !! 0%nat = Some (Buffer (KObj 2) (Some true))
  /\ buffers m' !! KObj 2 = Some [0; 0; 0; 0; 0; 0; 1; 0]%Z.
Proof.
  cbv zeta.
  split; [apply reach_new|]. split; [reflexivity|].
  split; [|vm_compute; reflexivity].
  exact (proj1 (setter_marks_pbr_buffer_dirty (fun _ => 0%Z) setBitOfValue_std (KObj 1)
                  _ (albedoTexture (Some (KObj 4))) (reach_new _ _ _ _ _ _))).
Defined.

End PBRFacts.

(** ** Shader patching *)

Local Open Scope string_scope.
Local Open Scope list_scope.

Lemma append_cons (c : ascii) (s t : string) : String c s +:+ t = String c (s +:+ t).
Proof. reflexivity. Qed.

Lemma append_nil_l (s : string) : "" +:+ s = s.
Proof. reflexivity. Qed.

Ltac string_simpl := rewrite ?append_cons, ?append_nil_l in *.

Lemma append_assoc (a b c : string) : (a +:+ b) +:+ c = a +:+ (b +:+ c).
Proof.
  induction a as [|x a IH]; string_simpl; [reflexivity | f_equal; exact IH].
Qed.

Lemma string_drop_append (a r : string) : string_drop (String.length a) (a +:+ r) = r.
Proof. induction a as [|x a IH]; string_simpl; cbn; [reflexivity | exact IH]. Qed.

Lemma strip_prefix_append (p s r : string) : strip_prefix p s = Some r -> s = p +:+ r.
Proof.
  revert s. induction p as [|a p IH]; intros s H; cbn in H; string_simpl.
  - congruence.
  - destruct s as [|b s]; [discriminate|].
    destruct (Ascii.eqb_spec a b) as [->|]; [|discriminate].
    now rewrite (IH _ H).
Qed.

(** What the lazy body of the pattern consumes: the text up to the first
    closing brace, which holds no carriage return. *)
Lemma match_body_spec (s b : string) :
  match_body s = Some b ->
  exists pre rest, b = pre +:+ "}" /\ s = b +:+ rest /\ plain_body pre = true.
Proof.
  revert b. induction s as [|c s IH]; intros b H; cbn in H; [discriminate|].
  destruct (Ascii.eqb_spec c "}"%char) as [->|Hc].
  - injection H as <-. exists "", s. repeat split.
  - destruct (negb (is_line_terminator c) || Ascii.eqb c "010"%char) eqn:Hl; [|discriminate].
    destruct (match_body s) as [b'|]; [|discriminate].
    injection H as <-. destruct (IH _ eq_refl) as (pre & rest & -> & -> & Hp).
    exists (String c pre), rest. repeat split. cbn [plain_body].
    rewrite Hp, andb_true_r. apply andb_true_intro. split.
    + apply negb_true_iff. now apply Ascii.eqb_neq.
    + unfold is_line_terminator in Hl.
      destruct (Ascii.eqb c "010"%char) eqn:E10, (Ascii.eqb c "013"%char) eqn:E13;
        try reflexivity; try discriminate.
      apply Ascii.eqb_eq in E10, E13. congruence.
Qed.

Lemma match_VertexInput_spec (code old : string) :
  match_VertexInput code = Some old ->
  exists pre rest,
    old = struct_header +:+ pre +:+ "}" /\ code = old +:+ rest /\ plain_body pre = true.
Proof.
  unfold match_VertexInput. intros H.
  destruct (strip_prefix struct_header code) as [r|] eqn:Hs; [|discriminate].
  destruct (match_body r) as [b|] eqn:Hb; [|discriminate].
  injection H as <-.
  apply strip_prefix_append in Hs.
  destruct (match_body_spec _ _ Hb) as (pre & rest & -> & Hr & Hp).
  exists pre, rest. repeat split; [|assumption].
  rewrite Hs, Hr. symmetry. apply append_assoc.
Qed.

Lemma has_dollar_append (a b : string) :
  has_dollar (a +:+ b) = has_dollar a || has_dollar b.
Proof.
  induction a as [|c a IH]; string_simpl; cbn [has_dollar]; [reflexivity|].
  now rewrite IH, orb_assoc.
Qed.

Lemma getSubstitution_plain (matched before after t : string) :
  has_dollar t = false -> getSubstitution matched before after t = t.
Proof.
  induction t as [|c t IH]; cbn; [reflexivity|]. intros H.
  apply orb_false_elim in H as [Hc Ht]. rewrite Hc. now rewrite IH.
Qed.

Lemma has_dollar_digits (u : Decimal.uint) :
  has_dollar (NilEmpty.string_of_uint u) = false.
Proof. induction u; cbn; auto. Qed.

Lemma has_dollar_decimal (n : nat) : has_dollar (decimal n) = false.
Proof.
  unfold decimal, NilZero.string_of_uint.
  destruct (Nat.to_uint n) eqn:E; try (rewrite <- E; apply has_dollar_digits).
  reflexivity.
Qed.

Lemma has_dollar_join (sep : string) (l : list string) :
  has_dollar sep = false -> Forall (fun s => has_dollar s = false) l ->
  has_dollar (join sep l) = false.
Proof.
  intros Hsep. induction 1 as [|s l Hs Hl IH]; [reflexivity|].
  destruct l as [|s' l']; [exact Hs|].
  change (join sep (s :: s' :: l')) with (s +:+ sep +:+ join sep (s' :: l')).
  now rewrite !has_dollar_append, Hs, Hsep, IH.
Qed.

Lemma existsb_eqb_elem (x : string) (l : list string) :
  existsb (String.eqb x) l = bool_decide (x ∈ l).
Proof.
  induction l as [|y l IH]; cbn.
  - symmetry. apply bool_decide_eq_false. apply not_elem_of_nil.
  - rewrite IH. destruct (String.eqb_spec x y) as [->|Hne]; cbn.
    + symmetry. apply bool_decide_eq_true. apply elem_of_cons. now left.
    + apply bool_decide_ext. rewrite elem_of_cons. tauto.
Qed.

(** The filter of the code keeps the attributes the specification names. *)
Lemma is_builtin_recognised (v : VertexBuffer) :
  is_builtin v
  = match vb_attribute v with
    | Some a => bool_decide (attr_name a ∈ builtinAttributeNames)
    | None => false
    end.
Proof.
  unfold is_builtin. destruct (vb_attribute v) as [a|]; [|reflexivity].
  rewrite existsb_eqb_elem.
  destruct (String.eqb_spec (attr_name a) "") as [->|]; [reflexivity|].
  reflexivity.
Qed.

Lemma members_spec (n : nat) (vbs : list VertexBuffer) :
  imap (fun i => member_line (n + i)) (List.filter is_builtin vbs)
  = spec_members n (recognised vbs).
Proof.
  revert n. induction vbs as [|v vbs IH]; intros n; [reflexivity|].
  cbn [List.filter recognised omap list_omap]. rewrite is_builtin_recognised.
  unfold member_line at 1.
  destruct (vb_attribute v) as [a|] eqn:Ha.
  - destruct (bool_decide (attr_name a ∈ builtinAttributeNames)).
    + cbn [spec_members]. rewrite imap_cons. f_equal.
      * unfold member_line. rewrite Ha, Nat.add_0_r. reflexivity.
      * rewrite <- IH. apply imap_ext. intros i x _. cbn. now rewrite Nat.add_succ_r.
    + apply IH.
  - apply IH.
Qed.

Lemma vertexInputStr_spec (vbs : list VertexBuffer) :
  vertexInputStr vbs = join ("," +:+ nl) (spec_members 0 (recognised vbs)).
Proof. unfold vertexInputStr. f_equal. apply (members_spec 0). Qed.

Lemma vertexInputStr_empty (vbs : list VertexBuffer) :
  String.eqb (vertexInputStr vbs) "" = bool_decide (recognised vbs = []).
Proof.
  rewrite vertexInputStr_spec. destruct (recognised vbs) as [|a l]; [reflexivity|].
  cbn [spec_members]. destruct (spec_members 1 l); reflexivity.
Qed.

Lemma has_dollar_members (n : nat) (attrs : list VertexAttribute) :
  Forall (fun a => has_dollar (attr_name a) = false /\ has_dollar (attr_type a) = false) attrs ->
  Forall (fun s => has_dollar s = false) (spec_members n attrs).
Proof.
  intros H. revert n. induction H as [|a l [Hn Ht] Hl IH]; intros n; constructor; [|apply IH].
  now rewrite !has_dollar_append, has_dollar_decimal, Hn, Ht.
Qed.

Lemma recognised_names (vbs : list VertexBuffer) :
  Forall (fun a => attr_name a ∈ builtinAttributeNames) (recognised vbs).
Proof.
  induction vbs as [|v vbs IH]; [constructor|].
  cbn [recognised omap list_omap]. destruct (vb_attribute v) as [a|]; [|exact IH].
  destruct (bool_decide_reflect (attr_name a ∈ builtinAttributeNames)); [|exact IH].
  constructor; assumption.
Qed.

Lemma builtin_no_dollar (s : string) :
  s ∈ builtinAttributeNames -> has_dollar s = false.
Proof.
  unfold builtinAttributeNames. rewrite !elem_of_cons, elem_of_nil.
  intros [->|[->|[->|[->|[]]]]]; reflexivity.
Qed.

Lemma has_dollar_spec_struct (vbs : list VertexBuffer) :
  Forall (fun a => has_dollar (attr_type a) = false) (recognised vbs) ->
  has_dollar (spec_struct vbs) = false.
Proof.
  intros H. unfold spec_struct.
  rewrite !has_dollar_append, has_dollar_join; [reflexivity|reflexivity|].
  apply has_dollar_members.
  pose proof (recognised_names vbs) as Hn.
  induction H; inversion Hn; subst; constructor; auto using builtin_no_dollar.
Qed.

Lemma strip_prefix_complete (p r : string) : strip_prefix p (p +:+ r) = Some r.
Proof.
  induction p as [|a p IH]; string_simpl; cbn [strip_prefix]; [reflexivity|].
  now rewrite Ascii.eqb_refl.
Qed.

(** The lazy body of the pattern stops at the first closing brace after a
    text without closing brace and without carriage return. *)
Lemma match_body_complete (pre rest : string) :
  plain_body pre = true -> match_body (pre +:+ "}" +:+ rest) = Some (pre +:+ "}").
Proof.
  induction pre as [|c pre IH]; string_simpl; cbn [plain_body match_body]; intros H.
  - reflexivity.
  - apply andb_prop in H as [H Hp]. apply andb_prop in H as [Hb Hr].
    apply negb_true_iff in Hb, Hr. rewrite Hb. unfold is_line_terminator. rewrite Hr.
    rewrite orb_false_r, orb_comm, orb_negb_r. now rewrite (IH Hp).
Qed.

(** The pattern matches every source that begins with a declaration of the
    form it describes, and matches that declaration. *)
Lemma match_VertexInput_complete (pre rest : string) :
  plain_body pre = true ->
  match_VertexInput (struct_header +:+ pre +:+ "}" +:+ rest)
  = Some (struct_header +:+ pre +:+ "}").
Proof.
  intros H. unfold match_VertexInput.
  rewrite strip_prefix_complete, (match_body_complete _ _ H). reflexivity.
Qed.

(** C8, as amended. When no declared attribute has a recognised name the
    source is left as it is. Otherwise the struct with one member per
    recognised attribute, numbered in order, is spliced in. If the source
    begins with [struct VertexInput {], a line feed, a text without closing
    brace and without carriage return, and a closing brace, that leading
    declaration is replaced by the struct read as a replacement template,
    which is the struct itself when no attribute type holds a dollar sign.
    If the source does not begin that way, the struct and a line feed are
    prepended to it. *)
Theorem patch_shader_splices_recognised (code : string) (vbs : list VertexBuffer) :
  (recognised vbs = [] -> patch_shader code vbs = code)
  /\ (recognised vbs <> [] ->
      (forall pre rest,
         plain_body pre = true ->
         code = struct_header +:+ pre +:+ "}" +:+ rest ->
         patch_shader code vbs
         = getSubstitution (struct_header +:+ pre +:+ "}") "" rest (spec_struct vbs) +:+ rest
         /\ (Forall (fun a => has_dollar (attr_type a) = false) (recognised vbs) ->
             patch_shader code vbs = spec_struct vbs +:+ rest))
      /\ ((forall pre rest,
             plain_body pre = true -> code <> struct_header +:+ pre +:+ "}" +:+ rest) ->
          patch_shader code vbs = spec_struct vbs +:+ nl +:+ code)).
Proof.
  unfold patch_shader. rewrite vertexInputStr_empty. split.
  - intros H. now rewrite bool_decide_eq_true_2.
  - intros H. rewrite bool_decide_eq_false_2 by assumption.
    rewrite vertexInputStr_spec. fold (spec_struct vbs). split.
    + intros pre rest Hp ->. rewrite (match_VertexInput_complete _ _ Hp).
      set (old := struct_header +:+ pre +:+ "}").
      assert (Hc : struct_header +:+ pre +:+ "}" +:+ rest = old +:+ rest).
      { unfold old. now rewrite !append_assoc. }
      assert (Hlen : (String.length old =? 0)%nat = false) by reflexivity.
      rewrite Hlen. unfold replace_prefix. rewrite Hc, string_drop_append.
      split; [reflexivity|].
      intros Hd. rewrite getSubstitution_plain; [reflexivity|].
      now apply has_dollar_spec_struct.
    + intros Hno. destruct (match_VertexInput code) as [old|] eqn:Hm.
      * destruct (match_VertexInput_spec _ _ Hm) as (pre & rest & Ho & Hc & Hp).
        exfalso. apply (Hno pre rest Hp). rewrite Hc, Ho. now rewrite !append_assoc.
      * unfold spec_struct. now rewrite !append_assoc.
Qed.

(** C8 as amended, on three attributes of which [COLOR] is not recognised:
    the struct that leads the source is replaced by the generated one, and
    a source that does not begin with a struct gets it prepended. *)
Lemma patch_shader_splices_recognised_witness :
  recognised ex_attributes <> []
  /\ plain_body ("  @location(0) POSITION: vec3f" +:+ nl) = true
  /\ patch_shader ex_struct_source ex_attributes
     = "struct VertexInput {" +:+ nl +:+ "  @location(0) POSITION: vec3f," +:+ nl
       +:+ "  @location(1) NORMAL: vec3f" +:+ nl +:+ "}" +:+ nl +:+ "fn vs_main() {}"
  /\ patch_shader "fn vs_main() {}" ex_attributes
     = "struct VertexInput {" +:+ nl +:+ "  @location(0) POSITION: vec3f," +:+ nl
       +:+ "  @location(1) NORMAL: vec3f" +:+ nl +:+ "}" +:+ nl +:+ "fn vs_main() {}".
Proof.
  split; [discriminate|]. split; [reflexivity|]. split.
  - destruct (proj2 (patch_shader_splices_recognised ex_struct_source ex_attributes)
                ltac:(discriminate)) as [Hreplace _].
    destruct (Hreplace ("  @location(0) POSITION: vec3f" +:+ nl) (nl +:+ "fn vs_main() {}")
                eq_refl eq_refl) as [_ Hplain].
    apply Hplain. repeat constructor.
  - destruct (proj2 (patch_shader_splices_recognised "fn vs_main() {}" ex_attributes)
                ltac:(discriminate)) as [_ Hprepend].
    apply Hprepend. intros pre rest _. discriminate.
Defined.

(** C8 as stated fails in four ways. With no recognised attribute nothing
    is spliced in, and a vertex-input struct in the source stays, members
    included. A struct the source declares is not replaced, and a second
    declaration is prepended, when it does not lead the source (here after
    a comment line), when its opening brace is not followed by a line feed
    (here a declaration on one line, and a source with CR LF line ends)
    and when a carriage return stands before its closing brace (here one
    member line ending in CR LF). And the
    struct that replaces a leading declaration is not the struct of the
    declared attributes when an attribute type holds a dollar pattern:
    [$&] is expanded to the declaration that is replaced. *)
Lemma patch_shader_no_attribute_counterexample :
  (recognised [] = []
   /\ match_VertexInput ex_struct_source
      = Some ("struct VertexInput {" +:+ nl +:+ "  @location(0) POSITION: vec3f" +:+ nl +:+ "}")
   /\ patch_shader ex_struct_source [] = ex_struct_source
   /\ patch_shader ex_struct_source []
      <> spec_struct [] +:+ nl +:+ "fn vs_main() {}"
   /\ patch_shader "fn vs_main() {}" [] <> spec_struct [] +:+ nl +:+ "fn vs_main() {}")
  /\ (recognised ex_attributes <> []
      /\ patch_shader ex_commented_source ex_attributes
         = spec_struct ex_attributes +:+ nl +:+ ex_commented_source
      /\ patch_shader ex_one_line_source ex_attributes
         = spec_struct ex_attributes +:+ nl +:+ ex_one_line_source
      /\ patch_shader ex_crlf_source ex_attributes
         = spec_struct ex_attributes +:+ nl +:+ ex_crlf_source
      /\ patch_shader ex_cr_body_source ex_attributes
         = spec_struct ex_attributes +:+ nl +:+ ex_cr_body_source)
  /\ (recognised ex_dollar_attributes <> []
      /\ patch_shader ex_struct_source ex_dollar_attributes
         = "struct VertexInput {" +:+ nl +:+ "  @location(0) POSITION: "
           +:+ ("struct VertexInput {" +:+ nl +:+ "  @location(0) POSITION: vec3f" +:+ nl +:+ "}")
           +:+ nl +:+ "}" +:+ nl +:+ "fn vs_main() {}"
      /\ patch_shader ex_struct_source ex_dollar_attributes
         <> spec_struct ex_dollar_attributes +:+ nl +:+ "fn vs_main() {}").
Proof.
  repeat split; try reflexivity; discriminate.
Qed.

(** ** The base uniform block *)

Lemma subarray_set_S (s n : nat) (src bo : list Q) :
  subarray_set s (S n) src bo = subarray_set s n src (<[(s + n)%nat := at_ src n]> bo).
Proof. unfold subarray_set. now rewrite seq_S, foldr_app. Qed.

Lemma length_subarray_set (s n : nat) (src bo : list Q) :
  length (subarray_set s n src bo) = length bo.
Proof.
  revert bo. induction n as [|n IH]; intros bo; [reflexivity|].
  now rewrite subarray_set_S, IH, length_insert.
Qed.

Lemma lookup_subarray_set (s n : nat) (src bo : list Q) (j : nat) :
  subarray_set s n src bo !! j
  = if decide (s <= j < s + n /\ j < length bo)%nat then Some (at_ src (j - s)) else bo !! j.
Proof.
  revert bo. induction n as [|n IH]; intros bo.
  - cbn. destruct (decide _) as [H|H]; [lia|reflexivity].
  - rewrite subarray_set_S, IH, length_insert, list_lookup_insert.
    repeat destruct (decide _); try lia; try reflexivity.
    all: try (do 2 f_equal; lia).
Qed.

Lemma lookup_subarray (a b : nat) (l : list Q) (i : nat) :
  subarray a b l !! i = if decide (i < b - a)%nat then l !! (a + i)%nat else None.
Proof.
  unfold subarray. rewrite lookup_take. destruct (decide _); [|reflexivity].
  apply lookup_drop.
Qed.

(** Reading back the range that was written gives the source. *)
Lemma subarray_set_same (s e n : nat) (src bo : list Q) :
  (e <= length bo)%nat -> length src = n -> e = (s + n)%nat ->
  subarray s e (subarray_set s n src bo) = src.
Proof.
  intros Hb Hs ->. apply list_eq. intros i.
  rewrite lookup_subarray. destruct (decide _) as [Hi|Hi].
  - rewrite lookup_subarray_set. destruct (decide _) as [_|Hn]; [|lia].
    replace (s + i - s)%nat with i by lia.
    destruct (lookup_lt_is_Some_2 src i ltac:(lia)) as [x Hx].
    rewrite Hx. f_equal. unfold at_. now apply nth_lookup_Some.
  - symmetry. apply lookup_ge_None. lia.
Qed.

(** A range that does not meet the written one is unchanged. *)
Lemma subarray_set_other (a b s n : nat) (src bo : list Q) :
  (b <= s \/ s + n <= a)%nat ->
  subarray a b (subarray_set s n src bo) = subarray a b bo.
Proof.
  intros H. apply list_eq. intros i. rewrite !lookup_subarray.
  destruct (decide _) as [Hi|Hi]; [|reflexivity].
  rewrite lookup_subarray_set. destruct (decide _); [lia|reflexivity].
Qed.

Section BaseBlock.
Variable Mat4_multiply : Mat4 -> Mat4 -> Mat4.
Variable Mat3_normalFromMat4 : list Q -> Mat4 -> list Q.
Variable Mat4_invert : Mat4 -> Mat4.

Local Abbreviation wbase := (write_base Mat4_multiply Mat3_normalFromMat4).
Local Abbreviation usetup := (uniform_setup Mat4_multiply Mat3_normalFromMat4).

Ltac sub_other :=
  rewrite subarray_set_other by (rewrite ?length_subarray_set; lia).

Ltac sub_same n :=
  rewrite (subarray_set_same _ _ n) by (rewrite ?length_subarray_set; cbn [length]; lia).

(** The layout of the block after [write_base]. *)
Lemma write_base_layout (mesh : Mesh) (camera : Camera) (bo : list Q) :
  let mv := Mat4_multiply (viewMatrix camera) (matrix mesh) in
  length bo = 80%nat ->
  length (matrix mesh) = 16%nat ->
  length (viewMatrix camera) = 16%nat ->
  length (projectionMatrix camera) = 16%nat ->
  length mv = 16%nat ->
  length (Mat3_normalFromMat4 (subarray 64 73 bo) mv) = 9%nat ->
  let bo' := wbase mesh camera bo in
  length bo' = 80%nat
  /\ subarray 0 16 bo' = matrix mesh
  /\ subarray 16 32 bo' = viewMatrix camera
  /\ subarray 32 48 bo' = projectionMatrix camera
  /\ subarray 48 64 bo' = mv
  /\ subarray 64 73 bo' = Mat3_normalFromMat4 (subarray 64 73 bo) mv
  /\ subarray 76 79 bo'
     = [vx (position camera); vy (position camera); vz (position camera)]
  /\ subarray 73 76 bo' = subarray 73 76 bo
  /\ subarray 79 80 bo' = subarray 79 80 bo.
Proof.
  intros mv Hbo Hm Hv Hp Hmv Hn bo'. subst bo'. unfold write_base.
  set (b1 := subarray_set 0 16 (matrix mesh) bo).
  set (b2 := subarray_set 16 16 (viewMatrix camera) b1).
  set (b3 := subarray_set 32 16 (projectionMatrix camera) b2).
  assert (L1 : length b1 = 80%nat) by (subst b1; now rewrite length_subarray_set).
  assert (L2 : length b2 = 80%nat) by (subst b2; now rewrite length_subarray_set).
  assert (L3 : length b3 = 80%nat) by (subst b3; now rewrite length_subarray_set).
  assert (E1 : subarray 0 16 b3 = matrix mesh).
  { subst b3 b2 b1. do 2 sub_other. now sub_same 16%nat. }
  assert (E2 : subarray 16 32 b3 = viewMatrix camera).
  { subst b3 b2. sub_other. now sub_same 16%nat. }
  assert (E3 : subarray 32 48 b3 = projectionMatrix camera).
  { subst b3. now sub_same 16%nat. }
  assert (E6 : subarray 64 73 b3 = subarray 64 73 bo).
  { subst b3 b2 b1. now do 3 sub_other. }
  rewrite E2.
  set (b4 := subarray_set 48 16 (viewMatrix camera) b3).
  assert (L4 : length b4 = 80%nat) by (subst b4; now rewrite length_subarray_set).
  assert (E4 : subarray 48 64 b4 = viewMatrix camera).
  { subst b4. now sub_same 16%nat. }
  assert (E1' : subarray 0 16 b4 = matrix mesh).
  { subst b4. now sub_other. }
  rewrite E4, E1'. fold mv.
  set (b5 := subarray_set 48 16 mv b4).
  assert (L5 : length b5 = 80%nat) by (subst b5; now rewrite length_subarray_set).
  assert (E5 : subarray 48 64 b5 = mv).
  { subst b5. now sub_same 16%nat. }
  assert (E6' : subarray 64 73 b5 = subarray 64 73 bo).
  { subst b5 b4. now do 2 sub_other. }
  rewrite E5, E6'.
  set (b6 := subarray_set 64 9 (Mat3_normalFromMat4 (subarray 64 73 bo) mv) b5).
  assert (L6 : length b6 = 80%nat) by (subst b6; now rewrite length_subarray_set).
  split; [now rewrite length_subarray_set|].
  split; [subst b6 b5 b4; do 4 sub_other; exact E1|].
  split; [subst b6 b5 b4; do 4 sub_other; exact E2|].
  split; [subst b6 b5 b4; do 4 sub_other; exact E3|].
  split; [subst b6; do 2 sub_other; exact E5|].
  split; [sub_other; subst b6; now sub_same 9%nat|].
  split; [now sub_same 3%nat|].
  split; subst b6 b5 b4 b3 b2 b1; now do 7 sub_other.
Qed.

Lemma length_subarray (a b : nat) (l : list Q) :
  (b <= length l)%nat -> length (subarray a b l) = (b - a)%nat.
Proof. intros H. unfold subarray. rewrite length_take, length_drop. lia. Qed.

(** C7. With the view matrix kept by the camera effect (the inverse of the
    camera's matrix), [uniform_setup] leaves the 80-float base block of the
    material with the model matrix at floats 0-15, the view matrix at 16-31,
    the projection matrix at 32-47, the product view x model at 48-63, the
    normal matrix of that product at 64-72 and the camera position at
    76-78, and the flag of the base buffer binding set; the state is again
    one in which the block can be rewritten, so this holds at every frame. *)
Theorem base_uniform_block_rewritten (mesh : Mesh) (c : Camera) (w : World) :
  let camera := Camera_viewMatrix_effect Mat4_invert c in
  let view := Mat4_invert (cam_matrix c) in
  let mv := Mat4_multiply view (matrix mesh) in
  length (matrix mesh) = 16%nat ->
  length view = 16%nat ->
  length (projectionMatrix c) = 16%nat ->
  length mv = 16%nat ->
  (forall out, length out = 9%nat -> length (Mat3_normalFromMat4 out mv) = 9%nat) ->
  base_block_ready mesh w ->
  exists kb ta rest bgl old bo w',
    usetup mesh camera w = (CLayout (UBuffer kb (SrcTyped ta) :: rest) bgl, w')
    /\ floats w' !! ta_key ta = Some bo
    /\ length bo = 80%nat
    /\ subarray 0 16 bo = matrix mesh
    /\ subarray 16 32 bo = view
    /\ subarray 32 48 bo = projectionMatrix c
    /\ subarray 48 64 bo = mv
    /\ subarray 64 73 bo = Mat3_normalFromMat4 old mv
    /\ subarray 76 79 bo = [vx (position c); vy (position c); vz (position c)]
    /\ needsUpdate w' !! kb = Some true
    /\ base_block_ready mesh w'.
Proof.
  intros camera view mv Hm Hv Hp Hmv Hn Hready.
  unfold base_block_ready in Hready.
  destruct (_cacheMap w !! uniforms_key (material mesh)) as [cached|] eqn:Hc.
  - destruct Hready as (kb & ta & rest & bgl & bo & -> & Hbo & Hlen).
    destruct (write_base_layout mesh camera bo Hlen Hm Hv Hp Hmv
                (Hn _ (length_subarray 64 73 bo ltac:(lia))))
      as (L & E1 & E2 & E3 & E4 & E5 & E6 & _).
    exists kb, ta, rest, bgl, (subarray 64 73 bo), (wbase mesh camera bo).
    eexists. split.
    { unfold uniform_setup, _cached, weakCached, bind, get, ret.
      rewrite Hc. cbn [cached_uniforms update_base]. unfold bind, get, set_floats, set_needsUpdate.
      rewrite Hbo. cbn [default]. reflexivity. }
    cbn [floats needsUpdate _cacheMap with_needsUpdate with_floats].
    rewrite !lookup_insert_eq.
    repeat split; try assumption.
    unfold base_block_ready. cbn [floats needsUpdate _cacheMap with_needsUpdate with_floats].
    rewrite Hc. exists kb, ta, rest, bgl, (wbase mesh camera bo).
    rewrite lookup_insert_eq. auto.
  - clear Hready.
    pose (bo := replicate 80 0%Q).
    assert (Hlen : length bo = 80%nat) by reflexivity.
    destruct (write_base_layout mesh camera bo Hlen Hm Hv Hp Hmv
                (Hn _ (length_subarray 64 73 bo ltac:(lia))))
      as (L & E1 & E2 & E3 & E4 & E5 & E6 & _).
    exists (KNew (S (nextHandle w))),
      {| ta_key := KNew (nextHandle w); BYTES_PER_ELEMENT := 4; ta_length := 80;
         ta_byteOffset := 0 |},
      (uniforms (material mesh)), (S (S (nextHandle w))),
      (subarray 64 73 bo), (wbase mesh camera bo).
    eexists. split.
    { unfold uniform_setup, _cached, weakCached, bind, get, ret.
      rewrite Hc. unfold create_layout, bind, allocate, set_floats, emit, ret.
      cbn [nextHandle with_nextHandle with_floats with_trace with_cacheMap floats
           cached_uniforms update_base].
      unfold bind, get, set_floats, set_needsUpdate.
      cbn [nextHandle with_nextHandle with_floats with_trace with_cacheMap floats ta_key].
      rewrite lookup_insert_eq. cbn [default]. reflexivity. }
    cbn [floats needsUpdate _cacheMap with_needsUpdate with_floats with_cacheMap
         with_trace with_nextHandle ta_key].
    rewrite !lookup_insert_eq.
    repeat split; try assumption.
    unfold base_block_ready.
    cbn [floats needsUpdate _cacheMap with_needsUpdate with_floats with_cacheMap
         with_trace with_nextHandle ta_key].
    rewrite lookup_insert_eq.
    do 5 eexists. split; [reflexivity|].
    cbn [ta_key]. rewrite lookup_insert_eq. auto.
Qed.
End BaseBlock.

(** C7, on the first frame of a mesh translated to [z = -3] under the sample
    camera. *)
Lemma base_uniform_block_rewritten_witness :
  let mesh := ex_mesh 1 (-3) true false in
  let c := ex_camera in
  exists w' bo,
    (uniform_setup Mat4_multiply_std Mat3_normalFromMat4_std mesh
       (Camera_viewMatrix_effect Mat4_invert_std c) ex_world).2 = w'
    /\ floats w' !! KNew 4 = Some bo
    /\ subarray 48 64 bo
       = Mat4_multiply_std (Mat4_invert_std (cam_matrix c)) (matrix mesh)
    /\ subarray 48 64 bo = ex_translation 0 0 (-8)
    /\ needsUpdate w' !! KNew 5 = Some true.
Proof.
  intros mesh c.
  destruct (base_uniform_block_rewritten Mat4_multiply_std Mat3_normalFromMat4_std
              Mat4_invert_std mesh c ex_world
              eq_refl eq_refl eq_refl eq_refl (fun out _ => eq_refl) I)
    as (kb & ta & rest & bgl & old & bo & w' & Hrun & Hbo & _ & _ & _ & _ & Hmv & _ & _ & Hflag & _).
  exists w', bo.
  assert (Hk : kb = KNew 5 /\ ta_key ta = KNew 4).
  { vm_compute in Hrun. injection Hrun as Hkb Hta _ _ _. subst kb ta. split; reflexivity. }
  destruct Hk as [-> Hta]. rewrite Hta in Hbo.
  split; [now rewrite Hrun|]. split; [exact Hbo|]. split; [exact Hmv|].
  split; [rewrite Hmv; vm_compute; reflexivity|exact Hflag].
Defined.

(** ** Draw order *)

Local Open Scope Q_scope.

Section ArraySort.
Context {A : Type}.
Variable cmp : A -> A -> Q.

Lemma sort_insert_perm (x : A) (l : list A) : Permutation (x :: l) (sort_insert cmp x l).
Proof.
  induction l as [|y l IH]; cbn; [reflexivity|].
  destruct (Qle_bool (cmp x y) 0); [reflexivity|].
  rewrite perm_swap. now apply perm_skip.
Qed.

Lemma Array_sort_perm (l : list A) : Permutation l (Array_sort cmp l).
Proof.
  induction l as [|x l IH]; cbn; [reflexivity|].
  etransitivity; [apply perm_skip, IH | apply sort_insert_perm].
Qed.

Hypothesis cmp_total : forall a b, cmp a b <= 0 \/ cmp b a <= 0.
Hypothesis cmp_trans : forall a b c, cmp a b <= 0 -> cmp b c <= 0 -> cmp a c <= 0.

Lemma sort_insert_sorted (x : A) (l : list A) :
  StronglySorted (cmp_le cmp) l -> StronglySorted (cmp_le cmp) (sort_insert cmp x l).
Proof.
  induction 1 as [|y l Hs IH Hy]; cbn.
  - repeat constructor.
  - destruct (Qle_bool (cmp x y) 0) eqn:E.
    + apply Qle_bool_iff in E. constructor; [now constructor|].
      constructor; [exact E|].
      eapply Forall_impl; [exact Hy|]. intros z Hz. exact (cmp_trans _ _ _ E Hz).
    + assert (Hyx : cmp y x <= 0).
      { destruct (cmp_total x y) as [H|H]; [|exact H].
        apply Qle_bool_iff in H. congruence. }
      constructor; [exact IH|].
      apply (Permutation_Forall (sort_insert_perm x l)). now constructor.
Qed.

Lemma Array_sort_sorted (l : list A) : StronglySorted (cmp_le cmp) (Array_sort cmp l).
Proof.
  induction l as [|x l IH]; cbn; [constructor | now apply sort_insert_sorted].
Qed.

(** The elements that compare equal to [k] keep their relative order. *)
Variable same : A -> A -> bool.
Hypothesis same_cmp : forall k x y, same k x = true -> same k y = true -> cmp x y <= 0.

Lemma sort_insert_stable (k x : A) (l : list A) :
  List.filter (same k) (sort_insert cmp x l) = List.filter (same k) (x :: l).
Proof.
  induction l as [|y l IH]; [reflexivity|].
  cbn [sort_insert]. destruct (Qle_bool (cmp x y) 0) eqn:E; [reflexivity|].
  cbn [List.filter] in *. rewrite IH.
  destruct (same k x) eqn:Hx, (same k y) eqn:Hy; try reflexivity.
  pose proof (same_cmp k x y Hx Hy) as H. apply Qle_bool_iff in H. congruence.
Qed.

Lemma Array_sort_stable (k : A) (l : list A) :
  List.filter (same k) (Array_sort cmp l) = List.filter (same k) l.
Proof.
  induction l as [|x l IH]; [reflexivity|].
  cbn [Array_sort foldr]. rewrite sort_insert_stable. cbn [List.filter].
  fold (Array_sort cmp l). now rewrite IH.
Qed.
End ArraySort.

Lemma StronglySorted_before {A} (R : A -> A -> Prop) (r1 r2 r3 : list A) (a b : A) :
  StronglySorted R (r1 ++ a :: r2 ++ b :: r3) -> R a b.
Proof.
  induction r1 as [|x r1 IH]; cbn; intros H.
  - apply StronglySorted_inv in H as [_ H].
    rewrite Forall_app in H. destruct H as [_ H]. now inversion H.
  - apply StronglySorted_inv in H as [H _]. now apply IH.
Qed.

Section SortFacts.
Variable Mat4_multiply : Mat4 -> Mat4 -> Mat4.
Variable Vec3_transformMat4 : Vec3 -> Mat4 -> Vec3.
Variable camera : option Camera.

Local Abbreviation depth := (sort_depth Mat4_multiply Vec3_transformMat4 camera).
Local Abbreviation compare := (sort_compare Mat4_multiply Vec3_transformMat4 camera).
Local Abbreviation same := (same_sort_key Mat4_multiply Vec3_transformMat4 camera).

Lemma sort_compare_keys (a b : Mesh) :
  compare a b
  = compare_keys (depthTest (material a)) (depth a) (transparent (material a))
      (depthTest (material b)) (depth b) (transparent (material b)).
Proof.
  unfold sort_compare, compare_keys, sort_depth. destruct camera as [c|]; [reflexivity|].
  destruct (depthTest (material a)), (depthTest (material b)); reflexivity.
Qed.

(** The comparator by tiers: the depth-test flags when they differ, else
    the depths when they differ, else the transparency flags. *)
Lemma compare_keys_tiers d1 z1 t1 d2 z2 t2 :
  compare_keys d1 z1 t1 d2 z2 t2
  = if Bool.eqb d1 d2
    then (if Qeq_bool (z2 - z1) 0 then bool_num t1 - bool_num t2 else z2 - z1)
    else bool_num d2 - bool_num d1.
Proof. destruct d1, d2; reflexivity. Qed.

Ltac keys_cases :=
  rewrite ?compare_keys_tiers in *; cbn [Bool.eqb bool_num] in *;
  repeat match goal with
  | H : context [Qeq_bool ?x 0] |- _ =>
      let E := fresh "E" in
      destruct (Qeq_bool x 0) eqn:E;
      [apply Qeq_bool_iff in E | apply Qeq_bool_neq in E]
  | |- context [Qeq_bool ?x 0] =>
      let E := fresh "E" in
      destruct (Qeq_bool x 0) eqn:E;
      [apply Qeq_bool_iff in E | apply Qeq_bool_neq in E]
  end.

Lemma compare_keys_total d1 z1 t1 d2 z2 t2 :
  compare_keys d1 z1 t1 d2 z2 t2 <= 0 \/ compare_keys d2 z2 t2 d1 z1 t1 <= 0.
Proof.
  destruct d1, d2; keys_cases; try (left; lra); try (right; lra).
  all: destruct t1, t2; cbn [bool_num]; try (left; lra); try (right; lra).
  all: destruct (Qlt_le_dec z2 z1); (left; lra) || (right; lra).
Qed.

Lemma compare_keys_trans d1 z1 t1 d2 z2 t2 d3 z3 t3 :
  compare_keys d1 z1 t1 d2 z2 t2 <= 0 -> compare_keys d2 z2 t2 d3 z3 t3 <= 0 ->
  compare_keys d1 z1 t1 d3 z3 t3 <= 0.
Proof.
  intros H1 H2. destruct d1, d2, d3; keys_cases; try lra.
  all: destruct t1, t2, t3; cbn [bool_num] in *; lra.
Qed.

(** What a non-positive comparison says, tier by tier. *)
Lemma compare_keys_le d1 z1 t1 d2 z2 t2 :
  compare_keys d1 z1 t1 d2 z2 t2 <= 0 ->
  (d1 = false -> d2 = false)
  /\ (d1 = d2 -> z2 <= z1)
  /\ (d1 = d2 -> z1 == z2 -> t1 = true -> t2 = true).
Proof.
  intros H. destruct d1, d2; keys_cases;
    repeat split; intros; try discriminate; try reflexivity; try lra.
  all: destruct t1, t2; cbn [bool_num] in *; try discriminate; try reflexivity; lra.
Qed.

Lemma same_compare_keys d z t d1 z1 t1 d2 z2 t2 :
  Bool.eqb d d1 && Qeq_bool z z1 && Bool.eqb t t1 = true ->
  Bool.eqb d d2 && Qeq_bool z z2 && Bool.eqb t t2 = true ->
  compare_keys d1 z1 t1 d2 z2 t2 <= 0.
Proof.
  intros H1 H2.
  apply andb_prop in H1 as [H1 Ht1]. apply andb_prop in H1 as [Hd1 Hz1].
  apply andb_prop in H2 as [H2 Ht2]. apply andb_prop in H2 as [Hd2 Hz2].
  apply Bool.eqb_prop in Hd1, Ht1, Hd2, Ht2. subst d1 t1 d2 t2.
  apply Qeq_bool_iff in Hz1, Hz2.
  rewrite compare_keys_tiers, Bool.eqb_reflx.
  destruct (Qeq_bool (z2 - z1) 0) eqn:E;
    [|apply Qeq_bool_neq in E; lra].
  destruct t; cbn [bool_num]; lra.
Qed.
End SortFacts.

Section DrawOrder.
Variable Mat4_multiply : Mat4 -> Mat4 -> Mat4.
Variable Vec3_transformMat4 : Vec3 -> Mat4 -> Vec3.

Local Abbreviation depth := (sort_depth Mat4_multiply Vec3_transformMat4).
Local Abbreviation compare := (sort_compare Mat4_multiply Vec3_transformMat4).
Local Abbreviation same := (same_sort_key Mat4_multiply Vec3_transformMat4).

(** C1, as amended. [sort] returns the visible meshes of the scene in a
    stable total order: a permutation of the traversal order in which,
    whenever [a] comes before [b], [a] is not depth-test-disabled while [b]
    is depth-test-enabled (enabled nodes come first); if both are in the
    same depth-test tier, the depth of [a] (the projected [z] when a camera
    is supplied) is at least that of [b]; if moreover the depths are equal,
    [a] is not transparent while [b] is opaque; and the nodes that have the
    same sort key as any given node keep their traversal order. *)
Theorem sort_stable_tiered_order (scene : Object3D) (camera : option Camera) :
  let l := renderList scene in
  let r := sort Mat4_multiply Vec3_transformMat4 scene camera in
  Permutation l r
  /\ (forall r1 a r2 b r3, r = r1 ++ a :: r2 ++ b :: r3 ->
        (depthTest (material a) = false -> depthTest (material b) = false)
        /\ (depthTest (material a) = depthTest (material b) ->
            depth camera b <= depth camera a)
        /\ (depthTest (material a) = depthTest (material b) ->
            depth camera a == depth camera b ->
            transparent (material a) = true -> transparent (material b) = true))
  /\ (forall x, List.filter (same camera x) r = List.filter (same camera x) l).
Proof.
  intros l r. subst r. unfold sort. fold l. split; [|split].
  - apply Array_sort_perm.
  - intros r1 a r2 b r3 Hr.
    assert (Hs : StronglySorted (cmp_le (compare camera)) (Array_sort (compare camera) l)).
    { apply Array_sort_sorted.
      - intros x y. rewrite !sort_compare_keys. apply compare_keys_total.
      - intros x y z. rewrite !sort_compare_keys. apply compare_keys_trans. }
    rewrite Hr in Hs. apply StronglySorted_before in Hs. unfold cmp_le in Hs.
    rewrite sort_compare_keys in Hs. now apply compare_keys_le.
  - intros x. apply Array_sort_stable.
    intros k a b Ha Hb. rewrite sort_compare_keys.
    unfold same_sort_key in Ha, Hb. exact (same_compare_keys _ _ _ _ _ _ _ _ _ Ha Hb).
Qed.
End DrawOrder.

(** C1 as amended, on five meshes: one without depth test, then four with
    depth test of which the first is nearer and transparent. *)
Lemma sort_stable_tiered_order_witness :
  let scene := ex_scene [ex_mesh 1 0 false false; ex_mesh 2 1 true true;
                         ex_mesh 3 (-3) true false; ex_mesh 4 (-3) true true;
                         ex_mesh 5 (-3) true false] in
  let r := sort Mat4_multiply_std Vec3_transformMat4_std scene (Some ex_camera) in
  map mesh_key r = [KObj 20; KObj 30; KObj 50; KObj 40; KObj 10]
  /\ Permutation (renderList scene) r.
Proof.
  intros scene r. split; [vm_compute; reflexivity|].
  exact (proj1 (sort_stable_tiered_order Mat4_multiply_std Vec3_transformMat4_std
                  scene (Some ex_camera))).
Defined.

(** C1 as stated fails: a mesh with depth test disabled and a transparent
    mesh with depth test enabled, sorted with a camera, come out with the
    depth-test-enabled mesh first, whichever of the two is farther. *)
Lemma sort_depth_test_counterexample :
  let ui := ex_mesh 1 0 false false in
  let near := ex_mesh 2 1 true true in
  let far := ex_mesh 3 (-3) true true in
  depthTest (material ui) = false
  /\ depthTest (material near) = true
  /\ depthTest (material far) = true
  /\ map mesh_key
       (sort Mat4_multiply_std Vec3_transformMat4_std (ex_scene [ui; near]) (Some ex_camera))
     = [mesh_key near; mesh_key ui]
  /\ map mesh_key
       (sort Mat4_multiply_std Vec3_transformMat4_std (ex_scene [ui; far]) (Some ex_camera))
     = [mesh_key far; mesh_key ui].
Proof.
  cbv zeta. repeat split; vm_compute; reflexivity.
Qed.

(** ** The resource cache *)

Local Close Scope Q_scope.

Lemma cached_miss (k : Key) (onCreate : M Cached) (stale : option (Cached -> M bool))
    (w : World) :
  _cacheMap w !! k = None ->
  _cached k onCreate stale w
  = ((onCreate w).1,
     with_cacheMap (<[k := (onCreate w).1]> (_cacheMap (onCreate w).2)) (onCreate w).2).
Proof.
  intros H. unfold _cached, weakCached, bind, get. rewrite H.
  now destruct (onCreate w).
Qed.

Lemma cached_hit (k : Key) (onCreate : M Cached) (w : World) (o : Cached) :
  _cacheMap w !! k = Some o -> _cached k onCreate None w = (o, w).
Proof. intros H. unfold _cached, weakCached, bind, get, ret. now rewrite H. Qed.

Lemma cached_hit_fresh (k : Key) (onCreate : M Cached) (f : Cached -> M bool)
    (w : World) (o : Cached) :
  _cacheMap w !! k = Some o -> (f o w).1 = false ->
  _cached k onCreate (Some f) w = (o, (f o w).2).
Proof.
  intros H Hf. unfold _cached, weakCached, bind, get, ret. rewrite H.
  destruct (f o w) as [b ws]. cbn in Hf. now subst b.
Qed.

Lemma cached_hit_stale (k : Key) (onCreate : M Cached) (f : Cached -> M bool)
    (w : World) (o : Cached) :
  _cacheMap w !! k = Some o -> (f o w).1 = true ->
  let ws := (f o w).2 in
  _cached k onCreate (Some f) w
  = ((onCreate ws).1,
     with_cacheMap (<[k := (onCreate ws).1]> (_cacheMap (onCreate ws).2)) (onCreate ws).2).
Proof.
  intros H Hf. unfold _cached, weakCached, bind, get, ret. rewrite H.
  destruct (f o w) as [b ws]. cbn in Hf. subst b. cbn.
  now destruct (onCreate ws).
Qed.

(** After any lookup the key holds the returned object, and that object
    was handed out by the allocator. *)
Lemma cached_stores (k : Key) (onCreate : M Cached) (stale : option (Cached -> M bool))
    (w : World) :
  allocates onCreate ->
  (forall f, stale = Some f -> keeps_cache f) ->
  (forall o, _cacheMap w !! k = Some o -> (cached_handle o < nextHandle w)%nat) ->
  let r := _cached k onCreate stale w in
  _cacheMap r.2 !! k = Some r.1 /\ (cached_handle r.1 < nextHandle r.2)%nat.
Proof.
  intros Ha Hs Hw.
  destruct (_cacheMap w !! k) as [o|] eqn:Hk.
  - destruct stale as [f|].
    + destruct (Hs f eq_refl o w) as [Hc Hn].
      destruct ((f o w).1) eqn:Hf.
      * rewrite (cached_hit_stale _ _ _ _ _ Hk Hf). cbn.
        rewrite lookup_insert_eq. split; [reflexivity|]. apply Ha.
      * rewrite (cached_hit_fresh _ _ _ _ _ Hk Hf). cbn.
        rewrite Hc. split; [exact Hk|]. specialize (Hw o eq_refl). lia.
    + rewrite (cached_hit _ _ _ _ Hk). cbn. auto.
  - rewrite (cached_miss _ _ _ _ Hk). cbn.
    rewrite lookup_insert_eq. split; [reflexivity|]. apply Ha.
Qed.

(** C2. Two lookups of one key. Whatever happens between them, as long as
    the cache map is the one the first lookup left and the allocator has not
    gone backwards: if the staleness predicate does not return true at the
    second lookup, the second lookup returns the object of the first and
    runs nothing but the predicate; if it returns true, the second lookup is
    one run of the creation function, whose object is not the object of the
    first lookup and is the one now stored under the key. *)
Theorem cached_twice_reuse_or_replace (k : Key) (onCreate : M Cached)
    (stale : option (Cached -> M bool)) (w w' : World) :
  allocates onCreate ->
  (forall f, stale = Some f -> keeps_cache f) ->
  (forall o, _cacheMap w !! k = Some o -> (cached_handle o < nextHandle w)%nat) ->
  let o1 := (_cached k onCreate stale w).1 in
  let w1 := (_cached k onCreate stale w).2 in
  _cacheMap w' = _cacheMap w1 ->
  (nextHandle w1 <= nextHandle w')%nat ->
  let o2 := (_cached k onCreate stale w').1 in
  let w2 := (_cached k onCreate stale w').2 in
  let is_stale := match stale with Some f => (f o1 w').1 | None => false end in
  let ws := match stale with Some f => (f o1 w').2 | None => w' end in
  (is_stale = false -> o2 = o1 /\ w2 = ws)
  /\ (is_stale = true ->
      o2 = (onCreate ws).1
      /\ w2 = with_cacheMap (<[k := o2]> (_cacheMap (onCreate ws).2)) (onCreate ws).2
      /\ cached_handle o2 <> cached_handle o1
      /\ o2 <> o1
      /\ _cacheMap w2 !! k = Some o2).
Proof.
  intros Ha Hs Hw o1 w1 Hc Hn o2 w2 is_stale ws.
  destruct (cached_stores k onCreate stale w Ha Hs Hw) as [Hk1 Hh1].
  fold o1 w1 in Hk1, Hh1. rewrite <- Hc in Hk1.
  subst o2 w2 is_stale ws. destruct stale as [f|].
  - split; intros Hf.
    + now rewrite (cached_hit_fresh _ _ _ _ _ Hk1 Hf).
    + rewrite (cached_hit_stale _ _ _ _ _ Hk1 Hf). cbn.
      destruct (Hs f eq_refl o1 w') as [_ Hn'].
      destruct (Ha (f o1 w').2) as [Hlo _].
      assert (Hne : cached_handle (onCreate (f o1 w').2).1 <> cached_handle o1) by lia.
      repeat split; try assumption.
      * intros E. now rewrite E in Hne.
      * apply lookup_insert_eq.
  - split; intros Hf; [|discriminate].
    now rewrite (cached_hit _ _ _ _ Hk1).
Qed.

Lemma allocates_create_sampler (k : Key) (descriptor : string) :
  allocates (create_sampler k descriptor).
Proof. intros w. cbn. lia. Qed.

Lemma keeps_cache_stale_sampler (k : Key) : keeps_cache (stale_sampler k).
Proof. intros o w. cbn. split; [reflexivity|lia]. Qed.

(** C2, on a sampler looked up in a new renderer and looked up again after
    the application has set its flag: the second lookup creates one sampler,
    a different one. *)
Lemma cached_twice_reuse_or_replace_witness :
  let k := KObj 1 in
  let w1 := (_updateSampler k "linear" ex_world).2 in
  let o1 := (_updateSampler k "linear" ex_world).1 in
  let w' := mark_dirty k w1 in
  let o2 := (_updateSampler k "linear" w').1 in
  let w2 := (_updateSampler k "linear" w').2 in
  o1 = CObject 4%nat "" /\ o2 = CObject 5%nat ""
  /\ new_events w' w2 = [CreateSampler 5%nat "linear"]
  /\ cached_handle o2 <> cached_handle o1.
Proof.
  intros k w1 o1 w' o2 w2.
  split; [vm_compute; reflexivity|]. split; [vm_compute; reflexivity|].
  split; [vm_compute; reflexivity|].
  refine (proj1 (proj2 (proj2
            (proj2 (cached_twice_reuse_or_replace k (create_sampler k "linear")
                      (Some (stale_sampler k)) ex_world w'
                      (allocates_create_sampler k "linear")
                      (fun f E => _)
                      (fun o E => _) ltac:(vm_compute; reflexivity) ltac:(vm_compute; lia)) ltac:(vm_compute; reflexivity))))).
  - injection E as <-. apply keeps_cache_stale_sampler.
  - vm_compute in E. discriminate E.
Defined.

(** ** The cache stays well-formed *)

Lemma bind_run {A B} (m : M A) (f : A -> M B) (w : World) :
  bind m f w = f (m w).1 (m w).2.
Proof. unfold bind. now destruct (m w). Qed.

Lemma quiet_ret {A} (a : A) : quiet (ret a).
Proof. intros w. cbn. split; [reflexivity|lia]. Qed.

Lemma quiet_get {A} (f : World -> A) : quiet (get f).
Proof. intros w. cbn. split; [reflexivity|lia]. Qed.

Lemma quiet_emit (e : Event) : quiet (emit e).
Proof. intros w. cbn. split; [reflexivity|lia]. Qed.

Lemma quiet_allocate : quiet allocate.
Proof. intros w. cbn. split; [reflexivity|lia]. Qed.

Lemma quiet_set_needsUpdate (k : Key) (b : bool) : quiet (set_needsUpdate k b).
Proof. intros w. cbn. split; [reflexivity|lia]. Qed.

Lemma quiet_set_floats (k : Key) (v : list Q) : quiet (set_floats k v).
Proof. intros w. cbn. split; [reflexivity|lia]. Qed.

Lemma quiet_bind {A B} (m : M A) (f : A -> M B) :
  quiet m -> (forall a, quiet (f a)) -> quiet (bind m f).
Proof.
  intros Hm Hf w. rewrite bind_run.
  destruct (Hm w) as [C1 N1]. destruct (Hf (m w).1 (m w).2) as [C2 N2].
  split; [congruence|lia].
Qed.

Lemma quiet_if {A} (b : bool) (m1 m2 : M A) : quiet m1 -> quiet m2 -> quiet (if b then m1 else m2).
Proof. now destruct b. Qed.

Ltac quiet_solve :=
  repeat first
    [ apply quiet_ret | apply quiet_get | apply quiet_emit | apply quiet_allocate
    | apply quiet_set_needsUpdate | apply quiet_set_floats
    | apply quiet_if
    | apply quiet_bind; [|intros ?]
    | assumption ].

Lemma quiet_keeps_wf {A} (m : M A) : quiet m -> keeps_wf m.
Proof.
  intros Hq w [Hb Hi]. destruct (Hq w) as [C N]. split; [|exact N].
  split.
  - intros k c Hk. rewrite C in Hk. specialize (Hb k c Hk). lia.
  - intros k1 k2 c1 c2 H1 H2. rewrite C in H1, H2. now apply Hi.
Qed.

Lemma keeps_wf_ret {A} (a : A) : keeps_wf (ret a).
Proof. apply quiet_keeps_wf, quiet_ret. Qed.

Lemma keeps_wf_bind {A B} (m : M A) (f : A -> M B) :
  keeps_wf m -> (forall a, keeps_wf (f a)) -> keeps_wf (bind m f).
Proof.
  intros Hm Hf w Hw. rewrite bind_run.
  destruct (Hm w Hw) as [W1 N1]. destruct (Hf (m w).1 (m w).2 W1) as [W2 N2].
  split; [exact W2|lia].
Qed.

(** Storing a newly allocated object under a key keeps the cache
    well-formed. *)
Lemma cache_wf_insert (k : Key) (o : Cached) (w w' : World) :
  cache_wf w ->
  _cacheMap w' = _cacheMap w ->
  (nextHandle w <= cached_handle o)%nat ->
  (cached_handle o < nextHandle w')%nat ->
  cache_wf (with_cacheMap (<[k := o]> (_cacheMap w')) w').
Proof.
  intros [Hb Hi] C Lo Hi'. split.
  - intros k' c. cbn. rewrite C, lookup_insert. destruct (decide (k = k')) as [->|Hne].
    + intros [= <-]. exact Hi'.
    + intros Hk. specialize (Hb _ _ Hk). lia.
  - intros k1 k2 c1 c2. cbn. rewrite C, !lookup_insert.
    destruct (decide (k = k1)) as [E1|N1]; destruct (decide (k = k2)) as [E2|N2].
    + congruence.
    + intros [= <-] H2 E. specialize (Hb _ _ H2). lia.
    + intros H1 [= <-] E. specialize (Hb _ _ H1). lia.
    + apply Hi.
Qed.

Lemma keeps_wf_cached (k : Key) (onCreate : M Cached) (stale : option (Cached -> M bool)) :
  creates onCreate ->
  (forall f o, stale = Some f -> quiet (f o)) ->
  keeps_wf (_cached k onCreate stale).
Proof.
  intros Hc Hs w Hw.
  assert (Hnew : forall ws, cache_wf ws -> (nextHandle w <= nextHandle ws)%nat ->
            cache_wf (with_cacheMap (<[k := (onCreate ws).1]> (_cacheMap (onCreate ws).2))
                        (onCreate ws).2)
            /\ (nextHandle w <= nextHandle (onCreate ws).2)%nat).
  { intros ws Hws Hn. destruct (Hc ws) as (C & Lo & Hi). split; [|lia].
    now apply (cache_wf_insert k _ ws). }
  destruct (_cacheMap w !! k) as [o|] eqn:Hk.
  - destruct stale as [f|].
    + destruct (quiet_keeps_wf _ (Hs f o eq_refl) w Hw) as [Wf Nf].
      destruct ((f o w).1) eqn:Hf.
      * rewrite (cached_hit_stale _ _ _ _ _ Hk Hf). cbn [snd nextHandle with_cacheMap].
        now apply Hnew.
      * rewrite (cached_hit_fresh _ _ _ _ _ Hk Hf). cbn [snd]. now split.
    + rewrite (cached_hit _ _ _ _ Hk). cbn. split; [exact Hw|lia].
  - rewrite (cached_miss _ _ _ _ Hk). cbn [snd nextHandle with_cacheMap].
    apply Hnew; [exact Hw|lia].
Qed.

Lemma creates_intro (m : M Handle) (label : string) :
  quiet m ->
  (forall w, (nextHandle w <= (m w).1)%nat /\ ((m w).1 < nextHandle (m w).2)%nat) ->
  creates (bind m (fun h => ret (CObject h label))).
Proof.
  intros Hq Hr w. rewrite bind_run. cbn. destruct (Hq w) as [C _].
  destruct (Hr w) as [Lo Hi]. auto.
Qed.

Lemma createBuffer_range (data : BufferSource) (usage : Z) (label : option string) (w : World) :
  (nextHandle w <= (_createBuffer data usage label w).1)%nat
  /\ ((_createBuffer data usage label w).1 < nextHandle (_createBuffer data usage label w).2)%nat.
Proof. cbn. lia. Qed.

Lemma quiet_createBuffer (data : BufferSource) (usage : Z) (label : option string) :
  quiet (_createBuffer data usage label).
Proof. intros w. cbn. split; [reflexivity|lia]. Qed.

Lemma creates_create_sampler (k : Key) (descriptor : string) :
  creates (create_sampler k descriptor).
Proof. intros w. cbn. repeat split; lia. Qed.

Lemma creates_create_texture (k : Key) (descriptor : TextureDescriptor) (image : option Key) :
  creates (create_texture k descriptor image).
Proof. intros w. destruct image; cbn; repeat split; lia. Qed.

Lemma quiet_stale_sampler (k : Key) (o : Cached) : quiet (stale_sampler k o).
Proof. apply quiet_get. Qed.

Lemma quiet_stale_texture (k : Key) (o : Cached) : quiet (stale_texture k o).
Proof. unfold stale_texture. quiet_solve. Qed.

Lemma keeps_wf_bind_uniform (i : nat) (v : Uniform) : keeps_wf (bind_uniform i v).
Proof.
  destruct v as [k value|k d image|k d|k d]; cbn [bind_uniform].
  - apply keeps_wf_bind.
    + apply keeps_wf_cached; [|discriminate].
      apply creates_intro; [apply quiet_createBuffer | apply createBuffer_range].
    + intros buffer. apply quiet_keeps_wf. unfold needsUpdate_truthy. quiet_solve.
  - apply keeps_wf_bind.
    + apply keeps_wf_cached; [apply creates_create_texture|].
      intros f o [= <-]. apply quiet_stale_texture.
    + intros t. apply quiet_keeps_wf. quiet_solve.
  - apply keeps_wf_bind.
    + apply keeps_wf_cached; [apply creates_create_texture|].
      intros f o [= <-]. apply quiet_stale_texture.
    + intros t. apply quiet_keeps_wf. quiet_solve.
  - apply keeps_wf_bind.
    + apply keeps_wf_cached; [apply creates_create_sampler|].
      intros f o [= <-]. apply quiet_stale_sampler.
    + intros s. apply keeps_wf_ret.
Qed.

Lemma keeps_wf_bind_uniforms (us : list Uniform) (i : nat) : keeps_wf (bind_uniforms i us).
Proof.
  revert i. induction us as [|v us IH]; intros i; cbn [bind_uniforms].
  - apply keeps_wf_ret.
  - apply keeps_wf_bind; [apply keeps_wf_bind_uniform|]. intros e.
    apply keeps_wf_bind; [apply IH|]. intros es. apply keeps_wf_ret.
Qed.

Lemma keeps_wf_bind_vertexBuffer (i : nat) (vb : VertexBuffer) : keeps_wf (bind_vertexBuffer i vb).
Proof.
  unfold bind_vertexBuffer. apply keeps_wf_bind.
  - apply keeps_wf_cached; [|discriminate].
    intros w. cbn. repeat split; lia.
  - intros buffer. apply quiet_keeps_wf. unfold needsUpdate_truthy. quiet_solve.
Qed.

Lemma keeps_wf_bind_vertexBuffers (vbs : list VertexBuffer) (i : nat) :
  keeps_wf (bind_vertexBuffers i vbs).
Proof.
  revert i. induction vbs as [|vb vbs IH]; intros i; cbn [bind_vertexBuffers].
  - apply keeps_wf_ret.
  - apply keeps_wf_bind; [apply keeps_wf_bind_vertexBuffer|]. intros _. apply IH.
Qed.

Lemma keeps_wf_bind_indexBuffer (ib : option IndexBuffer) : keeps_wf (bind_indexBuffer ib).
Proof.
  destruct ib as [ib|]; cbn [bind_indexBuffer]; [|apply keeps_wf_ret].
  apply keeps_wf_bind.
  - apply keeps_wf_cached; [|discriminate].
    apply creates_intro; [apply quiet_createBuffer | apply createBuffer_range].
  - intros buffer. apply quiet_keeps_wf, quiet_emit.
Qed.

Lemma quiet_draw_node (node : Mesh) : quiet (draw_node node).
Proof.
  unfold draw_node. destruct (indexBuffer (geometry node)); [apply quiet_emit|].
  destruct (vertexBuffers (geometry node)); apply quiet_emit.
Qed.

Lemma quiet_resizeSwapchain : quiet _resizeSwapchain.
Proof.
  intros w. destruct (resizeSwapchain_effect w) as (_ & _ & _ & Hn & _).
  split; [|lia].
  destruct w as [cw ch fmt ac smp msaa mv dep dv cm nu fl nh tr].
  destruct msaa, dep; reflexivity.
Qed.

Section Invariant.
Variable JSON_stringify : PipelineOption -> string.
Variable Mat4_multiply : Mat4 -> Mat4 -> Mat4.
Variable Mat3_normalFromMat4 : list Q -> Mat4 -> list Q.
Variable Vec3_transformMat4 : Vec3 -> Mat4 -> Vec3.

Lemma creates_create_layout (mesh : Mesh) : creates (create_layout mesh).
Proof. intros w. cbn. repeat split; lia. Qed.

Lemma creates_create_pipeline (mesh : Mesh) (bgl : Handle) (option : PipelineOption)
    (key : string) :
  creates (create_pipeline mesh bgl option key).
Proof. intros w. cbn. repeat split; lia. Qed.

Lemma quiet_update_base (mesh : Mesh) (camera : Camera) (us : list Uniform) :
  quiet (update_base Mat4_multiply Mat3_normalFromMat4 mesh camera us).
Proof.
  unfold update_base. destruct us as [|[k [bo|]| | |] us]; quiet_solve.
Qed.

Lemma keeps_wf_resolve_pipeline (mesh : Mesh) (bgl : Handle) :
  keeps_wf (resolve_pipeline JSON_stringify mesh bgl).
Proof.
  unfold resolve_pipeline. apply keeps_wf_bind; [apply quiet_keeps_wf, quiet_get|].
  intros samples. apply keeps_wf_cached; [apply creates_create_pipeline|].
  intros f o [= <-]. apply quiet_ret.
Qed.

Lemma keeps_wf_updatePipeline (mesh : Mesh) (camera : Camera) :
  keeps_wf (_updatePipeline JSON_stringify Mat4_multiply Mat3_normalFromMat4 mesh camera).
Proof.
  unfold _updatePipeline, uniform_setup.
  repeat first
    [ apply keeps_wf_ret
    | apply keeps_wf_bind_uniforms
    | apply keeps_wf_resolve_pipeline
    | apply keeps_wf_bind_indexBuffer
    | apply keeps_wf_bind_vertexBuffers
    | apply keeps_wf_cached; [apply creates_create_layout | discriminate]
    | apply quiet_keeps_wf, quiet_update_base
    | apply quiet_keeps_wf, quiet_emit
    | apply keeps_wf_bind; [|intros ?] ].
  match goal with |- keeps_wf (if ?b then _ else _) => destruct b end;
    [apply keeps_wf_ret|].
  apply quiet_keeps_wf. quiet_solve.
Qed.

Lemma keeps_wf_render_nodes (renderList : list Mesh) (camera : Camera) :
  keeps_wf (render_nodes JSON_stringify Mat4_multiply Mat3_normalFromMat4 renderList camera).
Proof.
  induction renderList as [|node rest IH]; cbn [render_nodes]; [apply keeps_wf_ret|].
  apply keeps_wf_bind; [apply keeps_wf_updatePipeline|]. intros _.
  apply keeps_wf_bind; [apply quiet_keeps_wf, quiet_draw_node|]. intros _. exact IH.
Qed.

(** The cache of a renderer is well-formed when it is constructed and
    stays so across every frame and every resize. *)
Lemma keeps_wf_render (scene : Object3D) (camera : Camera) :
  keeps_wf (render JSON_stringify Mat4_multiply Mat3_normalFromMat4 Vec3_transformMat4
              scene camera).
Proof.
  unfold render.
  repeat first
    [ apply keeps_wf_render_nodes
    | apply quiet_keeps_wf;
      first [ apply quiet_get | apply quiet_emit | apply quiet_allocate
            | apply quiet_if; [apply quiet_ret | apply quiet_resizeSwapchain] ]
    | apply keeps_wf_bind; [|intros ?] ].
Qed.

Lemma keeps_wf_setSize (width height : Z) : keeps_wf (setSize width height).
Proof.
  apply quiet_keeps_wf. unfold setSize. apply quiet_bind; [|intros _; apply quiet_resizeSwapchain].
  intros w. cbn. split; [reflexivity|lia].
Qed.
End Invariant.

Lemma cache_wf_new_renderer (width height : Z) (fmt : string) :
  cache_wf (new_renderer width height fmt).
Proof.
  unfold new_renderer.
  apply (quiet_keeps_wf _ quiet_resizeSwapchain).
  split; intros *; cbn; rewrite lookup_empty; discriminate.
Qed.

(** ** Pipelines *)

Section Pipelines.
Variable JSON_stringify : PipelineOption -> string.

Local Abbreviation resolve := (resolve_pipeline JSON_stringify).

Lemma create_pipeline_effect (mesh : Mesh) (bgl : Handle) (option : PipelineOption)
    (key : string) (w : World) :
  let r := create_pipeline mesh bgl option key w in
  r.1 = CObject (2 + nextHandle w) key
  /\ nextHandle r.2 = (3 + nextHandle w)%nat
  /\ _cacheMap r.2 = _cacheMap w
  /\ samples r.2 = samples w.
Proof. cbn. repeat split. Qed.

Lemma resolve_pipeline_unfold (mesh : Mesh) (bgl : Handle) (w : World) :
  let key := JSON_stringify (pipelineOption (samples w) mesh) in
  resolve mesh bgl w
  = _cached (mesh_key mesh)
      (create_pipeline mesh bgl (pipelineOption (samples w) mesh) key)
      (Some (pipeline_stale key)) w.
Proof. reflexivity. Qed.

(** A lookup whose creation function makes an object labelled [key] and
    whose staleness predicate compares labels with [key]. *)
Lemma cached_labelled_effect (k : Key) (key : string) (create : M Cached) (w : World) :
  (create w).1 = CObject (2 + nextHandle w) key ->
  nextHandle (create w).2 = (3 + nextHandle w)%nat ->
  _cacheMap (create w).2 = _cacheMap w ->
  samples (create w).2 = samples w ->
  let r := _cached k create (Some (pipeline_stale key)) w in
  cached_label r.1 = key
  /\ _cacheMap r.2 !! k = Some r.1
  /\ samples r.2 = samples w
  /\ ((_cacheMap w !! k = Some r.1 /\ r.2 = w)
      \/ (cached_handle r.1 = (2 + nextHandle w)%nat
          /\ nextHandle r.2 = (3 + nextHandle w)%nat
          /\ _cacheMap r.2 = <[k := r.1]> (_cacheMap w))).
Proof.
  intros Ho Hn Hc Hs r. subst r.
  destruct (_cacheMap w !! k) as [o|] eqn:Hk.
  - destruct (String.eqb (cached_label o) key) eqn:El.
    + assert (Hf : (pipeline_stale key o w).1 = false)
        by (unfold pipeline_stale, ret; cbn [fst]; now rewrite El).
      rewrite (cached_hit_fresh _ _ _ _ _ Hk Hf).
      apply String.eqb_eq in El.
      split; [exact El|]. split; [exact Hk|]. split; [reflexivity|]. left. now split.
    + assert (Hf : (pipeline_stale key o w).1 = true)
        by (unfold pipeline_stale, ret; cbn [fst]; now rewrite El).
      rewrite (cached_hit_stale _ _ _ _ _ Hk Hf).
      change ((pipeline_stale key o w).2) with w.
      cbn [fst snd _cacheMap with_cacheMap samples nextHandle].
      rewrite lookup_insert_eq, Ho, Hc. repeat split; try assumption.
      right. repeat split; assumption.
  - rewrite (cached_miss _ _ _ _ Hk).
    cbn [fst snd _cacheMap with_cacheMap samples nextHandle].
    rewrite lookup_insert_eq, Ho, Hc. repeat split; try assumption.
    right. repeat split; assumption.
Qed.

(** One resolution: the returned pipeline carries the current fingerprint
    as its label and is the one stored under the mesh; either it was the
    one already stored and nothing happened, or it is new. *)
Lemma resolve_pipeline_effect (mesh : Mesh) (bgl : Handle) (w : World) :
  let key := JSON_stringify (pipelineOption (samples w) mesh) in
  let r := resolve mesh bgl w in
  cached_label r.1 = key
  /\ _cacheMap r.2 !! mesh_key mesh = Some r.1
  /\ samples r.2 = samples w
  /\ ((_cacheMap w !! mesh_key mesh = Some r.1 /\ r.2 = w)
      \/ (cached_handle r.1 = (2 + nextHandle w)%nat
          /\ nextHandle r.2 = (3 + nextHandle w)%nat
          /\ _cacheMap r.2 = <[mesh_key mesh := r.1]> (_cacheMap w))).
Proof.
  intros key r. subst r. rewrite resolve_pipeline_unfold.
  destruct (create_pipeline_effect mesh bgl (pipelineOption (samples w) mesh) key w)
    as (Ho & Hn & Hc & Hs).
  exact (cached_labelled_effect (mesh_key mesh) key _ w Ho Hn Hc Hs).
Qed.

(** C6, as amended. Pipelines are cached under the mesh: two distinct
    meshes resolved one after the other get two distinct pipeline objects,
    each labelled with the fingerprint of its mesh (so the labels are equal
    when the fingerprints are), and the first mesh resolved again with an
    unchanged fingerprint gets the pipeline object it got before, with
    nothing created. *)
Theorem pipeline_cached_per_mesh (m1 m2 : Mesh) (bgl1 bgl2 : Handle) (w : World) :
  cache_wf w ->
  mesh_key m1 <> mesh_key m2 ->
  let r1 := resolve m1 bgl1 w in
  let r2 := resolve m2 bgl2 r1.2 in
  let r3 := resolve m1 bgl1 r2.2 in
  cached_handle r1.1 <> cached_handle r2.1
  /\ cached_label r1.1 = JSON_stringify (pipelineOption (samples w) m1)
  /\ cached_label r2.1 = JSON_stringify (pipelineOption (samples w) m2)
  /\ r3 = (r1.1, r2.2).
Proof.
  intros [Hbound Hinj] Hne r1 r2 r3.
  destruct (resolve_pipeline_effect m1 bgl1 w) as (L1 & S1 & Sm1 & C1).
  fold r1 in L1, S1, Sm1, C1. clearbody r1.
  destruct (resolve_pipeline_effect m2 bgl2 r1.2) as (L2 & S2 & Sm2 & C2).
  fold r2 in L2, S2, Sm2, C2. clearbody r2. rewrite Sm1 in L2.
  assert (Hk1 : _cacheMap r2.2 !! mesh_key m1 = Some r1.1).
  { destruct C2 as [[_ ->]|(_ & _ & ->)]; [exact S1|].
    rewrite lookup_insert_ne by congruence. exact S1. }
  split; [|split; [exact L1|split; [exact L2|]]].
  - destruct C1 as [[H1 E1]|(H1 & N1 & M1)], C2 as [[H2 E2]|(H2 & N2 & M2)].
    + rewrite E1 in H2. intros E. apply Hne. exact (Hinj _ _ _ _ H1 H2 E).
    + rewrite E1 in H2. specialize (Hbound _ _ H1). lia.
    + rewrite M1, lookup_insert_ne in H2 by congruence.
      specialize (Hbound _ _ H2). lia.
    + lia.
  - subst r3. rewrite resolve_pipeline_unfold. cbv zeta.
    rewrite (cached_hit_fresh _ _ _ _ _ Hk1); [reflexivity|].
    unfold pipeline_stale, ret. cbn [fst].
    rewrite Sm2, Sm1, L1. now rewrite String.eqb_refl.
Qed.
End Pipelines.

Lemma cache_wf_ex_world : cache_wf ex_world.
Proof.
  split; [intros k c H | intros k1 k2 c1 c2 H]; vm_compute in H; discriminate H.
Qed.

(** C6 as amended, on two sample meshes with equal pipeline options in a
    new renderer. *)
Lemma pipeline_cached_per_mesh_witness :
  let m1 := ex_mesh 1 0 true false in
  let m2 := ex_mesh 2 1 true false in
  let r1 := resolve_pipeline JSON_stringify_std m1 8%nat ex_world in
  let r2 := resolve_pipeline JSON_stringify_std m2 8%nat r1.2 in
  pipelineOption 4 m1 = pipelineOption 4 m2
  /\ cached_handle r1.1 = 6%nat /\ cached_handle r2.1 = 9%nat
  /\ cached_handle r1.1 <> cached_handle r2.1.
Proof.
  intros m1 m2 r1 r2.
  split; [reflexivity|]. split; [vm_compute; reflexivity|]. split; [vm_compute; reflexivity|].
  exact (proj1 (pipeline_cached_per_mesh JSON_stringify_std m1 m2 8%nat 8%nat ex_world
                  cache_wf_ex_world ltac:(discriminate))).
Defined.

(** C6 as stated fails: two meshes with equal pipeline options (hence
    equal fingerprints), rendered in one frame, are drawn with two different
    pipeline objects. *)
Lemma pipeline_shared_counterexample :
  let m1 := ex_mesh 1 0 true false in
  let m2 := ex_mesh 2 1 true false in
  let w' := (ex_render (ex_scene [m1; m2]) ex_world).2 in
  pipelineOption (samples ex_world) m1 = pipelineOption (samples ex_world) m2
  /\ JSON_stringify_std (pipelineOption (samples ex_world) m1)
     = JSON_stringify_std (pipelineOption (samples ex_world) m2)
  /\ pipelines_set (trace w') = [13%nat; 24%nat].
Proof.
  cbv zeta. split; [reflexivity|]. split; [reflexivity|]. vm_compute. reflexivity.
Qed.

(** ** Uniform buffers *)

(** A buffer binding that is cached and dirty: the binding step appends one
    queue write, to the cached buffer, at the offset and with the length of
    the value, clears the flag and leaves the cache and the allocator as
    they were. *)
Lemma bind_uniform_cached_dirty (i : nat) (k : Key) (value : BufferSource)
    (w : World) (o : Cached) :
  _cacheMap w !! k = Some o ->
  truthy (needsUpdate w !! k) = true ->
  bind_uniform i (UBuffer k value) w
  = ({| bge_binding := i; bge_resource := ResBuffer (cached_handle o) |},
     with_needsUpdate (<[k := false]> (needsUpdate w))
       (with_trace
          (trace w ++ [WriteBuffer (cached_handle o) (src_writeOffset value)
                         (src_key value) (src_byteLength value)]) w)).
Proof.
  intros Hk Hd. unfold bind_uniform, bind.
  rewrite (cached_hit _ _ _ _ Hk).
  unfold needsUpdate_truthy, get. rewrite Hd. reflexivity.
Qed.

(** A buffer binding that is cached and clean: nothing is written. *)
Lemma bind_uniform_cached_clean (i : nat) (k : Key) (value : BufferSource)
    (w : World) (o : Cached) :
  _cacheMap w !! k = Some o ->
  truthy (needsUpdate w !! k) = false ->
  bind_uniform i (UBuffer k value) w
  = ({| bge_binding := i; bge_resource := ResBuffer (cached_handle o) |}, w).
Proof.
  intros Hk Hd. unfold bind_uniform, bind.
  rewrite (cached_hit _ _ _ _ Hk).
  unfold needsUpdate_truthy, get. rewrite Hd. reflexivity.
Qed.

(** A buffer binding that is not cached yet and dirty: the buffer is
    created and written in full by [_createBuffer], and then written again
    because the flag is still set. *)
Lemma bind_uniform_uncached_dirty (i : nat) (k : Key) (value : BufferSource) (w : World) :
  _cacheMap w !! k = None ->
  truthy (needsUpdate w !! k) = true ->
  let w' := (bind_uniform i (UBuffer k value) w).2 in
  let buffer := nextHandle w in
  trace w'
  = trace w
    ++ [CreateBuffer buffer (Some ("uniform " +:+ decimal i +:+ " buffer"))
          (src_byteLength value) 200;
        WriteBuffer buffer 0 (src_key value) (src_byteLength value);
        WriteBuffer buffer (src_writeOffset value) (src_key value) (src_byteLength value)]
  /\ needsUpdate w' !! k = Some false
  /\ _cacheMap w' !! k
     = Some (CObject buffer ("uniform " +:+ decimal i +:+ " buffer")).
Proof.
  intros Hk Hd w' buffer.
  assert (E : bind_uniform i (UBuffer k value) w
    = ({| bge_binding := i; bge_resource := ResBuffer buffer |},
       with_needsUpdate (<[k := false]> (needsUpdate w))
         (with_trace
            (((trace w
              ++ [CreateBuffer buffer (Some ("uniform " +:+ decimal i +:+ " buffer"))
                    (src_byteLength value)
                    (Z.lor (Z.lor GPUBufferUsage_UNIFORM GPUBufferUsage_COPY_DST)
                       GPUBufferUsage_STORAGE)])
              ++ [WriteBuffer buffer 0 (src_key value) (src_byteLength value)])
             ++ [WriteBuffer buffer (src_writeOffset value) (src_key value)
                   (src_byteLength value)])
            (with_cacheMap
               (<[k := CObject buffer ("uniform " +:+ decimal i +:+ " buffer")]>
                  (_cacheMap w))
               (with_nextHandle (S (nextHandle w)) w))))).
  { unfold bind_uniform, bind. rewrite (cached_miss _ _ _ _ Hk).
    unfold needsUpdate_truthy, get.
    cbn [fst snd _createBuffer bind allocate emit ret needsUpdate with_cacheMap with_trace
         with_nextHandle].
    rewrite Hd. reflexivity. }
  subst w'. rewrite E.
  cbn [snd trace needsUpdate _cacheMap with_needsUpdate with_trace with_cacheMap].
  rewrite !lookup_insert_eq, <- !app_assoc. repeat split.
Qed.

(** C3. A material whose one buffer uniform (a 32-byte [ArrayBuffer]) is
    dirty and has never been rendered: the first frame enqueues two writes
    of that value, both covering bytes 0-31 of the buffer it has just
    created, where the specification has exactly one; the flag is false
    afterwards.
    Once the buffer is cached, a frame after the flag is set again enqueues
    one write. *)
Theorem uniform_first_frame_failing_input :
  let scene := ex_scene [ex_mesh 1 0%Q true false] in
  let binding := KObj 12 in
  let value := KObj 13 in
  let w0 := mark_dirty binding ex_world in
  let w1 := (ex_render scene w0).2 in
  let w1' := mark_dirty binding w1 in
  let w2 := (ex_render scene w1').2 in
  uniforms (material (ex_mesh 1 0%Q true false)) = [UBuffer binding (SrcArrayBuffer value 32)]
  /\ _cacheMap w0 !! binding = None
  /\ needsUpdate w0 !! binding = Some true
  /\ writes_of value (new_events w0 w1)
     = [WriteBuffer 10 0 value 32; WriteBuffer 10 0 value 32]
  /\ needsUpdate w1 !! binding = Some false
  /\ _cacheMap w1 !! binding = Some (CObject 10 "uniform 1 buffer")
  /\ writes_of value (new_events w1' w2) = [WriteBuffer 10 0 value 32]
  /\ needsUpdate w2 !! binding = Some false.
Proof.
  cbv zeta. repeat split; vm_compute; reflexivity.
Qed.


(** * Further properties of the renderer *)

Local Close Scope Q_scope.

(** ** The calls of a frame *)

Lemma emits_ret {A} (P : Event -> bool) (a : A) : emits P (ret a).
Proof. intros w. exists []. split; [symmetry; apply app_nil_r | reflexivity]. Qed.

Lemma emits_get {A} (P : Event -> bool) (f : World -> A) : emits P (get f).
Proof. intros w. exists []. split; [symmetry; apply app_nil_r | reflexivity]. Qed.

Lemma emits_emit (P : Event -> bool) (e : Event) : P e = true -> emits P (emit e).
Proof. intros H w. exists [e]. split; [reflexivity | cbn; now rewrite H]. Qed.

Lemma emits_allocate (P : Event -> bool) : emits P allocate.
Proof. intros w. exists []. split; [symmetry; apply app_nil_r | reflexivity]. Qed.

Lemma emits_set_needsUpdate (P : Event -> bool) (k : Key) (b : bool) :
  emits P (set_needsUpdate k b).
Proof. intros w. exists []. split; [symmetry; apply app_nil_r | reflexivity]. Qed.

Lemma emits_set_floats (P : Event -> bool) (k : Key) (v : list Q) :
  emits P (set_floats k v).
Proof. intros w. exists []. split; [symmetry; apply app_nil_r | reflexivity]. Qed.

Lemma emits_bind {A B} (P : Event -> bool) (m : M A) (f : A -> M B) :
  emits P m -> (forall a, emits P (f a)) -> emits P (bind m f).
Proof.
  intros Hm Hf w. rewrite bind_run.
  destruct (Hm w) as (es1 & E1 & P1). destruct (Hf (m w).1 (m w).2) as (es2 & E2 & P2).
  exists (es1 ++ es2). split.
  - now rewrite E2, E1, app_assoc.
  - rewrite forallb_app. now rewrite P1, P2.
Qed.

Lemma emits_if {A} (P : Event -> bool) (b : bool) (m1 m2 : M A) :
  emits P m1 -> emits P m2 -> emits P (if b then m1 else m2).
Proof. now destruct b. Qed.

Lemma emits_store {A} (P : Event -> bool) (a : A) (f : World -> gmap Key Cached) :
  emits P (fun w => (a, with_cacheMap (f w) w)).
Proof. intros w. exists []. split; [symmetry; apply app_nil_r | reflexivity]. Qed.

Lemma emits_cached (P : Event -> bool) (k : Key) (onCreate : M Cached)
    (stale : option (Cached -> M bool)) :
  emits P onCreate ->
  (forall f o, stale = Some f -> emits P (f o)) ->
  emits P (_cached k onCreate stale).
Proof.
  intros Hc Hs. unfold _cached, weakCached.
  apply emits_bind; [apply emits_get|]. intros [o|].
  - apply emits_bind.
    + destruct stale as [f|]; [now apply Hs | apply emits_ret].
    + intros []; [|apply emits_ret].
      apply emits_bind; [exact Hc|]. intros v.
      apply (emits_store P v (fun w => <[k := v]> (_cacheMap w))).
  - apply emits_bind; [exact Hc|]. intros v.
    apply (emits_store P v (fun w => <[k := v]> (_cacheMap w))).
Qed.

Ltac emits_solve :=
  repeat first
    [ apply emits_ret | apply emits_get | apply emits_allocate
    | apply emits_set_needsUpdate | apply emits_set_floats
    | apply emits_emit; reflexivity
    | apply emits_if
    | apply emits_cached; [|try discriminate; intros ? ? [= <-]]
    | apply emits_bind; [|intros ?]
    | assumption ].

Lemma emits_createBuffer (data : BufferSource) (usage : Z) (label : option string) :
  emits is_setup (_createBuffer data usage label).
Proof. unfold _createBuffer. emits_solve. Qed.

Lemma emits_create_sampler (k : Key) (descriptor : string) :
  emits is_setup (create_sampler k descriptor).
Proof. unfold create_sampler. emits_solve. Qed.

Lemma emits_create_texture (k : Key) (descriptor : TextureDescriptor) (image : option Key) :
  emits is_setup (create_texture k descriptor image).
Proof. unfold create_texture. destruct image; emits_solve. Qed.

Lemma emits_stale_texture (k : Key) (o : Cached) : emits is_setup (stale_texture k o).
Proof. unfold stale_texture. emits_solve. Qed.

Lemma emits_updateTexture (k : Key) (descriptor : TextureDescriptor) (image : option Key) :
  emits is_setup (_updateTexture k descriptor image).
Proof.
  unfold _updateTexture. apply emits_cached; [apply emits_create_texture|].
  intros f o [= <-]. apply emits_stale_texture.
Qed.

Lemma emits_updateSampler (k : Key) (descriptor : string) :
  emits is_setup (_updateSampler k descriptor).
Proof.
  unfold _updateSampler. apply emits_cached; [apply emits_create_sampler|].
  intros f o [= <-]. apply emits_get.
Qed.

Lemma emits_bind_uniform (i : nat) (v : Uniform) : emits is_setup (bind_uniform i v).
Proof.
  destruct v as [k value|k d image|k d|k d]; cbn [bind_uniform].
  - apply emits_bind.
    + apply emits_cached; [|discriminate].
      apply emits_bind; [apply emits_createBuffer|]. intros b. apply emits_ret.
    + intros buffer. unfold needsUpdate_truthy. emits_solve.
  - apply emits_bind; [apply emits_updateTexture|]. intros t. emits_solve.
  - apply emits_bind; [apply emits_updateTexture|]. intros t. emits_solve.
  - apply emits_bind; [apply emits_updateSampler|]. intros s. emits_solve.
Qed.

Lemma emits_bind_uniforms (us : list Uniform) (i : nat) : emits is_setup (bind_uniforms i us).
Proof.
  revert i. induction us as [|v us IH]; intros i; cbn [bind_uniforms]; [apply emits_ret|].
  apply emits_bind; [apply emits_bind_uniform|]. intros e.
  apply emits_bind; [apply IH|]. intros es. apply emits_ret.
Qed.

Lemma emits_bind_vertexBuffer (i : nat) (vb : VertexBuffer) :
  emits is_setup (bind_vertexBuffer i vb).
Proof.
  unfold bind_vertexBuffer. apply emits_bind.
  - apply emits_cached; [|discriminate].
    apply emits_bind; [apply emits_set_needsUpdate|]. intros _.
    apply emits_bind; [apply emits_createBuffer|]. intros b. apply emits_ret.
  - intros buffer. unfold needsUpdate_truthy. emits_solve.
Qed.

Lemma emits_bind_vertexBuffers (vbs : list VertexBuffer) (i : nat) :
  emits is_setup (bind_vertexBuffers i vbs).
Proof.
  revert i. induction vbs as [|vb vbs IH]; intros i; cbn [bind_vertexBuffers];
    [apply emits_ret|].
  apply emits_bind; [apply emits_bind_vertexBuffer|]. intros _. apply IH.
Qed.

Lemma emits_bind_indexBuffer (ib : option IndexBuffer) : emits is_setup (bind_indexBuffer ib).
Proof.
  destruct ib as [ib|]; cbn [bind_indexBuffer]; [|apply emits_ret].
  apply emits_bind.
  - apply emits_cached; [|discriminate].
    apply emits_bind; [apply emits_createBuffer|]. intros b. apply emits_ret.
  - intros buffer. emits_solve.
Qed.

(** Every draw call is one call, the same in every state. *)
Lemma draw_node_call (node : Mesh) :
  exists d, is_draw d = true
    /\ forall w, draw_node node w = (tt, with_trace (trace w ++ [d]) w).
Proof.
  unfold draw_node. destruct (indexBuffer (geometry node)) as [ib|].
  - eexists. split; [|intros w; reflexivity]. reflexivity.
  - destruct (vertexBuffers (geometry node)) as [|position rest];
      (eexists; split; [|intros w; reflexivity]); reflexivity.
Qed.

Lemma bind_get {A B} (g : World -> A) (f : A -> M B) (w : World) :
  bind (get g) f w = f (g w) w.
Proof. reflexivity. Qed.

Lemma bind_emit {B} (e : Event) (f : unit -> M B) (w : World) :
  bind (emit e) f w = f tt (with_trace (trace w ++ [e]) w).
Proof. reflexivity. Qed.

Lemma bind_allocate {B} (f : Handle -> M B) (w : World) :
  bind allocate f w = f (nextHandle w) (with_nextHandle (S (nextHandle w)) w).
Proof. reflexivity. Qed.

Lemma World_eq (w w' : World) :
  canvas_width w = canvas_width w' -> canvas_height w = canvas_height w' ->
  format w = format w' -> autoClear w = autoClear w' -> samples w = samples w' ->
  _msaaTexture w = _msaaTexture w' -> _msaaTextureView w = _msaaTextureView w' ->
  _depthTexture w = _depthTexture w' -> _depthTextureView w = _depthTextureView w' ->
  _cacheMap w = _cacheMap w' -> needsUpdate w = needsUpdate w' -> floats w = floats w' ->
  nextHandle w = nextHandle w' -> trace w = trace w' -> w = w'.
Proof. destruct w, w'; cbn; intros; subst; reflexivity. Qed.

Ltac world_fields :=
  cbn [canvas_width canvas_height format autoClear samples _msaaTexture _msaaTextureView
       _depthTexture _depthTextureView _cacheMap needsUpdate floats nextHandle trace
       with_trace with_nextHandle with_cacheMap with_needsUpdate with_floats with_canvas
       with_msaa with_depth with_samples with_autoClear].

Ltac world_eq := apply World_eq; world_fields; try reflexivity.

Section FrameCalls.
Variable JSON_stringify : PipelineOption -> string.
Variable Mat4_multiply : Mat4 -> Mat4 -> Mat4.
Variable Mat3_normalFromMat4 : list Q -> Mat4 -> list Q.
Variable Vec3_transformMat4 : Vec3 -> Mat4 -> Vec3.

Local Abbreviation updatePipeline :=
  (_updatePipeline JSON_stringify Mat4_multiply Mat3_normalFromMat4).
Local Abbreviation nodes := (render_nodes JSON_stringify Mat4_multiply Mat3_normalFromMat4).
Local Abbreviation frame :=
  (render JSON_stringify Mat4_multiply Mat3_normalFromMat4 Vec3_transformMat4).

Lemma emits_uniform_setup (mesh : Mesh) (camera : Camera) :
  emits is_setup (uniform_setup Mat4_multiply Mat3_normalFromMat4 mesh camera).
Proof.
  unfold uniform_setup. apply emits_bind.
  - apply emits_cached; [|discriminate]. unfold create_layout. emits_solve.
  - intros layout. apply emits_bind; [|intros _; apply emits_ret].
    unfold update_base. destruct (cached_uniforms layout) as [|[k [bo|]| | |] us]; emits_solve.
Qed.

Lemma emits_resolve_pipeline (mesh : Mesh) (bgl : Handle) :
  emits is_setup (resolve_pipeline JSON_stringify mesh bgl).
Proof.
  unfold resolve_pipeline. apply emits_bind; [apply emits_get|]. intros samples.
  apply emits_cached.
  - unfold create_pipeline. emits_solve.
  - intros f o [= <-]. apply emits_ret.
Qed.

(** The calls of [_updatePipeline]: set-up calls, among them the binding
    of the pipeline. *)
Lemma updatePipeline_calls (mesh : Mesh) (camera : Camera) (w : World) :
  exists setup pipeline rest,
    trace (updatePipeline mesh camera w).2 = trace w ++ setup ++ SetPipeline pipeline :: rest
    /\ forallb is_setup (setup ++ rest) = true.
Proof.
  unfold _updatePipeline. do 4 rewrite bind_run.
  destruct (emits_uniform_setup mesh camera w) as (e1 & E1 & P1).
  set (r1 := uniform_setup _ _ mesh camera w) in *.
  destruct (emits_bind_uniforms (cached_uniforms r1.1) 0%nat r1.2) as (e2 & E2 & P2).
  set (r2 := bind_uniforms 0 (cached_uniforms r1.1) r1.2) in *.
  destruct (emits_resolve_pipeline mesh (cached_handle r1.1) r2.2) as (e3 & E3 & P3).
  set (r3 := resolve_pipeline _ mesh (cached_handle r1.1) r2.2) in *.
  set (w4 := (emit (SetPipeline (cached_handle r3.1)) r3.2).2).
  assert (E4 : trace w4 = trace r3.2 ++ [SetPipeline (cached_handle r3.1)]) by reflexivity.
  assert (Hrest : emits is_setup
            (do _ <- bind_indexBuffer (indexBuffer (geometry mesh));
             do _ <- bind_vertexBuffers 0 (vertexBuffers (geometry mesh));
             if (length r2.1 =? 0)%nat then ret tt
             else do bindGroup <- allocate;
                  do _ <- emit (CreateBindGroup bindGroup (cached_handle r1.1) r2.1);
                  emit (SetBindGroup 0 bindGroup))).
  { apply emits_bind; [apply emits_bind_indexBuffer|]. intros _.
    apply emits_bind; [apply emits_bind_vertexBuffers|]. intros _.
    emits_solve. }
  destruct (Hrest w4) as (e5 & E5 & P5).
  exists (e1 ++ e2 ++ e3), (cached_handle r3.1), e5. split.
  - rewrite E5, E4, E3, E2, E1.
    rewrite <- !app_assoc. reflexivity.
  - rewrite !forallb_app. now rewrite P1, P2, P3, P5.
Qed.

Lemma render_nodes_calls (l : list Mesh) (camera : Camera) (w : World) :
  exists segments,
    trace (nodes l camera w).2 = trace w ++ concat segments
    /\ Forall2 (fun node segment =>
         exists setup pipeline rest d,
           segment = setup ++ SetPipeline pipeline :: rest ++ [d]
           /\ forallb is_setup (setup ++ rest) = true
           /\ is_draw d = true
           /\ forall w1, draw_node node w1 = (tt, with_trace (trace w1 ++ [d]) w1))
       l segments.
Proof.
  revert w. induction l as [|node l IH]; intros w.
  - exists []. split; [symmetry; apply app_nil_r | constructor].
  - cbn [render_nodes]. rewrite !bind_run.
    destruct (updatePipeline_calls node camera w) as (setup & p & rest & E1 & P1).
    destruct (draw_node_call node) as (d & Hd & Hdraw).
    set (w1 := (updatePipeline node camera w).2) in *.
    rewrite (Hdraw w1). cbn [fst snd].
    destruct (IH (with_trace (trace w1 ++ [d]) w1)) as (segments & E & F).
    exists ((setup ++ SetPipeline p :: rest ++ [d]) :: segments). split.
    + rewrite E. cbn [trace with_trace concat]. rewrite E1, <- !app_assoc.
      cbn [app]. rewrite <- !app_assoc. reflexivity.
    + constructor; [|exact F]. exists setup, p, rest, d. auto.
Qed.

(** The state in which the meshes of a frame are set up and drawn. *)
Lemma render_unfold (scene : Object3D) (camera : Camera) (w : World) :
  let w0 := frame_start w in
  let w1 := with_trace (trace w0 ++ pass_prologue w0)
              (with_nextHandle (S (S (nextHandle w0))) w0) in
  let w2 := (nodes (sort Mat4_multiply Vec3_transformMat4 scene (Some camera))
               (sort_camera Mat4_multiply camera) w1).2 in
  frame scene camera w
  = (tt, with_trace (trace w2 ++ [EndPass; Submit (S (nextHandle w0))]) w2).
Proof.
  intros w0 w1 w2. unfold render. do 3 rewrite bind_run. cbn [get fst snd].
  assert (E0 : ((if bool_decide (option_map tex_sampleCount (_msaaTexture w) = Some (samples w))
                 then ret tt else _resizeSwapchain) w).2 = w0).
  { unfold w0, frame_start. now destruct (bool_decide _). }
  rewrite E0. clearbody w0. clear E0.
  unfold bind, get, allocate, emit at 1 2 3 4.
  cbn [fst snd].
  match goal with
  | |- (let '(_, _) := nodes ?l ?c ?ws in _) = _ => assert (Ew : ws = w1)
  end.
  { unfold w1, pass_prologue. world_eq. rewrite <- !app_assoc. reflexivity. }
  rewrite Ew. unfold w2. destruct (nodes _ _ w1) as [[] ws'].
  unfold emit. cbn [fst snd]. f_equal. world_eq. rewrite <- !app_assoc. reflexivity.
Qed.

(** X1. A frame is: the re-creation of the render targets when the sample
    count has changed, the four calls that open the pass (current texture
    view, command encoder, render pass on the MSAA view resolving into the
    current texture, viewport of the canvas size), then for every visible
    mesh, in the order [sort] gives, set-up calls among which the binding of
    its pipeline, ended by exactly one draw call, the one [draw_node] issues
    for that mesh; then the end of the pass and the submission of the
    frame's encoder. *)
Theorem frame_calls_in_sort_order (scene : Object3D) (camera : Camera) (w : World) :
  let w0 := frame_start w in
  exists segments,
    trace (frame scene camera w).2
    = trace w0 ++ pass_prologue w0 ++ concat segments
      ++ [EndPass; Submit (S (nextHandle w0))]
    /\ Forall2 (fun node segment =>
         exists setup pipeline rest d,
           segment = setup ++ SetPipeline pipeline :: rest ++ [d]
           /\ forallb is_setup (setup ++ rest) = true
           /\ is_draw d = true
           /\ forall w1, draw_node node w1 = (tt, with_trace (trace w1 ++ [d]) w1))
       (sort Mat4_multiply Vec3_transformMat4 scene (Some camera)) segments.
Proof.
  intros w0. rewrite render_unfold. fold w0. cbn [snd trace with_trace].
  match goal with
  | |- context [nodes ?l ?c ?ws] =>
      destruct (render_nodes_calls l c ws) as (segments & E & F)
  end.
  exists segments. split; [|exact F].
  rewrite E. cbn [trace with_trace]. rewrite <- !app_assoc. reflexivity.
Qed.
End FrameCalls.

(** ** Materializer *)

(** After a lookup the sampler is the one stored under its descriptor and
    the flag of the descriptor is down. *)
Lemma updateSampler_cases (k : Key) (descriptor : string) (w : World) :
  let r := _updateSampler k descriptor w in
  _cacheMap r.2 !! k = Some r.1 /\ truthy (needsUpdate r.2 !! k) = false.
Proof.
  unfold _updateSampler.
  destruct (_cacheMap w !! k) as [o|] eqn:Hk.
  - destruct (truthy (needsUpdate w !! k)) eqn:Hf.
    + rewrite (cached_hit_stale _ _ _ _ _ Hk); [|exact Hf].
      cbn. now rewrite !lookup_insert_eq.
    + rewrite (cached_hit_fresh _ _ _ _ _ Hk); [|exact Hf]. cbn. auto.
  - rewrite (cached_miss _ _ _ _ Hk). cbn. now rewrite !lookup_insert_eq.
Qed.

(** X2. Once a sampler has been looked up, looking it up again returns the
    same GPU sampler and changes nothing, whatever descriptor it now
    carries: a sampler is re-created only after its [needsUpdate] flag has
    been set again. *)
Theorem updateSampler_idempotent (k : Key) (descriptor descriptor' : string) (w : World) :
  let r := _updateSampler k descriptor w in
  _updateSampler k descriptor' r.2 = r.
Proof.
  intros r. destruct (updateSampler_cases k descriptor w) as [Hk Hf]. fold r in Hk, Hf.
  clearbody r. unfold _updateSampler.
  rewrite (cached_hit_fresh _ _ _ _ _ Hk); [|exact Hf]. now destruct r.
Qed.

Lemma updateTexture_cases (k : Key) (descriptor : TextureDescriptor) (image : option Key)
    (w : World) :
  let r := _updateTexture k descriptor image w in
  _cacheMap r.2 !! k = Some r.1 /\ truthy (needsUpdate r.2 !! k) = false.
Proof.
  unfold _updateTexture.
  destruct (_cacheMap w !! k) as [o|] eqn:Hk.
  - destruct (truthy (needsUpdate w !! k)) eqn:Hf.
    + rewrite (cached_hit_stale _ _ _ _ _ Hk);
        [|unfold stale_texture, bind, get; now rewrite Hf].
      destruct image; cbn; now rewrite !lookup_insert_eq.
    + rewrite (cached_hit_fresh _ _ _ _ _ Hk);
        [|unfold stale_texture, bind, get; now rewrite Hf].
      unfold stale_texture, bind, get. rewrite Hf. cbn. auto.
  - rewrite (cached_miss _ _ _ _ Hk). destruct image; cbn; now rewrite !lookup_insert_eq.
Qed.

(** X3. Once a texture has been looked up, looking it up again returns the
    same GPU texture, destroys nothing and uploads nothing, whatever
    descriptor and image it now carries: a texture is re-created only after
    its [needsUpdate] flag has been set again. *)
Theorem updateTexture_idempotent (k : Key) (descriptor descriptor' : TextureDescriptor)
    (image image' : option Key) (w : World) :
  let r := _updateTexture k descriptor image w in
  _updateTexture k descriptor' image' r.2 = r.
Proof.
  intros r. destruct (updateTexture_cases k descriptor image w) as [Hk Hf]. fold r in Hk, Hf.
  clearbody r. unfold _updateTexture.
  assert (Hs : stale_texture k r.1 r.2 = (false, r.2))
    by (unfold stale_texture, bind, get; now rewrite Hf).
  rewrite (cached_hit_fresh _ _ _ _ _ Hk); rewrite Hs; [|reflexivity].
  now destruct r.
Qed.

(** The usage of every texture made for a binding: what the descriptor asks
    for, with [TEXTURE_BINDING], [RENDER_ATTACHMENT], [COPY_SRC] and
    [COPY_DST] added. *)
Lemma texture_usage_bits (u : Z) :
  Z.lor (Z.lor (Z.lor (Z.lor u GPUTextureUsage_TEXTURE_BINDING)
                  GPUTextureUsage_RENDER_ATTACHMENT)
           GPUTextureUsage_COPY_SRC)
    GPUTextureUsage_COPY_DST
  = Z.lor u 23.
Proof. rewrite <- !Z.lor_assoc. reflexivity. Qed.

(** X4. A cached texture whose [needsUpdate] flag is set is replaced at its
    next lookup: the old GPU texture is destroyed, then a new one is created
    (in the descriptor's format, or the renderer's when it has none; with
    the descriptor's usage and the four usages every bound texture gets),
    then the image, if there is one, is copied into it; the new texture
    takes the place of the old one in the cache and the flag is cleared. *)
Theorem updateTexture_replaces_flagged (k : Key) (descriptor : TextureDescriptor)
    (image : option Key) (w : World) (o : Cached) :
  _cacheMap w !! k = Some o ->
  needsUpdate w !! k = Some true ->
  let target := nextHandle w in
  let r := _updateTexture k descriptor image w in
  r.1 = CObject target ""
  /\ trace r.2
     = trace w
       ++ [DestroyTexture (cached_handle o);
           CreateTexture target (default (format w) (td_format descriptor))
             (td_size descriptor) (Z.lor (default 0%Z (td_usage descriptor)) 23) None]
       ++ match image with
          | Some source => [CopyExternalImageToTexture source target (td_size descriptor)]
          | None => []
          end
  /\ _cacheMap r.2 = <[k := CObject target ""]> (_cacheMap w)
  /\ needsUpdate r.2 = <[k := false]> (needsUpdate w)
  /\ nextHandle r.2 = S target.
Proof.
  intros Hk Hf target r. subst r. unfold _updateTexture.
  assert (Hs : stale_texture k o w
               = (true, with_trace (trace w ++ [DestroyTexture (cached_handle o)]) w)).
  { unfold stale_texture, bind, get. now rewrite Hf. }
  rewrite (cached_hit_stale _ _ _ _ _ Hk); rewrite Hs; [|reflexivity].
  cbn [snd]. unfold create_texture. rewrite <- texture_usage_bits.
  destruct image; cbn; rewrite <- ?app_assoc; repeat split; reflexivity.
Qed.

(** X4, on the sample texture after a first frame. *)
Lemma updateTexture_replaces_flagged_witness :
  let k := KObj 50 in
  let descriptor := {| td_format := None; td_usage := None; td_size := [1; 1]%Z |} in
  let w1 := (_updateTexture k descriptor (Some (KObj 51)) ex_world).2 in
  let w := mark_dirty k w1 in
  new_events w (_updateTexture k descriptor (Some (KObj 51)) w).2
  = [DestroyTexture 4; CreateTexture 5 "bgra8unorm" [1; 1]%Z 23 None;
     CopyExternalImageToTexture (KObj 51) 5 [1; 1]%Z].
Proof.
  intros k descriptor w1 w.
  pose proof (proj1 (proj2 (updateTexture_replaces_flagged k descriptor (Some (KObj 51)) w
                              (CObject 4 "") ltac:(vm_compute; reflexivity)
                              ltac:(vm_compute; reflexivity)))) as H.
  unfold new_events. rewrite H. rewrite drop_app_length. reflexivity.
Defined.

(** X5. Binding a vertex buffer: a buffer that is not cached yet is created
    (vertex, copy-destination and storage usage) and written once in full by
    its creation; a cached buffer is written once, at the byte offset of its
    array, when its [needsUpdate] flag is set, and not at all otherwise. In
    every case the buffer is then bound to its slot, the flag is down and
    the buffer is the one cached. *)
Theorem vertexBuffer_written_at_most_once (i : nat) (vb : VertexBuffer) (w : World) :
  let data := vb_buffer vb in
  let r := bind_vertexBuffer i vb w in
  exists buffer,
    trace r.2
    = trace w
      ++ match _cacheMap w !! vb_key vb with
         | None =>
             [CreateBuffer buffer None (ta_byteLength data) 168;
              WriteBuffer buffer 0 (ta_key data) (ta_byteLength data)]
         | Some _ =>
             if truthy (needsUpdate w !! vb_key vb)
             then [WriteBuffer buffer (ta_byteOffset data) (ta_key data) (ta_byteLength data)]
             else []
         end
      ++ [SetVertexBuffer i buffer]
    /\ cached_handle <$> _cacheMap r.2 !! vb_key vb = Some buffer
    /\ truthy (needsUpdate r.2 !! vb_key vb) = false.
Proof.
  intros data r. subst r data. unfold bind_vertexBuffer. rewrite bind_run.
  destruct (_cacheMap w !! vb_key vb) as [o|] eqn:Hk.
  - rewrite (cached_hit _ _ _ _ Hk). cbn [fst snd]. exists (cached_handle o).
    unfold needsUpdate_truthy, bind, get.
    destruct (truthy (needsUpdate w !! vb_key vb)) eqn:Hf; cbn.
    + rewrite Hk, lookup_insert_eq, <- app_assoc. auto.
    + rewrite Hk, Hf. auto.
  - rewrite (cached_miss _ _ _ _ Hk). exists (nextHandle w).
    unfold needsUpdate_truthy, bind, get. cbn.
    rewrite !lookup_insert_eq. cbn. rewrite !lookup_insert_eq, <- !app_assoc. auto.
Qed.

(** X6. Binding an index buffer: it is created (index, copy-destination and
    storage usage) and written in full the first time, and after that it is
    only bound, as [uint16] for 2-byte elements and [uint32] for 4-byte
    ones; no flag is read and none is changed, so an index buffer is never
    written again. *)
Theorem indexBuffer_created_once (ib : IndexBuffer) (w : World) :
  let data := ib_buffer ib in
  let r := bind_indexBuffer (Some ib) w in
  exists buffer,
    trace r.2
    = trace w
      ++ match _cacheMap w !! ib_key ib with
         | None =>
             [CreateBuffer buffer None (ta_byteLength data) 152;
              WriteBuffer buffer 0 (ta_key data) (ta_byteLength data)]
         | Some _ => []
         end
      ++ [SetIndexBuffer buffer ("uint" +:+ decimal_Z (BYTES_PER_ELEMENT data * 8))]
    /\ cached_handle <$> _cacheMap r.2 !! ib_key ib = Some buffer
    /\ needsUpdate r.2 = needsUpdate w
    /\ (BYTES_PER_ELEMENT data = 2%Z ->
        "uint" +:+ decimal_Z (BYTES_PER_ELEMENT data * 8) = "uint16")
    /\ (BYTES_PER_ELEMENT data = 4%Z ->
        "uint" +:+ decimal_Z (BYTES_PER_ELEMENT data * 8) = "uint32").
Proof.
  intros data r. subst r data. unfold bind_indexBuffer. rewrite bind_run.
  destruct (_cacheMap w !! ib_key ib) as [o|] eqn:Hk.
  - rewrite (cached_hit _ _ _ _ Hk). cbn [fst snd]. exists (cached_handle o).
    cbn. rewrite Hk. repeat split; try (intros ->; reflexivity).
  - rewrite (cached_miss _ _ _ _ Hk). exists (nextHandle w). cbn.
    rewrite lookup_insert_eq, <- !app_assoc. repeat split; try (intros ->; reflexivity).
Qed.

(** ** Bindings *)

Lemma bind_uniform_entry (i : nat) (v : Uniform) (w : World) :
  bge_binding (bind_uniform i v w).1 = i
  /\ resource_kind (bge_resource (bind_uniform i v w).1) = le_kind (layout_entry i v).
Proof.
  destruct v as [k value|k d image|k d|k d]; cbn [bind_uniform layout_entry le_kind];
    repeat (rewrite bind_run); cbn [ret fst bge_binding bge_resource resource_kind];
    repeat match goal with
           | |- context [if ?b then _ else _] => destruct b
           end; repeat (rewrite bind_run); cbn; auto.
Qed.

Lemma bind_uniforms_entries (us : list Uniform) (i : nat) (w : World) :
  Forall2 (fun entry e =>
             le_binding entry = bge_binding e
             /\ le_kind entry = resource_kind (bge_resource e))
    (imap (fun j => layout_entry (i + j)) us) (bind_uniforms i us w).1.
Proof.
  revert i w. induction us as [|v us IH]; intros i w; cbn [bind_uniforms].
  - constructor.
  - rewrite imap_cons. do 2 rewrite bind_run. cbn [ret fst].
    constructor.
    + rewrite Nat.add_0_r. destruct (bind_uniform_entry i v w) as [H1 H2].
      rewrite H1, H2. destruct v; auto.
    + specialize (IH (S i) (bind_uniform i v w).2).
      erewrite imap_ext; [exact IH|].
      intros j x _. cbn. f_equal. lia.
Qed.

(** X7. The entries [_updatePipeline] puts in the bind group of a mesh
    agree, one by one, with the entries of the bind-group layout made from
    the same uniform list: the same binding number (the position in the
    list, the base block being binding 0) and a resource of the declared
    kind (a buffer for a buffer binding, a texture view for a texture or
    external-texture binding, a sampler for a sampler binding). *)
Theorem bind_group_entries_match_layout (us : list Uniform) (w : World) :
  Forall2 (fun entry e =>
             le_binding entry = bge_binding e
             /\ le_kind entry = resource_kind (bge_resource e))
    (imap layout_entry us) (bind_uniforms 0 us w).1.
Proof. exact (bind_uniforms_entries us 0 w). Qed.

Section Snapshot.
Variable JSON_stringify : PipelineOption -> string.
Variable Mat4_multiply : Mat4 -> Mat4 -> Mat4.
Variable Mat3_normalFromMat4 : list Q -> Mat4 -> list Q.

Local Abbreviation updatePipeline :=
  (_updatePipeline JSON_stringify Mat4_multiply Mat3_normalFromMat4).

(** X8. The uniform list of a material is read once: when its layout is
    cached (under the [uniforms] array) and the application has not
    assigned to the fields of the uniform objects the layout holds,
    [_updatePipeline] binds the objects captured when the layout was made.
    After elements of [material.uniforms] have been replaced by other
    objects the mesh is set up exactly as before the change. *)
Theorem cached_layout_ignores_new_uniforms (mesh : Mesh) (camera : Camera)
    (us : list Uniform) (w : World) (layout : Cached) :
  _cacheMap w !! uniforms_key (material mesh) = Some layout ->
  objects_as_cached layout (uniforms (material mesh)) ->
  objects_as_cached layout us ->
  updatePipeline (with_material_uniforms us mesh) camera w = updatePipeline mesh camera w.
Proof.
  intros Hk _ _.
  assert (E : uniform_setup Mat4_multiply Mat3_normalFromMat4
                (with_material_uniforms us mesh) camera w
              = uniform_setup Mat4_multiply Mat3_normalFromMat4 mesh camera w).
  { unfold uniform_setup. rewrite !(bind_run (_cached _ _ _)).
    cbn [with_material_uniforms material uniforms_key].
    rewrite !(cached_hit _ _ _ _ Hk). unfold update_base, write_base.
    cbn [with_material_uniforms matrix]. reflexivity. }
  unfold _updatePipeline.
  rewrite (bind_run (uniform_setup _ _ (with_material_uniforms us mesh) _)).
  rewrite (bind_run (uniform_setup _ _ mesh _)).
  rewrite E.
  unfold resolve_pipeline, create_pipeline, pipelineOption.
  cbn [with_material_uniforms material geometry mesh_key shaderCode transparent cullMode
       depthTest depthWrite blending].
  reflexivity.
Qed.
End Snapshot.

(** X8, on a mesh whose texture binding is replaced by another texture
    (key 70 for key 50) after its first frame: the second frame makes the
    same calls as it would without the change, and the new texture is never
    created. *)
Lemma cached_layout_ignores_new_uniforms_witness :
  let mesh := ex_textured_mesh 50 in
  let mesh' := ex_textured_mesh 70 in
  let w := (_updatePipeline JSON_stringify_std Mat4_multiply_std Mat3_normalFromMat4_std
              mesh ex_camera ex_world).2 in
  mesh' = with_material_uniforms (uniforms (material mesh')) mesh
  /\ _updatePipeline JSON_stringify_std Mat4_multiply_std Mat3_normalFromMat4_std
       mesh' ex_camera w
     = _updatePipeline JSON_stringify_std Mat4_multiply_std Mat3_normalFromMat4_std
         mesh ex_camera w
  /\ _cacheMap w !! KObj 50 = Some (CObject 9 "")
  /\ _cacheMap (_updatePipeline JSON_stringify_std Mat4_multiply_std Mat3_normalFromMat4_std
                  mesh' ex_camera w).2 !! KObj 70 = None.
Proof.
  intros mesh mesh' w. split; [reflexivity|]. split; [|split; vm_compute; reflexivity].
  set (layout := CLayout (UBuffer (KNew 5)
                            (SrcTyped {| ta_key := KNew 4; BYTES_PER_ELEMENT := 4;
                                         ta_length := 80; ta_byteOffset := 0 |})
                          :: uniforms (material mesh)) 6).
  assert (Hown : objects_as_cached layout (uniforms (material mesh))).
  { intros u c Hu Hc Hkey. cbn in Hu, Hc.
    destruct Hu as [<-|[<-|[<-|[]]]]; destruct Hc as [<-|[<-|[<-|[<-|[]]]]];
      first [reflexivity | discriminate Hkey]. }
  assert (Hnew : objects_as_cached layout (uniforms (material mesh'))).
  { intros u c Hu Hc Hkey. cbn in Hu, Hc.
    destruct Hu as [<-|[<-|[<-|[]]]]; destruct Hc as [<-|[<-|[<-|[<-|[]]]]];
      first [reflexivity | discriminate Hkey]. }
  exact (cached_layout_ignores_new_uniforms JSON_stringify_std Mat4_multiply_std
           Mat3_normalFromMat4_std mesh ex_camera (uniforms (material mesh')) w
           layout ltac:(vm_compute; reflexivity) Hown Hnew).
Defined.

Section Rebuild.
Variable JSON_stringify : PipelineOption -> string.

(** X9. A mesh whose cached pipeline carries another fingerprint than the
    current one (any of the pipeline options has changed, the renderer's
    [samples] included) gets a new pipeline at its next set-up: a shader
    module of the patched source, a pipeline layout over the bind-group
    layout and a render pipeline labelled with the current fingerprint and
    multisampled [samples] times; it takes the place of the old pipeline in
    the cache. Nothing else changes. *)
Theorem pipeline_rebuilt_on_new_fingerprint (mesh : Mesh) (bindGroupLayout : Handle)
    (w : World) (o : Cached) :
  let option := pipelineOption (samples w) mesh in
  let key := JSON_stringify option in
  let n := nextHandle w in
  _cacheMap w !! mesh_key mesh = Some o ->
  cached_label o <> key ->
  resolve_pipeline JSON_stringify mesh bindGroupLayout w
  = (CObject (2 + n) key,
     with_cacheMap (<[mesh_key mesh := CObject (2 + n) key]> (_cacheMap w))
       (with_trace
          (trace w
           ++ [CreateShaderModule n
                 (patch_shader (shaderCode (material mesh)) (vertexBuffers (geometry mesh)));
               CreatePipelineLayout (1 + n) [bindGroupLayout];
               CreateRenderPipeline (2 + n)
                 {| rp_layout := 1 + n;
                    rp_label := key;
                    rp_module := n;
                    rp_buffers := map vb_layout (vertexBuffers (geometry mesh));
                    rp_targetFormat := format w;
                    rp_cullMode := cullMode (material mesh);
                    rp_topology := topology (geometry mesh);
                    rp_depthWriteEnabled := depthWrite (material mesh);
                    rp_depthCompare := if depthTest (material mesh) then "less" else "always";
                    rp_multisample := samples w |}])
          (with_nextHandle (3 + n) w))).
Proof.
  intros option key n Hk Hne. rewrite resolve_pipeline_unfold. cbv zeta. fold option key.
  assert (Hs : (pipeline_stale key o w).1 = true).
  { unfold pipeline_stale, ret. cbn [fst]. apply negb_true_iff.
    now apply String.eqb_neq. }
  rewrite (cached_hit_stale _ _ _ _ _ Hk Hs).
  change ((pipeline_stale key o w).2) with w.
  unfold create_pipeline, bind, allocate, emit, get, ret. cbn [fst snd].
  f_equal. apply World_eq; world_fields; try reflexivity.
  rewrite <- !app_assoc. reflexivity.
Qed.
End Rebuild.

(** X9, on the sample mesh after the application has set [samples] to 1:
    the pipeline made for four samples is replaced. *)
Lemma pipeline_rebuilt_on_new_fingerprint_witness :
  let mesh := ex_mesh 1 0%Q true false in
  let w1 := (resolve_pipeline JSON_stringify_std mesh 8 ex_world).2 in
  let w := with_samples 1 w1 in
  exists o key,
    _cacheMap w !! mesh_key mesh = Some o
    /\ cached_handle o = 6
    /\ (resolve_pipeline JSON_stringify_std mesh 8 w).1 = CObject 9 key
    /\ cached_label o <> key.
Proof.
  intros mesh w1 w.
  exists (CObject 6 (JSON_stringify_std (pipelineOption 4 mesh))),
    (JSON_stringify_std (pipelineOption 1 mesh)).
  assert (Hk : _cacheMap w !! mesh_key mesh
               = Some (CObject 6 (JSON_stringify_std (pipelineOption 4 mesh))))
    by (vm_compute; reflexivity).
  assert (Hne : cached_label (CObject 6 (JSON_stringify_std (pipelineOption 4 mesh)))
                <> JSON_stringify_std (pipelineOption (samples w) mesh))
    by (vm_compute; discriminate).
  split; [exact Hk|]. split; [reflexivity|]. split; [|exact Hne].
  exact (f_equal fst (pipeline_rebuilt_on_new_fingerprint JSON_stringify_std mesh 8 w _ Hk Hne)).
Defined.

(** ** The getters and setters of the PBR material *)

Module PBRProps.
Import PBR PBRGet.

Section Props.
Variable float32_bits : Q -> Z.
Variable setBitOfValue : Z -> nat -> bool -> Z.
Variable defaultTexture : Key.

Local Abbreviation apply := (PBR.apply float32_bits setBitOfValue defaultTexture).
Local Abbreviation constructor := (PBR.constructor float32_bits setBitOfValue defaultTexture).
Local Abbreviation reachable := (PBR.reachable float32_bits setBitOfValue defaultTexture).

Lemma view_set_lookup (k : Key) (o len i : nat) (x : Z) (h : gmap Key (list Z))
    (words : list Z) :
  h !! k = Some words -> (i < len)%nat ->
  view_set {| view_buffer := k; view_byteOffset := o; view_length := len |} i x h !! k
  = Some (<[(o / 4 + i)%nat := x]> words).
Proof.
  intros Hw Hi. unfold view_set. cbn [view_length view_buffer view_byteOffset].
  apply Nat.ltb_lt in Hi. rewrite Hi. now rewrite lookup_alter_eq, Hw.
Qed.

(** The words of [_pbrBuffer] after a setter. *)
Lemma apply_words (s : Setter) (m : PBRMaterial) (words : list Z) :
  inv m -> buffers m !! _pbrBuffer m = Some words ->
  _pbrBuffer (apply s m) = _pbrBuffer m
  /\ buffers (apply s m) !! _pbrBuffer m
     = Some match s with
            | albedo v =>
                <[2%nat := float32_bits (vz v)]>
                  (<[1%nat := float32_bits (vy v)]> (<[0%nat := float32_bits (vx v)]> words))
            | metallic v => <[3%nat := float32_bits v]> words
            | roughness v => <[4%nat := float32_bits v]> words
            | occlusion v => <[5%nat := float32_bits v]> words
            | albedoTexture v =>
                <[6%nat := uint32 (setBitOfValue (default 0%Z (words !! 6%nat)) 0
                                     (bool_decide (is_Some v)))]> words
            | occlusionRoughnessMetallicTexture v =>
                <[6%nat := uint32 (setBitOfValue (default 0%Z (words !! 6%nat)) 1
                                     (bool_decide (is_Some v)))]> words
            end.
Proof.
  intros [_ _ Ha Hp Hf _] Hw. split; [now destruct s|].
  destruct s; cbn [PBR.apply dirty_first set_flag_bit set_param with_buffers with_uniforms
                     buffers uniforms _pbrBuffer _albedo _pbrParamsValue _pbrFlag];
    rewrite ?Ha, ?Hp, ?Hf.
  - erewrite view_set_lookup; [reflexivity| |lia].
    erewrite view_set_lookup; [reflexivity| |lia].
    now erewrite view_set_lookup; [reflexivity| |lia].
  - now erewrite view_set_lookup; [reflexivity| |lia].
  - now erewrite view_set_lookup; [reflexivity| |lia].
  - now erewrite view_set_lookup; [reflexivity| |lia].
  - erewrite view_set_lookup; [|exact Hw|lia].
    unfold view_get. cbn [view_buffer view_byteOffset]. rewrite Hw. reflexivity.
  - erewrite view_set_lookup; [|exact Hw|lia].
    unfold view_get. cbn [view_buffer view_byteOffset]. rewrite Hw. reflexivity.
Qed.

(** The getters in terms of the words of [_pbrBuffer]. *)
Lemma getters_words (m : PBRMaterial) (words : list Z) :
  inv m -> buffers m !! _pbrBuffer m = Some words ->
  get_albedo m = [default 0%Z (words !! 0%nat); default 0%Z (words !! 1%nat);
                  default 0%Z (words !! 2%nat)]
  /\ get_metallic m = default 0%Z (words !! 3%nat)
  /\ get_roughness m = default 0%Z (words !! 4%nat)
  /\ get_occlusion m = default 0%Z (words !! 5%nat)
  /\ flag_word m = default 0%Z (words !! 6%nat).
Proof.
  intros [_ _ Ha Hp Hf _] Hw.
  unfold get_albedo, get_metallic, get_roughness, get_occlusion, flag_word, view_get.
  rewrite Ha, Hp, Hf. cbn [view_buffer view_byteOffset map]. rewrite Hw. repeat split.
Qed.

Lemma apply_uniforms (s : Setter) (m : PBRMaterial) :
  inv m ->
  get_albedoTexture (apply s m)
  = match s with
    | albedoTexture v => Some (Texture (default defaultTexture v))
    | _ => get_albedoTexture m
    end
  /\ get_occlusionRoughnessMetallicTexture (apply s m)
     = match s with
       | occlusionRoughnessMetallicTexture v => Some (Texture (default defaultTexture v))
       | _ => get_occlusionRoughnessMetallicTexture m
       end.
Proof.
  intros [(f & rest & Hu) Hlen _ _ _ _].
  unfold get_albedoTexture, get_occlusionRoughnessMetallicTexture.
  rewrite Hu in Hlen.
  destruct rest as [|u1 [|u2 [|u3 [|u4 [|]]]]]; try discriminate Hlen.
  destruct s; cbn [PBR.apply dirty_first set_flag_bit set_param with_buffers with_uniforms
                     buffers uniforms]; rewrite Hu; split; reflexivity.
Qed.

Ltac words_simpl Hl :=
  repeat first
    [ rewrite list_lookup_insert_ne by lia
    | rewrite list_lookup_insert_eq by (rewrite ?length_insert; lia) ];
  cbn [default].

(** X10. On every material a program can hold, a property read back after
    it has been assigned is the value assigned: the 32-bit float nearest to
    the number for [metallic], [roughness] and [occlusion], the three floats
    of the vector for [albedo], and for the two textures the texture
    assigned, or the module's default texture when [null] was assigned (the
    getter never returns [null]). *)
Theorem setter_getter_round_trip (m : PBRMaterial) :
  reachable m ->
  (forall v, get_albedo (apply (albedo v) m)
             = [float32_bits (vx v); float32_bits (vy v); float32_bits (vz v)])
  /\ (forall v, get_metallic (apply (metallic v) m) = float32_bits v)
  /\ (forall v, get_roughness (apply (roughness v) m) = float32_bits v)
  /\ (forall v, get_occlusion (apply (occlusion v) m) = float32_bits v)
  /\ (forall v, get_albedoTexture (apply (albedoTexture v) m)
                = Some (Texture (default defaultTexture v)))
  /\ (forall v, get_occlusionRoughnessMetallicTexture
                  (apply (occlusionRoughnessMetallicTexture v) m)
                = Some (Texture (default defaultTexture v))).
Proof.
  intros Hr. pose proof (PBRFacts.reachable_inv _ _ _ m Hr) as Hm.
  destruct (inv_words _ Hm) as (words & Hw & Hl).
  assert (G : forall s, exists words',
             buffers (apply s m) !! _pbrBuffer (apply s m) = Some words'
             /\ inv (apply s m)
             /\ buffers (apply s m) !! _pbrBuffer m = Some words').
  { intros s. destruct (apply_words s m words Hm Hw) as [Hk Hb].
    eexists. rewrite Hk. split; [exact Hb|]. split; [|exact Hb].
    now apply PBRFacts.inv_apply. }
  repeat split; intros v.
  - destruct (G (albedo v)) as (ws & Hws & Hi & Hb).
    destruct (getters_words _ ws Hi Hws) as (E & _). rewrite E.
    destruct (apply_words (albedo v) m words Hm Hw) as [_ Hb']. rewrite Hb in Hb'.
    injection Hb' as ->. now words_simpl Hl.
  - destruct (G (metallic v)) as (ws & Hws & Hi & Hb).
    destruct (getters_words _ ws Hi Hws) as (_ & E & _). rewrite E.
    destruct (apply_words (metallic v) m words Hm Hw) as [_ Hb']. rewrite Hb in Hb'.
    injection Hb' as ->. now words_simpl Hl.
  - destruct (G (roughness v)) as (ws & Hws & Hi & Hb).
    destruct (getters_words _ ws Hi Hws) as (_ & _ & E & _). rewrite E.
    destruct (apply_words (roughness v) m words Hm Hw) as [_ Hb']. rewrite Hb in Hb'.
    injection Hb' as ->. now words_simpl Hl.
  - destruct (G (occlusion v)) as (ws & Hws & Hi & Hb).
    destruct (getters_words _ ws Hi Hws) as (_ & _ & _ & E & _). rewrite E.
    destruct (apply_words (occlusion v) m words Hm Hw) as [_ Hb']. rewrite Hb in Hb'.
    injection Hb' as ->. now words_simpl Hl.
  - exact (proj1 (apply_uniforms (albedoTexture v) m Hm)).
  - exact (proj2 (apply_uniforms (occlusionRoughnessMetallicTexture v) m Hm)).
Qed.

(** X11. On every material a program can hold, a setter changes the
    property it sets and no other: the albedo, the three scalar parameters
    and the two textures that it does not set read back as before, and the
    flag word changes under the two texture setters only. *)
Theorem setter_leaves_other_properties (m : PBRMaterial) (s : Setter) :
  reachable m ->
  let m' := apply s m in
  ((forall v, s <> albedo v) -> get_albedo m' = get_albedo m)
  /\ ((forall v, s <> metallic v) -> get_metallic m' = get_metallic m)
  /\ ((forall v, s <> roughness v) -> get_roughness m' = get_roughness m)
  /\ ((forall v, s <> occlusion v) -> get_occlusion m' = get_occlusion m)
  /\ ((forall v, s <> albedoTexture v) -> get_albedoTexture m' = get_albedoTexture m)
  /\ ((forall v, s <> occlusionRoughnessMetallicTexture v) ->
      get_occlusionRoughnessMetallicTexture m' = get_occlusionRoughnessMetallicTexture m)
  /\ ((forall v, s <> albedoTexture v) ->
      (forall v, s <> occlusionRoughnessMetallicTexture v) -> flag_word m' = flag_word m).
Proof.
  intros Hr m'. pose proof (PBRFacts.reachable_inv _ _ _ m Hr) as Hm.
  destruct (inv_words _ Hm) as (words & Hw & Hl).
  destruct (apply_words s m words Hm Hw) as [Hk Hb]. fold m' in Hk, Hb.
  rewrite <- Hk in Hb.
  pose proof (PBRFacts.inv_apply float32_bits setBitOfValue defaultTexture s m Hm) as Hm'.
  fold m' in Hm'.
  destruct (getters_words m words Hm Hw) as (A & M & R & O & F).
  destruct (getters_words m' _ Hm' Hb) as (A' & M' & R' & O' & F').
  destruct (apply_uniforms s m Hm) as [T1 T2]. fold m' in T1, T2.
  rewrite A, M, R, O, F, A', M', R', O', F', T1, T2.
  destruct s; repeat split; intros H; try intros H2;
    try (exfalso; exact (H _ eq_refl)); try (exfalso; exact (H2 _ eq_refl));
    try reflexivity; now words_simpl Hl.
Qed.

(** The words of [_pbrBuffer] as the constructor leaves them. *)
Lemma constructor_words (options : Options) (buffer lightValues : Key) :
  let v := default (mkVec3 0 (1 # 2) 1) (opt_albedo options) in
  buffers (constructor options buffer lightValues) !! buffer
  = Some [float32_bits (vx v); float32_bits (vy v); float32_bits (vz v);
          float32_bits (default (1 # 2)%Q (opt_metallic options));
          float32_bits (default (1 # 2)%Q (opt_roughness options));
          float32_bits (default 1%Q (opt_occlusion options));
          uint32 (setBitOfValue
                    (uint32 (setBitOfValue 0 0 (bool_decide (is_Some (opt_albedoTexture options)))))
                    1 (bool_decide (is_Some (opt_occlusionRoughnessMetallicTexture options))));
          0%Z].
Proof.
  intros v. unfold PBR.constructor. cbn [buffers]. fold v.
  pose proof (lookup_singleton_eq (M := gmap Key) buffer (replicate 8 0%Z)) as H0.
  pose proof (view_set_lookup buffer 0 3 0 (float32_bits (vx v)) _ _ H0 ltac:(lia)) as H1.
  pose proof (view_set_lookup buffer 0 3 1 (float32_bits (vy v)) _ _ H1 ltac:(lia)) as H2.
  pose proof (view_set_lookup buffer 0 3 2 (float32_bits (vz v)) _ _ H2 ltac:(lia)) as H3.
  pose proof (view_set_lookup buffer 12 3 0
                (float32_bits (default (1 # 2)%Q (opt_metallic options))) _ _ H3 ltac:(lia))
    as H4.
  pose proof (view_set_lookup buffer 12 3 1
                (float32_bits (default (1 # 2)%Q (opt_roughness options))) _ _ H4 ltac:(lia))
    as H5.
  pose proof (view_set_lookup buffer 12 3 2
                (float32_bits (default 1%Q (opt_occlusion options))) _ _ H5 ltac:(lia))
    as H6.
  match type of H6 with ?h !! _ = _ => set (h6 := h) in * end.
  assert (G6 : view_get {| view_buffer := buffer; view_byteOffset := 24; view_length := 1 |}
                 0 h6 = 0%Z).
  { unfold view_get. cbn [view_buffer view_byteOffset]. rewrite H6. reflexivity. }
  rewrite G6.
  pose proof (view_set_lookup buffer 24 1 0
                (uint32 (setBitOfValue 0 0 (bool_decide (is_Some (opt_albedoTexture options)))))
                _ _ H6 ltac:(lia)) as H7.
  match type of H7 with ?h !! _ = _ => set (h7 := h) in * end.
  assert (G7 : view_get {| view_buffer := buffer; view_byteOffset := 24; view_length := 1 |}
                 0 h7
               = uint32 (setBitOfValue 0 0 (bool_decide (is_Some (opt_albedoTexture options))))).
  { unfold view_get. cbn [view_buffer view_byteOffset]. rewrite H7. reflexivity. }
  rewrite G7.
  erewrite view_set_lookup; [|exact H7|lia]. reflexivity.
Qed.

(** X12. A new material reads back the options it was constructed with, and
    for the options left out the defaults: albedo (0, 0.5, 1), metallic 0.5,
    roughness 0.5, occlusion 1 and the module's default texture for both
    textures. It has five bindings, the first of which is the buffer binding
    of [_pbrBuffer], with no [needsUpdate] flag yet. *)
Theorem constructor_stores_options_or_defaults (options : Options)
    (buffer lightValues : Key) :
  let m := constructor options buffer lightValues in
  let a := default (mkVec3 0 (1 # 2) 1) (opt_albedo options) in
  get_albedo m = [float32_bits (vx a); float32_bits (vy a); float32_bits (vz a)]
  /\ get_metallic m = float32_bits (default (1 # 2)%Q (opt_metallic options))
  /\ get_roughness m = float32_bits (default (1 # 2)%Q (opt_roughness options))
  /\ get_occlusion m = float32_bits (default 1%Q (opt_occlusion options))
  /\ get_albedoTexture m = Some (Texture (default defaultTexture (opt_albedoTexture options)))
  /\ get_occlusionRoughnessMetallicTexture m
     = Some (Texture (default defaultTexture (opt_occlusionRoughnessMetallicTexture options)))
  /\ uniforms m !! 0%nat = Some (Buffer buffer None)
  /\ length (uniforms m) = 5%nat.
Proof.
  intros m a.
  pose proof (PBRFacts.inv_constructor float32_bits setBitOfValue defaultTexture
                options buffer lightValues) as Hm.
  pose proof (constructor_words options buffer lightValues) as Hw.
  destruct (getters_words _ _ Hm Hw) as (A & M & R & O & _).
  fold m in A, M, R, O. rewrite A, M, R, O. repeat split.
Qed.

Lemma uint32_range (z : Z) : (0 <= uint32 z < 2 ^ 32)%Z.
Proof. unfold uint32. apply Z.mod_pos_bound. reflexivity. Qed.

Lemma uint32_testbit (z j : Z) :
  (0 <= j < 32)%Z -> Z.testbit (uint32 z) j = Z.testbit z j.
Proof. intros H. unfold uint32. apply Z.mod_pow2_bits_low. lia. Qed.

(** X13. On every material a program can hold, the flag word agrees with
    the textures bound: when bit 0 of [_pbrFlag[0]] is clear the albedo
    binding is the module's default texture, and when bit 1 is clear the
    occlusion-roughness-metallic binding is (so a texture the application
    supplied always has its bit set). This needs of [setBitOfValue] that it
    sets the bit it is asked to and keeps the others. *)
Theorem flag_bits_track_textures (m : PBRMaterial) :
  sets_bit setBitOfValue ->
  reachable m ->
  (Z.testbit (flag_word m) 0 = false -> get_albedoTexture m = Some (Texture defaultTexture))
  /\ (Z.testbit (flag_word m) 1 = false ->
      get_occlusionRoughnessMetallicTexture m = Some (Texture defaultTexture)).
Proof.
  intros Hbit Hr.
  assert (Hbit0 : forall value bit on, (0 <= value < 2 ^ 32)%Z -> (bit < 32)%nat ->
            Z.testbit (setBitOfValue value bit on) 0
            = if decide (0%nat = bit) then on else Z.testbit value 0)
    by (intros value bit on Hv Hb; exact (Hbit value bit on 0%nat Hv Hb ltac:(lia))).
  assert (Hbit1 : forall value bit on, (0 <= value < 2 ^ 32)%Z -> (bit < 32)%nat ->
            Z.testbit (setBitOfValue value bit on) 1
            = if decide (1%nat = bit) then on else Z.testbit value 1)
    by (intros value bit on Hv Hb; exact (Hbit value bit on 1%nat Hv Hb ltac:(lia))).
  clear Hbit.
  assert (J : (0 <= flag_word m < 2 ^ 32)%Z
              /\ (Z.testbit (flag_word m) 0 = false ->
                  get_albedoTexture m = Some (Texture defaultTexture))
              /\ (Z.testbit (flag_word m) 1 = false ->
                  get_occlusionRoughnessMetallicTexture m = Some (Texture defaultTexture)));
    [|tauto].
  induction Hr as [options buffer lightValues|s m Hr IH].
  - pose proof (PBRFacts.inv_constructor float32_bits setBitOfValue defaultTexture
                  options buffer lightValues) as Hm.
    pose proof (constructor_words options buffer lightValues) as Hw.
    destruct (getters_words _ _ Hm Hw) as (_ & _ & _ & _ & F). rewrite F.
    cbn [lookup list_lookup default]. unfold id.
    set (b0 := bool_decide (is_Some (opt_albedoTexture options))).
    set (b1 := bool_decide (is_Some (opt_occlusionRoughnessMetallicTexture options))).
    split; [apply uint32_range|]. unfold get_albedoTexture, get_occlusionRoughnessMetallicTexture.
    cbn [PBR.constructor uniforms lookup list_lookup].
    split; intros H.
    + rewrite uint32_testbit in H by lia.
      rewrite (Hbit0 _ 1%nat b1 (uint32_range _)) in H by lia.
      rewrite decide_False in H by lia.
      rewrite uint32_testbit in H by lia.
      rewrite (Hbit0 0%Z 0%nat b0) in H by lia.
      rewrite decide_True in H by reflexivity.
      subst b0. apply bool_decide_eq_false in H.
      destruct (opt_albedoTexture options); [exfalso; apply H; eauto | reflexivity].
    + rewrite uint32_testbit in H by lia.
      rewrite (Hbit1 _ 1%nat b1 (uint32_range _)) in H by lia.
      rewrite decide_True in H by reflexivity.
      subst b1. apply bool_decide_eq_false in H.
      destruct (opt_occlusionRoughnessMetallicTexture options);
        [exfalso; apply H; eauto | reflexivity].
  - destruct IH as (Hrange & H0 & H1).
    pose proof (PBRFacts.reachable_inv _ _ _ m Hr) as Hm.
    destruct (inv_words _ Hm) as (words & Hw & Hl).
    destruct (apply_words s m words Hm Hw) as [Hk Hb]. rewrite <- Hk in Hb.
    pose proof (PBRFacts.inv_apply float32_bits setBitOfValue defaultTexture s m Hm) as Hm'.
    destruct (getters_words m words Hm Hw) as (_ & _ & _ & _ & F).
    destruct (getters_words _ _ Hm' Hb) as (_ & _ & _ & _ & F').
    destruct (apply_uniforms s m Hm) as [T1 T2].
    rewrite F', T1, T2. clear F' T1 T2 Hb Hk Hm'.
    destruct s;
      try solve [repeat rewrite list_lookup_insert_ne by lia; rewrite <- F; auto];
      rewrite <- F; rewrite list_lookup_insert_eq by lia;
      change (default 0%Z (Some ?x)) with x.
    + split; [apply uint32_range|]. split; intros H.
      * rewrite uint32_testbit in H by lia.
        rewrite (Hbit0 _ 0%nat _ Hrange) in H by lia.
        rewrite decide_True in H by reflexivity.
        apply bool_decide_eq_false in H.
        destruct v; [exfalso; apply H; eauto | reflexivity].
      * rewrite uint32_testbit in H by lia.
        rewrite (Hbit1 _ 0%nat _ Hrange) in H by lia.
        rewrite decide_False in H by lia. auto.
    + split; [apply uint32_range|]. split; intros H.
      * rewrite uint32_testbit in H by lia.
        rewrite (Hbit0 _ 1%nat _ Hrange) in H by lia.
        rewrite decide_False in H by lia. auto.
      * rewrite uint32_testbit in H by lia.
        rewrite (Hbit1 _ 1%nat _ Hrange) in H by lia.
        rewrite decide_True in H by reflexivity.
        apply bool_decide_eq_false in H.
        destruct v; [exfalso; apply H; eauto | reflexivity].
Qed.

End Props.

Lemma sets_bit_std : sets_bit setBitOfValue_std.
Proof.
  intros value bit on j _ _ _. unfold setBitOfValue_std.
  rewrite Z.shiftl_1_l.
  destruct on.
  - rewrite Z.lor_spec, Z.pow2_bits_eqb by lia.
    destruct (decide (j = bit)) as [->|Hne].
    + rewrite Z.eqb_refl. apply orb_true_r.
    + replace (Z.of_nat bit =? Z.of_nat j)%Z with false by (symmetry; apply Z.eqb_neq; lia).
      apply orb_false_r.
  - rewrite Z.land_spec, Z.lnot_spec, Z.pow2_bits_eqb by lia.
    destruct (decide (j = bit)) as [->|Hne].
    + rewrite Z.eqb_refl. apply andb_false_r.
    + replace (Z.of_nat bit =? Z.of_nat j)%Z with false by (symmetry; apply Z.eqb_neq; lia).
      apply andb_true_r.
Qed.

(** X10, on the sample material: metallic set to 1 reads back as the float
    1, and the albedo texture set to [null] reads back as the default
    texture. *)
Lemma setter_getter_round_trip_witness :
  let apply := PBR.apply ex_float32_bits setBitOfValue_std (KObj 1) in
  get_metallic ex_pbr_material = 1056964608%Z
  /\ get_metallic (apply (metallic 1%Q) ex_pbr_material) = 1065353216%Z
  /\ get_albedoTexture ex_pbr_material = Some (Texture (KObj 4))
  /\ get_albedoTexture (apply (albedoTexture None) ex_pbr_material) = Some (Texture (KObj 1)).
Proof.
  intros apply.
  destruct (setter_getter_round_trip ex_float32_bits setBitOfValue_std (KObj 1)
              ex_pbr_material (reach_new _ _ _ _ _ _)) as (_ & M & _ & _ & T & _).
  split; [vm_compute; reflexivity|]. split; [exact (M 1%Q)|].
  split; [reflexivity|]. exact (T None).
Defined.

(** X11, on the sample material: assigning the roughness leaves the
    metallic parameter and the flag word as they were. *)
Lemma setter_leaves_other_properties_witness :
  let m' := PBR.apply ex_float32_bits setBitOfValue_std (KObj 1) (roughness 0%Q)
              ex_pbr_material in
  get_roughness ex_pbr_material = 1065353216%Z
  /\ get_roughness m' = 0%Z
  /\ get_metallic m' = get_metallic ex_pbr_material
  /\ flag_word m' = flag_word ex_pbr_material.
Proof.
  intros m'.
  destruct (setter_leaves_other_properties ex_float32_bits setBitOfValue_std (KObj 1)
              ex_pbr_material (roughness 0%Q) (reach_new _ _ _ _ _ _))
    as (_ & M & _ & _ & _ & _ & F).
  split; [vm_compute; reflexivity|]. split; [vm_compute; reflexivity|].
  split; [apply M; discriminate | apply F; discriminate].
Defined.

(** X13, on the sample material after its albedo texture has been set to
    [null]: bit 0 of the flag word is clear and the binding is the default
    texture. *)
Lemma flag_bits_track_textures_witness :
  let m := PBR.apply ex_float32_bits setBitOfValue_std (KObj 1) (albedoTexture None)
             ex_pbr_material in
  flag_word ex_pbr_material = 1%Z
  /\ flag_word m = 0%Z
  /\ get_albedoTexture m = Some (Texture (KObj 1)).
Proof.
  intros m. split; [vm_compute; reflexivity|]. split; [vm_compute; reflexivity|].
  apply (flag_bits_track_textures ex_float32_bits setBitOfValue_std (KObj 1) m sets_bit_std
           (reach_set _ _ _ _ _ (reach_new _ _ _ _ _ _))).
  vm_compute. reflexivity.
Defined.

End PBRProps.

(** ** The glTF texture loader *)

Module GLTFProps.
Import GLTF.

Lemma decimal_Z_inj (a b : Z) : decimal_Z a = decimal_Z b -> a = b.
Proof.
  unfold decimal_Z. intros H.
  assert (N : forall z, Z.to_int z <> Pos Nil /\ Z.to_int z <> Neg Nil).
  { intros [|p|p]; cbn; split; try discriminate;
      intros [= E]; exact (Unsigned.to_uint_nonnil p E). }
  pose proof (NilZero.isi (Z.to_int a) (proj1 (N a)) (proj2 (N a))) as Ha.
  pose proof (NilZero.isi (Z.to_int b) (proj1 (N b)) (proj2 (N b))) as Hb.
  rewrite H, Hb in Ha. injection Ha as Ha.
  rewrite <- (DecimalZ.of_to a), <- (DecimalZ.of_to b). now rewrite Ha.
Qed.

Lemma append_inj_l (p a b : string) : p +:+ a = p +:+ b -> a = b.
Proof.
  induction p as [|c p IH]; rewrite ?append_cons, ?append_nil_l; [auto|].
  intros [= H]. auto.
Qed.

(** X14. The key under which [getTexture] caches the image of a texture
    determines the image source: two sources have the same key only when
    they are the same source, so textures share a cached image exactly when
    they name the same source. *)
Theorem image_key_identifies_source (s1 s2 : Z) :
  image_key s1 = image_key s2 <-> s1 = s2.
Proof.
  split; [|now intros ->].
  unfold image_key. intros H. apply append_inj_l in H. now apply decimal_Z_inj.
Qed.

Section Loader.
Variables Image Texture Cache : Type.
Variable context_cached :
  string -> (Cache -> Result Image * Cache) -> Cache -> Result Image * Cache.
Variable getImage : Z -> LoaderContext -> Cache -> Result Image * Cache.
Variable textureFromImageData : Image -> Texture.

Local Abbreviation getTexture :=
  (GLTF.getTexture Image Texture Cache context_cached getImage textureFromImageData).

(** X15. [getTexture] rejects with "gltf texture not found" when the
    document has no [textures] array or the index is negative or not below
    the length of the array, and with "gltf texture.source is undefined"
    when the entry at the index has no [source]; in both cases nothing is
    looked up in the cache and no image is loaded (the cache is as it was).
    For an entry with a source it never rejects with a message of its own:
    it settles as the cached image load does. *)
Theorem getTexture_rejections (textureIndex : Z) (context : LoaderContext) (c : Cache) :
  (json_textures context = None ->
   getTexture textureIndex context c = (Rejected "gltf texture not found", c))
  /\ (forall textures, json_textures context = Some textures ->
      (textureIndex < 0 \/ Z.of_nat (length textures) <= textureIndex)%Z ->
      getTexture textureIndex context c = (Rejected "gltf texture not found", c))
  /\ (forall textures json, json_textures context = Some textures ->
      (0 <= textureIndex)%Z -> textures !! Z.to_nat textureIndex = Some json ->
      match source json with
      | None =>
          getTexture textureIndex context c
          = (Rejected "gltf texture.source is undefined", c)
      | Some s =>
          let r := context_cached (image_key s) (getImage s context) c in
          (getTexture textureIndex context c).2 = r.2
          /\ match r.1 with
             | Resolved image =>
                 (getTexture textureIndex context c).1
                 = Resolved (textureFromImageData image)
             | Rejected message =>
                 (getTexture textureIndex context c).1 = Rejected message
             end
      end).
Proof.
  unfold GLTF.getTexture, textures_at. split; [|split].
  - now intros ->.
  - intros textures -> [H|H].
    + apply Z.ltb_lt in H. now rewrite H.
    + destruct (textureIndex <? 0)%Z; [reflexivity|].
      rewrite (lookup_ge_None_2 textures) by lia. reflexivity.
  - intros textures json -> H0 Hj.
    apply Z.ltb_ge in H0. rewrite H0, Hj.
    destruct (source json) as [s|]; [|reflexivity].
    cbv zeta. destruct (context_cached _ _ c) as [[image|message] c']; split; reflexivity.
Qed.
End Loader.

End GLTFProps.

(** ** The textures alive on the device *)

Lemma live_snoc (w : World) (e : Event) :
  is_texture_event e = false -> live (with_trace (trace w ++ [e]) w) = live w.
Proof.
  intros H. unfold live. cbn [trace with_trace]. rewrite live_textures_app.
  destruct e; try discriminate H; reflexivity.
Qed.

Lemma calm_ret {A} (a : A) : calm (ret a).
Proof. intros w. cbn. repeat split; lia. Qed.

Lemma calm_get {A} (f : World -> A) : calm (get f).
Proof. intros w. cbn. repeat split; lia. Qed.

Lemma calm_allocate : calm allocate.
Proof. intros w. cbn. repeat split; lia. Qed.

Lemma calm_set_needsUpdate (k : Key) (b : bool) : calm (set_needsUpdate k b).
Proof. intros w. cbn. repeat split; lia. Qed.

Lemma calm_set_floats (k : Key) (v : list Q) : calm (set_floats k v).
Proof. intros w. cbn. repeat split; lia. Qed.

Lemma calm_emit (e : Event) : is_texture_event e = false -> calm (emit e).
Proof.
  intros H w. unfold emit. cbn [fst snd].
  split; [reflexivity|]. split; [cbn; lia|]. split; [reflexivity|]. now apply live_snoc.
Qed.

Lemma calm_bind {A B} (m : M A) (f : A -> M B) :
  calm m -> (forall a, calm (f a)) -> calm (bind m f).
Proof.
  intros Hm Hf w. rewrite bind_run.
  destruct (Hm w) as (C1 & N1 & F1 & L1).
  destruct (Hf (m w).1 (m w).2) as (C2 & N2 & F2 & L2).
  repeat split; [congruence|lia|congruence|congruence].
Qed.

Lemma calm_if {A} (b : bool) (m1 m2 : M A) : calm m1 -> calm m2 -> calm (if b then m1 else m2).
Proof. now destruct b. Qed.

Ltac calm_solve :=
  repeat first
    [ apply calm_ret | apply calm_get | apply calm_allocate
    | apply calm_set_needsUpdate | apply calm_set_floats
    | apply calm_emit; reflexivity
    | apply calm_if
    | apply calm_bind; [|intros ?]
    | assumption ].

Lemma calm_creator_intro (m : M Handle) (label : string) :
  calm m ->
  (forall w, nextHandle w <= (m w).1 < nextHandle (m w).2) ->
  calm_creator (bind m (fun h => ret (CObject h label))).
Proof.
  intros Hq Hr. split.
  - apply calm_bind; [exact Hq|]. intros h. apply calm_ret.
  - intros w. rewrite bind_run. cbn. apply Hr.
Qed.

Lemma calm_createBuffer (data : BufferSource) (usage : Z) (label : option string) :
  calm (_createBuffer data usage label).
Proof. unfold _createBuffer. calm_solve. Qed.

Lemma calm_create_sampler (k : Key) (descriptor : string) :
  calm_creator (create_sampler k descriptor).
Proof.
  split; [unfold create_sampler; calm_solve|]. intros w. cbn. lia.
Qed.

Lemma calm_draw_node (node : Mesh) : calm (draw_node node).
Proof.
  unfold draw_node. destruct (indexBuffer (geometry node)); [calm_solve|].
  destruct (vertexBuffers (geometry node)); calm_solve.
Qed.

Lemma hoare_bind {A B} (P : World -> Prop) (Q : A -> World -> Prop)
    (R : B -> World -> Prop) (m : M A) (f : A -> M B) :
  hoare P m Q -> (forall a, hoare (Q a) (f a) R) -> hoare P (bind m f) R.
Proof. intros Hm Hf w Hw. rewrite bind_run. apply Hf, Hm, Hw. Qed.

Lemma hoare_ret {A} (P : World -> Prop) (a : A) : hoare P (ret a) (fun _ => P).
Proof. intros w Hw. exact Hw. Qed.

Lemma hoare_weaken {A} (P P' : World -> Prop) (Q Q' : A -> World -> Prop) (m : M A) :
  hoare P' m Q' -> (forall w, P w -> P' w) -> (forall a w, Q' a w -> Q a w) -> hoare P m Q.
Proof. intros H HP HQ w Hw. apply HQ, H, HP, Hw. Qed.

Section Liveness.
Variable kind : Key -> Kind.
Hypothesis renderer_keys : renderer_keys_of_kind kind.

Local Abbreviation good := (good kind).

(** A calm computation keeps the state good. *)
Lemma calm_good {A} (m : M A) : calm m -> hoare good m (fun _ => good).
Proof.
  intros Hc w [Hwf (tm & td & Hm & Hd & Hne & Bm & Bd & Hnc) Hlive Hlay].
  destruct (Hc w) as (C & N & F & L).
  assert (Fm : _msaaTexture (m w).2 = _msaaTexture w) by (unfold renderer_fields in F; congruence).
  assert (Fd : _depthTexture (m w).2 = _depthTexture w) by (unfold renderer_fields in F; congruence).
  constructor.
  - destruct Hwf as [Hb Hi]. split.
    + intros k c Hk. rewrite C in Hk. specialize (Hb k c Hk). lia.
    + intros k1 k2 c1 c2 H1 H2. rewrite C in H1, H2. now apply Hi.
  - exists tm, td. rewrite Fm, Fd, C. repeat split; try assumption; try lia;
      intros E; now destruct (Hnc k c H).
  - intros h. rewrite L, Hlive. unfold referenced. now rewrite Fm, Fd, C.
  - intros k c. rewrite C. apply Hlay.
Qed.

(** Storing, under a key that is not a texture binding, an object that has
    just been allocated keeps the state good. *)
Lemma good_store (k : Key) (v : Cached) (ws ws' : World) :
  kind k <> KindTexture ->
  good ws ->
  _cacheMap ws' = _cacheMap ws ->
  nextHandle ws <= cached_handle v < nextHandle ws' ->
  renderer_fields ws' = renderer_fields ws ->
  live ws' = live ws ->
  Forall (uniform_of_kind kind) (cached_uniforms v) ->
  good (with_cacheMap (<[k := v]> (_cacheMap ws')) ws').
Proof.
  intros Hk [Hwf (tm & td & Hm & Hd & Hne & Bm & Bd & Hnc) Hlive Hlay] C [Lo Hi] F L Hv.
  assert (Fm : _msaaTexture ws' = _msaaTexture ws) by (unfold renderer_fields in F; congruence).
  assert (Fd : _depthTexture ws' = _depthTexture ws) by (unfold renderer_fields in F; congruence).
  constructor.
  - now apply (cache_wf_insert k v ws ws').
  - exists tm, td. cbn [_msaaTexture _depthTexture nextHandle _cacheMap with_cacheMap].
    rewrite Fm, Fd, C.
    split; [assumption|]. split; [assumption|]. split; [assumption|].
    split; [lia|]. split; [lia|].
    intros k' c. rewrite lookup_insert. destruct (decide (k = k')) as [->|Hn].
    + intros [= <-]. lia.
    + apply Hnc.
  - intros h. unfold live. cbn [trace with_cacheMap]. fold (live ws').
    rewrite L, Hlive. unfold referenced.
    cbn [_msaaTexture _depthTexture _cacheMap with_cacheMap]. rewrite Fm, Fd, C.
    split; (intros [H|[H|(k' & c & Hk' & Hc & Hh)]]; [now left | now right; left |]);
      right; right; exists k', c; (split; [assumption|]); (split; [|assumption]).
    + rewrite lookup_insert_ne; [assumption|]. now intros ->.
    + rewrite lookup_insert_ne in Hc; [assumption|]. now intros ->.
  - intros k' c. cbn [_cacheMap with_cacheMap]. rewrite C, lookup_insert.
    destruct (decide (k = k')) as [->|Hn]; [now intros [= <-] | apply Hlay].
Qed.

(** A lookup under a key that is not a texture binding, with a calm
    creation function and a calm staleness predicate. *)
Lemma good_cached (k : Key) (onCreate : M Cached) (stale : option (Cached -> M bool)) :
  kind k <> KindTexture ->
  calm_creator onCreate ->
  (forall f o, stale = Some f -> calm (f o)) ->
  (forall w, Forall (uniform_of_kind kind) (cached_uniforms (onCreate w).1)) ->
  hoare good (_cached k onCreate stale)
    (fun r w' => good w' /\ _cacheMap w' !! k = Some r).
Proof.
  intros Hk [Hcalm Hrange] Hs Hv w Hw.
  assert (Hnew : forall ws, good ws ->
            good (with_cacheMap (<[k := (onCreate ws).1]> (_cacheMap (onCreate ws).2))
                    (onCreate ws).2)
            /\ _cacheMap (with_cacheMap (<[k := (onCreate ws).1]> (_cacheMap (onCreate ws).2))
                            (onCreate ws).2) !! k = Some (onCreate ws).1).
  { intros ws Hws. destruct (Hcalm ws) as (C & N & F & L). split.
    - apply (good_store k _ ws); auto.
    - cbn. apply lookup_insert_eq. }
  destruct (_cacheMap w !! k) as [o|] eqn:Ho.
  - destruct stale as [f|].
    + pose proof (calm_good _ (Hs f o eq_refl) w Hw) as Hg.
      destruct (Hs f o eq_refl w) as (C & _).
      destruct ((f o w).1) eqn:Hf.
      * rewrite (cached_hit_stale _ _ _ _ _ Ho Hf). cbn [fst snd]. now apply Hnew.
      * rewrite (cached_hit_fresh _ _ _ _ _ Ho Hf). cbn [fst snd]. split; [exact Hg|].
        now rewrite C.
    + rewrite (cached_hit _ _ _ _ Ho). cbn [fst snd]. auto.
  - rewrite (cached_miss _ _ _ _ Ho). cbn [fst snd]. now apply Hnew.
Qed.

(** What the creation function of a texture does. *)
Lemma create_texture_effect (k : Key) (descriptor : TextureDescriptor) (image : option Key)
    (w : World) :
  let r := create_texture k descriptor image w in
  r.1 = CObject (nextHandle w) ""
  /\ nextHandle r.2 = S (nextHandle w)
  /\ _cacheMap r.2 = _cacheMap w
  /\ renderer_fields r.2 = renderer_fields w
  /\ live r.2 = live w ++ [nextHandle w].
Proof.
  unfold create_texture, live. destruct image; cbn; rewrite !live_textures_app; cbn;
    repeat split; reflexivity.
Qed.

(** What the staleness predicate of a texture does. *)
Lemma stale_texture_effect (k : Key) (o : Cached) (w : World) :
  let r := stale_texture k o w in
  r.1 = truthy (needsUpdate w !! k)
  /\ nextHandle r.2 = nextHandle w
  /\ _cacheMap r.2 = _cacheMap w
  /\ renderer_fields r.2 = renderer_fields w
  /\ live r.2
     = if truthy (needsUpdate w !! k)
       then List.filter (fun x => negb (x =? cached_handle o)%nat) (live w)
       else live w.
Proof.
  unfold stale_texture, bind, get, live.
  destruct (truthy (needsUpdate w !! k)); cbn; rewrite ?live_textures_app; cbn;
    repeat split; reflexivity.
Qed.

(** The lookup of a texture binding keeps the state good: a texture that
    is replaced is destroyed, and the one that takes its place is alive. *)
Lemma good_updateTexture (k : Key) (descriptor : TextureDescriptor) (image : option Key) :
  kind k = KindTexture ->
  hoare good (_updateTexture k descriptor image) (fun _ => good).
Proof.
  intros Hk w Hw. unfold _updateTexture.
  assert (Hnew : forall ws (dead : list Handle),
            nextHandle ws = nextHandle w -> _cacheMap ws = _cacheMap w ->
            renderer_fields ws = renderer_fields w ->
            live ws = List.filter (fun x => negb (existsb (Nat.eqb x) dead)) (live w) ->
            (forall o, _cacheMap w !! k = Some o -> dead = [cached_handle o]) ->
            (_cacheMap w !! k = None -> dead = []) ->
            good (with_cacheMap
                    (<[k := (create_texture k descriptor image ws).1]>
                       (_cacheMap (create_texture k descriptor image ws).2))
                    (create_texture k descriptor image ws).2)).
  { intros ws dead N C F L Hsome Hnone.
    destruct Hw as [Hwf (tm & td & Hm & Hd & Hne & Bm & Bd & Hnc) Hlive Hlay].
    destruct (create_texture_effect k descriptor image ws) as (R & N' & C' & F' & L').
    set (r := create_texture k descriptor image ws) in *. clearbody r.
    destruct r as [v ws']. cbn [fst snd] in *. subst v.
    assert (Fm : _msaaTexture ws' = _msaaTexture w)
      by (unfold renderer_fields in F, F'; congruence).
    assert (Fd : _depthTexture ws' = _depthTexture w)
      by (unfold renderer_fields in F, F'; congruence).
    constructor.
    - apply (cache_wf_insert k _ w ws'); cbn [cached_handle]; try assumption; try lia.
      congruence.
    - exists tm, td. cbn [_msaaTexture _depthTexture nextHandle _cacheMap with_cacheMap].
      rewrite Fm, Fd, C', C.
      split; [assumption|]. split; [assumption|]. split; [assumption|].
      split; [lia|]. split; [lia|].
      intros k' c. rewrite lookup_insert. destruct (decide (k = k')) as [->|Hn].
      + intros [= <-]. cbn [cached_handle]. lia.
      + apply Hnc.
    - intros h. unfold live. cbn [trace with_cacheMap]. fold (live ws').
      rewrite L', L, in_app_iff, filter_In. unfold referenced.
      cbn [_msaaTexture _depthTexture _cacheMap with_cacheMap]. rewrite Fm, Fd, C', C.
      rewrite Hlive. unfold referenced. split.
      + intros [[[H|[H|(k' & c & Hk' & Hc & Hh)]] Hdead]|[H|[]]].
        * now left.
        * now right; left.
        * right; right. exists k', c. split; [assumption|]. split; [|assumption].
          rewrite lookup_insert_ne; [assumption|]. intros <-.
          rewrite (Hsome _ Hc) in Hdead. cbn in Hdead. rewrite Hh, Nat.eqb_refl in Hdead.
          discriminate Hdead.
        * right; right. exists k, (CObject (nextHandle ws) ""). rewrite lookup_insert_eq.
          cbn [cached_handle]. auto.
      + assert (Hin : forall o, _cacheMap w !! k = Some o ->
                  forall x, existsb (Nat.eqb x) dead = true -> x = cached_handle o).
        { intros o Ho x Hx. rewrite (Hsome _ Ho) in Hx. cbn in Hx.
          rewrite orb_false_r in Hx. now apply Nat.eqb_eq. }
        assert (Hx : forall x, existsb (Nat.eqb x) dead = true ->
                  exists o, _cacheMap w !! k = Some o /\ x = cached_handle o).
        { intros x Hx. destruct (_cacheMap w !! k) as [o|] eqn:Ho.
          - exists o. split; [reflexivity|]. now apply (Hin o).
          - rewrite (Hnone eq_refl) in Hx. discriminate Hx. }
        intros [H|[H|(k' & c & Hk' & Hc & Hh)]].
        * left. split; [now left|]. apply negb_true_iff.
          destruct (existsb (Nat.eqb h) dead) eqn:E; [|reflexivity].
          destruct (Hx _ E) as (o & Ho & ->). destruct H as (t & Ht & Hh).
          rewrite Hm in Ht. injection Ht as <-. destruct (Hnc _ _ Ho). congruence.
        * left. split; [now right; left|]. apply negb_true_iff.
          destruct (existsb (Nat.eqb h) dead) eqn:E; [|reflexivity].
          destruct (Hx _ E) as (o & Ho & ->). destruct H as (t & Ht & Hh).
          rewrite Hd in Ht. injection Ht as <-. destruct (Hnc _ _ Ho). congruence.
        * rewrite lookup_insert in Hc. destruct (decide (k = k')) as [<-|Hn].
          -- injection Hc as <-. cbn [cached_handle] in Hh. right. left. lia.
          -- left. split; [right; right; eauto|]. apply negb_true_iff.
             destruct (existsb (Nat.eqb h) dead) eqn:E; [|reflexivity].
             destruct (Hx _ E) as (o & Ho & ->). exfalso. apply Hn.
             destruct Hwf as [_ Hinj]. exact (Hinj _ _ _ _ Ho Hc (eq_sym Hh)).
    - intros k' c. cbn [_cacheMap with_cacheMap]. rewrite C', C, lookup_insert.
      destruct (decide (k = k')) as [->|Hn]; [intros [= <-]; constructor | apply Hlay]. }
  destruct (_cacheMap w !! k) as [o|] eqn:Ho.
  - destruct (stale_texture_effect k o w) as (S1 & N & C & F & L).
    destruct (truthy (needsUpdate w !! k)) eqn:Hf.
    + rewrite (cached_hit_stale _ _ _ _ _ Ho S1). cbn [snd].
      apply (Hnew _ [cached_handle o]); try assumption.
      * rewrite L. apply filter_ext. intros x. cbn. now rewrite orb_false_r.
      * now intros o' [= <-].
      * discriminate.
    + rewrite (cached_hit_fresh _ _ _ _ _ Ho S1). cbn [snd].
      replace ((stale_texture k o w).2) with w; [exact Hw|].
      unfold stale_texture, bind, get. now rewrite Hf.
  - rewrite (cached_miss _ _ _ _ Ho). cbn [snd].
    apply (Hnew _ []); try reflexivity; try discriminate.
    clear. induction (live w) as [|x l IH]; [reflexivity|]. cbn. f_equal. exact IH.
Qed.


(** Re-creating the render targets keeps the state good: the old targets
    are destroyed and the new ones are alive. *)
Lemma good_resizeSwapchain : hoare good _resizeSwapchain (fun _ => good).
Proof.
  intros w [Hwf (tm & td & Hm & Hd & Hne & Bm & Bd & Hnc) Hlive Hlay].
  destruct (resizeSwapchain_effect w) as (Ht & Hm' & Hd' & Hn & _).
  destruct (quiet_resizeSwapchain w) as [C _].
  set (w' := (_resizeSwapchain w).2) in *. clearbody w'.
  assert (L : live w'
              = List.filter (fun x => negb (x =? tex_handle td)%nat)
                  (List.filter (fun x => negb (x =? tex_handle tm)%nat) (live w)
                   ++ [nextHandle w])
                ++ [S (S (nextHandle w))]).
  { unfold live. rewrite Ht, live_textures_app. unfold resize_events.
    rewrite Hm, Hd. reflexivity. }
  destruct Hwf as [Hb Hi].
  constructor.
  - split.
    + intros k c Hk. rewrite C in Hk. specialize (Hb _ _ Hk). lia.
    + intros k1 k2 c1 c2 H1 H2. rewrite C in H1, H2. now apply Hi.
  - eexists _, _. rewrite Hm', Hd', Hn, C.
    split; [reflexivity|]. split; [reflexivity|]. cbn [tex_handle].
    split; [lia|]. split; [lia|]. split; [lia|].
    intros k c Hk. specialize (Hb _ _ Hk). lia.
  - intros h. rewrite L. unfold referenced. rewrite Hm', Hd', C.
    rewrite in_app_iff, filter_In, in_app_iff, filter_In, Hlive. unfold referenced.
    rewrite Hm, Hd. cbn [In tex_handle]. split.
    + intros [[[[[H|[H|(k & c & Hk & Hc & Hh)]] N1]|[H|[]]] N2]|[H|[]]].
      * destruct H as (t & [= <-] & <-). now rewrite Nat.eqb_refl in N1.
      * destruct H as (t & [= <-] & <-). now rewrite Nat.eqb_refl in N2.
      * right; right. eauto.
      * left. eauto.
      * right; left. eauto.
    + intros [(t & [= <-] & <-)|[(t & [= <-] & <-)|(k & c & Hk & Hc & Hh)]]; cbn [tex_handle].
      * left. split; [now right; left|]. apply negb_true_iff, Nat.eqb_neq. lia.
      * right. now left.
      * destruct (Hnc _ _ Hc) as [N1 N2]. left. split.
        -- left. split; [right; right; eauto|]. apply negb_true_iff, Nat.eqb_neq. congruence.
        -- apply negb_true_iff, Nat.eqb_neq. congruence.
  - intros k c. rewrite C. apply Hlay.
Qed.

Lemma good_new_renderer (width height : Z) (fmt : string) :
  good (new_renderer width height fmt).
Proof.
  constructor.
  - apply cache_wf_new_renderer.
  - eexists _, _. cbn.
    split; [reflexivity|]. split; [reflexivity|]. cbn.
    split; [lia|]. split; [lia|]. split; [lia|].
    intros k c Hk. rewrite lookup_empty in Hk. discriminate Hk.
  - intros h. unfold live, referenced. cbn. split.
    + intros [<-|[<-|[]]]; [left|right; left]; eauto.
    + intros [(t & [= <-] & <-)|[(t & [= <-] & <-)|(k & c & _ & Hc & _)]]; cbn; auto.
      rewrite lookup_empty in Hc. discriminate Hc.
  - intros k c. cbn. rewrite lookup_empty. discriminate.
Qed.

Lemma hoare_then_calm {A B} (Q : A -> World -> Prop) (m : M A) (f : A -> M B) :
  hoare good m (fun r w => good w /\ Q r w) ->
  (forall a, calm (f a)) ->
  hoare good (bind m f) (fun _ => good).
Proof.
  intros Hm Hf. eapply hoare_bind; [exact Hm|].
  intros a w [Hw _]. now apply (calm_good (f a) (Hf a)).
Qed.

Lemma creator_of_buffer (data : BufferSource) (usage : Z) (label : option string)
    (name : string) :
  calm_creator (do b <- _createBuffer data usage label; ret (CObject b name)).
Proof.
  apply calm_creator_intro; [apply calm_createBuffer|]. intros w. cbn. lia.
Qed.

Lemma good_bind_uniform (i : nat) (v : Uniform) :
  uniform_of_kind kind v -> hoare good (bind_uniform i v) (fun _ => good).
Proof.
  unfold uniform_of_kind.
  destruct v as [k value|k d image|k d|k d]; cbn [bind_uniform uniform_key uniform_kind];
    intros Hk.
  - eapply hoare_then_calm.
    + apply good_cached; [congruence|apply creator_of_buffer|discriminate|].
      intros w. rewrite bind_run. constructor.
    + intros buffer. unfold needsUpdate_truthy. calm_solve.
  - eapply hoare_bind; [apply (good_updateTexture k d image Hk)|].
    intros t. apply calm_good. calm_solve.
  - eapply hoare_bind; [apply (good_updateTexture k d None Hk)|].
    intros t. apply calm_good. calm_solve.
  - eapply hoare_then_calm.
    + apply good_cached; [congruence|apply calm_create_sampler| |].
      * intros f o [= <-]. apply calm_get.
      * intros w. constructor.
    + intros s. apply calm_ret.
Qed.

Lemma good_bind_uniforms (us : list Uniform) (i : nat) :
  Forall (uniform_of_kind kind) us -> hoare good (bind_uniforms i us) (fun _ => good).
Proof.
  intros H. revert i. induction H as [|v rest Hv Hus IH]; intros i; cbn [bind_uniforms].
  - apply hoare_ret.
  - eapply hoare_bind; [apply (good_bind_uniform i v Hv)|]. intros e.
    eapply hoare_bind; [apply IH|]. intros es. apply hoare_ret.
Qed.

Lemma good_bind_vertexBuffer (i : nat) (vb : VertexBuffer) :
  kind (vb_key vb) = KindVertexBuffer ->
  hoare good (bind_vertexBuffer i vb) (fun _ => good).
Proof.
  intros Hk. unfold bind_vertexBuffer. eapply hoare_then_calm.
  - apply good_cached; [congruence| |discriminate|].
    + split.
      * calm_solve.
      * intros w. cbn. lia.
    + intros w. rewrite !bind_run. constructor.
  - intros buffer. unfold needsUpdate_truthy. calm_solve.
Qed.

Lemma good_bind_vertexBuffers (vbs : list VertexBuffer) (i : nat) :
  Forall (fun vb => kind (vb_key vb) = KindVertexBuffer) vbs ->
  hoare good (bind_vertexBuffers i vbs) (fun _ => good).
Proof.
  intros H. revert i. induction H as [|vb rest Hv Hvs IH]; intros i; cbn [bind_vertexBuffers].
  - apply hoare_ret.
  - eapply hoare_bind; [apply (good_bind_vertexBuffer i vb Hv)|]. intros ?. apply IH.
Qed.

Lemma good_bind_indexBuffer (ib : option IndexBuffer) :
  (forall b, ib = Some b -> kind (ib_key b) = KindIndexBuffer) ->
  hoare good (bind_indexBuffer ib) (fun _ => good).
Proof.
  intros Hk. destruct ib as [ib|]; cbn [bind_indexBuffer]; [|apply hoare_ret].
  eapply hoare_then_calm.
  - apply good_cached; [rewrite (Hk ib eq_refl); discriminate|apply creator_of_buffer
                        |discriminate|].
    intros w. rewrite bind_run. constructor.
  - intros buffer. calm_solve.
Qed.
End Liveness.

Section LivenessFrames.
Variable kind : Key -> Kind.
Hypothesis renderer_keys : renderer_keys_of_kind kind.
Variable JSON_stringify : PipelineOption -> string.
Variable Mat4_multiply : Mat4 -> Mat4 -> Mat4.
Variable Mat3_normalFromMat4 : list Q -> Mat4 -> list Q.
Variable Vec3_transformMat4 : Vec3 -> Mat4 -> Vec3.

Local Abbreviation good := (good kind).

Lemma calm_update_base (mesh : Mesh) (camera : Camera) (us : list Uniform) :
  calm (update_base Mat4_multiply Mat3_normalFromMat4 mesh camera us).
Proof.
  unfold update_base. destruct us as [|[k [bo|]| | |] us]; calm_solve.
Qed.

Lemma calm_create_layout (mesh : Mesh) : calm_creator (create_layout mesh).
Proof.
  split.
  { unfold create_layout.
    apply calm_bind; [apply calm_allocate|intros array].
    apply calm_bind; [apply calm_set_floats|intros ?].
    apply calm_bind; [apply calm_allocate|intros binding]. cbv zeta.
    apply calm_bind; [apply calm_allocate|intros bgl].
    apply calm_bind; [apply calm_emit; reflexivity|intros ?]. apply calm_ret. }
  intros w.
  unfold create_layout, bind, allocate, set_floats, emit, ret.
  cbn [fst snd nextHandle with_nextHandle with_floats with_trace cached_handle]. lia.
Qed.

Lemma calm_create_pipeline (mesh : Mesh) (bgl : Handle) (option : PipelineOption)
    (key : string) :
  calm_creator (create_pipeline mesh bgl option key).
Proof.
  split; [unfold create_pipeline; calm_solve|]. intros w. cbn. lia.
Qed.

Lemma good_uniform_setup (mesh : Mesh) (camera : Camera) :
  mesh_of_kind kind mesh ->
  hoare good (uniform_setup Mat4_multiply Mat3_normalFromMat4 mesh camera)
    (fun layout w => good w /\ Forall (uniform_of_kind kind) (cached_uniforms layout)).
Proof.
  intros (_ & Hu & Hus & _). unfold uniform_setup.
  eapply hoare_bind.
  - apply (good_cached kind); [congruence|apply calm_create_layout|discriminate|].
    intros w. cbn. constructor; [apply renderer_keys | exact Hus].
  - intros layout w [Hw Hk]. rewrite bind_run. cbn [ret fst snd]. split.
    + apply (calm_good kind _ (calm_update_base mesh camera _) w Hw).
    + exact (good_layouts _ _ Hw _ _ Hk).
Qed.

Lemma good_resolve_pipeline (mesh : Mesh) (bgl : Handle) :
  kind (mesh_key mesh) = KindMesh ->
  hoare good (resolve_pipeline JSON_stringify mesh bgl) (fun _ => good).
Proof.
  intros Hk. unfold resolve_pipeline.
  eapply hoare_bind; [apply (calm_good kind), calm_get|]. intros samples.
  eapply hoare_weaken.
  - apply (good_cached kind); [congruence|apply calm_create_pipeline| |].
    + intros f o [= <-]. apply calm_ret.
    + intros w. cbn. constructor.
  - auto.
  - now intros a w [H _].
Qed.

Lemma good_updatePipeline (mesh : Mesh) (camera : Camera) :
  mesh_of_kind kind mesh ->
  hoare good (_updatePipeline JSON_stringify Mat4_multiply Mat3_normalFromMat4 mesh camera)
    (fun _ => good).
Proof.
  intros Hmesh. pose proof Hmesh as (Hk & Hu & Hus & Hvb & Hib). unfold _updatePipeline.
  eapply hoare_bind; [apply (good_uniform_setup mesh camera Hmesh)|]. intros layout.
  eapply hoare_bind.
  { intros w [Hw HF]. exact (good_bind_uniforms kind _ 0 HF w Hw). }
  intros entries.
  eapply hoare_bind; [apply (good_resolve_pipeline mesh _ Hk)|]. intros pipeline.
  eapply hoare_bind; [apply (calm_good kind), calm_emit; reflexivity|]. intros ?.
  eapply hoare_bind; [apply (good_bind_indexBuffer kind _ Hib)|]. intros ?.
  eapply hoare_bind; [apply (good_bind_vertexBuffers kind _ 0 Hvb)|]. intros ?.
  apply (calm_good kind). calm_solve.
Qed.

Lemma good_render_nodes (l : list Mesh) (camera : Camera) :
  Forall (mesh_of_kind kind) l ->
  hoare good (render_nodes JSON_stringify Mat4_multiply Mat3_normalFromMat4 l camera)
    (fun _ => good).
Proof.
  induction 1 as [|node rest Hn Hrest IH]; cbn [render_nodes]; [apply hoare_ret|].
  eapply hoare_bind; [apply (good_updatePipeline node camera Hn)|]. intros ?.
  eapply hoare_bind; [apply (calm_good kind), calm_draw_node|]. intros ?. exact IH.
Qed.

Lemma good_render (scene : Object3D) (camera : Camera) :
  Forall (mesh_of_kind kind) (renderList scene) ->
  hoare good
    (render JSON_stringify Mat4_multiply Mat3_normalFromMat4 Vec3_transformMat4 scene camera)
    (fun _ => good).
Proof.
  intros Hs.
  assert (Hsorted : Forall (mesh_of_kind kind)
                      (sort Mat4_multiply Vec3_transformMat4 scene (Some camera))).
  { unfold sort. eapply Permutation_Forall; [apply Array_sort_perm | exact Hs]. }
  unfold render.
  eapply hoare_bind; [apply (calm_good kind), calm_get|]. intros samples.
  eapply hoare_bind; [apply (calm_good kind), calm_get|]. intros msaa.
  eapply hoare_bind.
  { destruct (bool_decide _); [apply hoare_ret | apply (good_resizeSwapchain kind)]. }
  intros ?.
  repeat (eapply hoare_bind;
          [apply (calm_good kind);
           first [apply calm_get | apply calm_allocate | apply calm_emit; reflexivity]|];
          intros ?).
  eapply hoare_bind; [apply (good_render_nodes _ _ Hsorted)|]. intros ?.
  apply (calm_good kind). calm_solve.
Qed.

Lemma good_step (w : World) (op : Op) :
  op_of_kind kind op -> good w ->
  good (step JSON_stringify Mat4_multiply Mat3_normalFromMat4 Vec3_transformMat4 w op).
Proof.
  intros Hop Hw. destruct op as [scene camera|width height|n|b|k]; cbn [step].
  - now apply good_render.
  - unfold setSize.
    refine (hoare_bind good (fun _ => good) (fun _ => good) _ _ _ _ w Hw).
    + intros w0 [Hwf Ht Hl Hlay]. now constructor.
    + intros _. apply (good_resizeSwapchain kind).
  - destruct Hw as [Hwf Ht Hl Hlay]. now constructor.
  - destruct Hw as [Hwf Ht Hl Hlay]. now constructor.
  - destruct Hw as [Hwf Ht Hl Hlay]. now constructor.
Qed.

(** X16. Over every history of a renderer (frames, resizes, changes of
    [samples] and [autoClear], flags set by the application) on scenes in
    which every object has one kind, the textures alive on the device are
    exactly the textures the renderer still refers to: its MSAA target, its
    depth target and the textures cached for texture bindings. No texture
    is leaked (every texture that was replaced has been destroyed) and
    none is destroyed while it is still referred to. *)
Theorem live_textures_are_referenced (ops : list Op) (width height : Z) (fmt : string) :
  Forall (op_of_kind kind) ops ->
  let w := run JSON_stringify Mat4_multiply Mat3_normalFromMat4 Vec3_transformMat4
             ops (new_renderer width height fmt) in
  forall h, In h (live w) <-> referenced kind w h.
Proof.
  intros Hops w. apply (good_live kind). subst w. unfold run.
  assert (G : forall w0, good w0 ->
            good (foldl (step JSON_stringify Mat4_multiply Mat3_normalFromMat4
                           Vec3_transformMat4) w0 ops)).
  { induction Hops as [|op rest Hop Hrest IH]; intros w0 Hw0; [exact Hw0|].
    cbn [foldl]. apply IH. now apply good_step. }
  apply G, good_new_renderer.
Qed.
End LivenessFrames.

(** X16, on a textured mesh rendered, flagged, and rendered again after a
    resize and a change of [samples]: three textures are alive, the two
    current render targets and the texture that replaced the flagged one. *)
Lemma live_textures_are_referenced_witness :
  let scene := ex_scene [ex_textured_mesh 50] in
  let ops := [OpRender scene ex_camera; OpNeedsUpdate (KObj 50); OpSetSize 640 480;
              OpSamples 1; OpRender scene ex_camera] in
  let w := ex_run ops in
  live w = [24; 26; 30]
  /\ option_map tex_handle (_msaaTexture w) = Some 24
  /\ option_map tex_handle (_depthTexture w) = Some 26
  /\ _cacheMap w !! KObj 50 = Some (CObject 30 "")
  /\ forall h, In h (live w) <-> referenced ex_kind w h.
Proof.
  intros scene ops w.
  split; [vm_compute; reflexivity|]. split; [vm_compute; reflexivity|].
  split; [vm_compute; reflexivity|]. split; [vm_compute; reflexivity|].
  assert (Hmesh : mesh_of_kind ex_kind (ex_textured_mesh 50)).
  { repeat split; repeat constructor. intros ib [= <-]. reflexivity. }
  assert (Hscene : Forall (mesh_of_kind ex_kind) (renderList scene))
    by (constructor; [exact Hmesh | constructor]).
  assert (Hops : Forall (op_of_kind ex_kind) ops).
  { repeat (constructor; [first [exact Hscene | exact I]|]). constructor. }
  exact (live_textures_are_referenced ex_kind (fun n => eq_refl) JSON_stringify_std
           Mat4_multiply_std Mat3_normalFromMat4_std Vec3_transformMat4_std
           ops 300 150 "bgra8unorm" Hops).
Defined.

(** ** The cache and the render targets over a history *)

Section Histories.
Variable JSON_stringify : PipelineOption -> string.
Variable Mat4_multiply : Mat4 -> Mat4 -> Mat4.
Variable Mat3_normalFromMat4 : list Q -> Mat4 -> list Q.
Variable Vec3_transformMat4 : Vec3 -> Mat4 -> Vec3.

Local Abbreviation frame :=
  (render JSON_stringify Mat4_multiply Mat3_normalFromMat4 Vec3_transformMat4).
Local Abbreviation history :=
  (run JSON_stringify Mat4_multiply Mat3_normalFromMat4 Vec3_transformMat4).

(** X17. Over every history of a renderer the cache stays well-formed:
    every cached object is one the device has handed out, and two different
    identities never hold the same GPU object. *)
Theorem cache_well_formed_over_history (ops : list Op) (width height : Z) (fmt : string) :
  cache_wf (history ops (new_renderer width height fmt)).
Proof.
  unfold run.
  assert (G : forall w0, cache_wf w0 ->
            cache_wf (foldl (step JSON_stringify Mat4_multiply Mat3_normalFromMat4
                               Vec3_transformMat4) w0 ops)).
  { induction ops as [|op rest IH]; intros w0 Hw0; [exact Hw0|].
    cbn [foldl]. apply IH. destruct op as [scene camera|w h|n|b|k]; cbn [step].
    - apply (keeps_wf_render JSON_stringify Mat4_multiply Mat3_normalFromMat4
               Vec3_transformMat4 scene camera w0 Hw0).
    - apply (keeps_wf_setSize w h w0 Hw0).
    - exact Hw0.
    - exact Hw0.
    - exact Hw0. }
  apply G, cache_wf_new_renderer.
Qed.

Lemma keeps_fields_calm {A} (m : M A) : calm m -> keeps_fields m.
Proof. intros H w. apply H. Qed.

Lemma keeps_fields_bind {A B} (m : M A) (f : A -> M B) :
  keeps_fields m -> (forall a, keeps_fields (f a)) -> keeps_fields (bind m f).
Proof. intros Hm Hf w. rewrite bind_run. now rewrite Hf, Hm. Qed.

Lemma keeps_fields_cached (k : Key) (onCreate : M Cached)
    (stale : option (Cached -> M bool)) :
  keeps_fields onCreate ->
  (forall f o, stale = Some f -> keeps_fields (f o)) ->
  keeps_fields (_cached k onCreate stale).
Proof.
  intros Hc Hs w.
  destruct (_cacheMap w !! k) as [o|] eqn:Ho.
  - destruct stale as [f|].
    + destruct ((f o w).1) eqn:Hf.
      * rewrite (cached_hit_stale _ _ _ _ _ Ho Hf). cbn [snd].
        change (renderer_fields (with_cacheMap ?c ?x)) with (renderer_fields x).
        now rewrite Hc, (Hs f o eq_refl).
      * rewrite (cached_hit_fresh _ _ _ _ _ Ho Hf). cbn [snd]. apply (Hs f o eq_refl).
    + now rewrite (cached_hit _ _ _ _ Ho).
  - rewrite (cached_miss _ _ _ _ Ho). cbn [snd].
    change (renderer_fields (with_cacheMap ?c ?x)) with (renderer_fields x). apply Hc.
Qed.

Lemma keeps_fields_bind_uniform (i : nat) (v : Uniform) : keeps_fields (bind_uniform i v).
Proof.
  assert (Ht : forall k d image, keeps_fields (_updateTexture k d image)).
  { intros k d image. apply keeps_fields_cached.
    - intros w. apply create_texture_effect.
    - intros f o [= <-] w. apply stale_texture_effect. }
  destruct v as [k value|k d image|k d|k d]; cbn [bind_uniform].
  - apply keeps_fields_bind.
    + apply keeps_fields_cached; [|discriminate].
      apply keeps_fields_calm, creator_of_buffer.
    + intros ?. apply keeps_fields_calm. unfold needsUpdate_truthy. calm_solve.
  - apply keeps_fields_bind; [apply Ht|]. intros ?. apply keeps_fields_calm. calm_solve.
  - apply keeps_fields_bind; [apply Ht|]. intros ?. apply keeps_fields_calm. calm_solve.
  - apply keeps_fields_bind; [|intros ?; apply keeps_fields_calm, calm_ret].
    apply keeps_fields_cached; [apply keeps_fields_calm, calm_create_sampler|].
    intros f o [= <-]. apply keeps_fields_calm, calm_get.
Qed.

Lemma keeps_fields_updatePipeline (mesh : Mesh) (camera : Camera) :
  keeps_fields (_updatePipeline JSON_stringify Mat4_multiply Mat3_normalFromMat4 mesh camera).
Proof.
  assert (Hus : forall us i, keeps_fields (bind_uniforms i us)).
  { induction us as [|v us IH]; intros i; cbn [bind_uniforms].
    - apply keeps_fields_calm, calm_ret.
    - apply keeps_fields_bind; [apply keeps_fields_bind_uniform|]. intros ?.
      apply keeps_fields_bind; [apply IH|]. intros ?. apply keeps_fields_calm, calm_ret. }
  assert (Hvbs : forall vbs i, keeps_fields (bind_vertexBuffers i vbs)).
  { induction vbs as [|vb vbs IH]; intros i; cbn [bind_vertexBuffers].
    - apply keeps_fields_calm, calm_ret.
    - apply keeps_fields_bind; [|intros ?; apply IH].
      unfold bind_vertexBuffer. apply keeps_fields_bind.
      + apply keeps_fields_cached; [|discriminate]. apply keeps_fields_calm. calm_solve.
      + intros ?. apply keeps_fields_calm. unfold needsUpdate_truthy. calm_solve. }
  unfold _updatePipeline, uniform_setup.
  apply keeps_fields_bind.
  { apply keeps_fields_bind.
    - apply keeps_fields_cached; [|discriminate].
      apply keeps_fields_calm. apply (calm_create_layout mesh).
    - intros ?. apply keeps_fields_bind; [|intros ?; apply keeps_fields_calm, calm_ret].
      apply keeps_fields_calm, calm_update_base. }
  intros layout. apply keeps_fields_bind; [apply Hus|]. intros entries.
  apply keeps_fields_bind.
  { unfold resolve_pipeline. apply keeps_fields_bind; [apply keeps_fields_calm, calm_get|].
    intros ?. apply keeps_fields_cached.
    - apply keeps_fields_calm. apply (calm_create_pipeline mesh).
    - intros f o [= <-]. apply keeps_fields_calm, calm_ret. }
  intros pipeline.
  apply keeps_fields_bind; [apply keeps_fields_calm, calm_emit; reflexivity|]. intros ?.
  apply keeps_fields_bind.
  { destruct (indexBuffer (geometry mesh)) as [ib|]; cbn [bind_indexBuffer];
      [|apply keeps_fields_calm, calm_ret].
    apply keeps_fields_bind.
    - apply keeps_fields_cached; [|discriminate]. apply keeps_fields_calm, creator_of_buffer.
    - intros ?. apply keeps_fields_calm. calm_solve. }
  intros ?. apply keeps_fields_bind; [apply Hvbs|]. intros ?.
  apply keeps_fields_calm. calm_solve.
Qed.

Lemma keeps_fields_render_nodes (l : list Mesh) (camera : Camera) :
  keeps_fields (render_nodes JSON_stringify Mat4_multiply Mat3_normalFromMat4 l camera).
Proof.
  induction l as [|node l IH]; cbn [render_nodes]; [apply keeps_fields_calm, calm_ret|].
  apply keeps_fields_bind; [apply keeps_fields_updatePipeline|]. intros ?.
  apply keeps_fields_bind; [apply keeps_fields_calm, calm_draw_node|]. intros ?. exact IH.
Qed.

(** Apart from the re-creation of the render targets at its start, a frame
    leaves the renderer's fields alone. *)
Lemma render_fields (scene : Object3D) (camera : Camera) (w : World) :
  renderer_fields (frame scene camera w).2 = renderer_fields (frame_start w).
Proof.
  rewrite render_unfold. cbn [snd].
  change (renderer_fields (with_trace ?t ?x)) with (renderer_fields x).
  rewrite keeps_fields_render_nodes. reflexivity.
Qed.

Lemma targets_fit_resize (w : World) : targets_fit (_resizeSwapchain w).2.
Proof.
  destruct (resizeSwapchain_effect w) as (_ & Hm & Hd & _ & Hcw & Hch & _).
  eexists _, _. rewrite Hm, Hd, Hcw, Hch. repeat split; reflexivity.
Qed.

Lemma targets_fit_fields (w w' : World) :
  renderer_fields w' = renderer_fields w -> targets_fit w -> targets_fit w'.
Proof.
  unfold renderer_fields. intros [= Ecw Ech _ _ _ Em _ Ed _] (m & d & Hm & Hd & H).
  exists m, d. now rewrite Ecw, Ech, Em, Ed.
Qed.

(** X18. Over every history of a renderer whose canvas is resized through
    [setSize], both render targets exist, have the size of the canvas and
    have the same sample count; and right after a frame that sample count
    is the renderer's [samples], whatever it was before the frame: a change
    of [samples] takes effect at the next frame, which leaves the canvas
    size and [samples] as they are. *)
Theorem targets_fit_canvas_and_samples (ops : list Op) (width height : Z) (fmt : string) :
  let w := history ops (new_renderer width height fmt) in
  targets_fit w
  /\ forall scene camera,
       let w' := (frame scene camera w).2 in
       targets_fit w'
       /\ option_map tex_sampleCount (_msaaTexture w') = Some (samples w)
       /\ samples w' = samples w
       /\ canvas_width w' = canvas_width w /\ canvas_height w' = canvas_height w.
Proof.
  intros w.
  assert (Hframe : forall w0 scene camera, targets_fit w0 ->
            let w' := (frame scene camera w0).2 in
            targets_fit w'
            /\ option_map tex_sampleCount (_msaaTexture w') = Some (samples w0)
            /\ samples w' = samples w0
            /\ canvas_width w' = canvas_width w0 /\ canvas_height w' = canvas_height w0).
  { intros w0 scene camera H0 w'.
    pose proof (render_fields scene camera w0) as F. fold w' in F.
    assert (H1 : targets_fit (frame_start w0)
                 /\ option_map tex_sampleCount (_msaaTexture (frame_start w0))
                    = Some (samples w0)
                 /\ samples (frame_start w0) = samples w0
                 /\ canvas_width (frame_start w0) = canvas_width w0
                 /\ canvas_height (frame_start w0) = canvas_height w0).
    { unfold frame_start. destruct (bool_decide_reflect
        (option_map tex_sampleCount (_msaaTexture w0) = Some (samples w0))) as [E|E].
      - auto.
      - destruct (resizeSwapchain_effect w0) as (_ & Hm & _ & _ & Hcw & Hch & _ & Hs).
        split; [apply targets_fit_resize|]. rewrite Hm, Hs, Hcw, Hch. auto. }
    destruct H1 as (T & S1 & S2 & S3 & S4).
    split; [exact (targets_fit_fields _ _ F T)|].
    unfold renderer_fields in F. injection F as Ecw Ech _ _ Es Em _ _ _.
    rewrite Em, Es, Ecw, Ech. auto. }
  assert (G : forall w0, targets_fit w0 ->
            targets_fit (foldl (step JSON_stringify Mat4_multiply Mat3_normalFromMat4
                                  Vec3_transformMat4) w0 ops)).
  { induction ops as [|op rest IH]; intros w0 Hw0; [exact Hw0|].
    cbn [foldl]. apply IH. destruct op as [scene camera|cw ch|n|b|k]; cbn [step].
    - apply (Hframe w0 scene camera Hw0).
    - unfold setSize. rewrite bind_run. apply targets_fit_resize.
    - exact Hw0.
    - exact Hw0.
    - exact Hw0. }
  split; [apply G, targets_fit_resize|].
  intros scene camera. apply Hframe. apply G, targets_fit_resize.
Qed.
End Histories.

(** ** Steady frames *)

Lemma tame_ret {A} (a : A) : tame (ret a).
Proof. intros w. cbn. auto. Qed.

Lemma tame_get {A} (f : World -> A) : tame (get f).
Proof. intros w. cbn. auto. Qed.

Lemma tame_allocate : tame allocate.
Proof. intros w. cbn. auto. Qed.

Lemma tame_emit (e : Event) : tame (emit e).
Proof. intros w. cbn. auto. Qed.

Lemma tame_set_floats (k : Key) (v : list Q) : tame (set_floats k v).
Proof. intros w. cbn. auto. Qed.

Lemma tame_lower (k : Key) : tame (set_needsUpdate k false).
Proof.
  intros w. cbn. split; [reflexivity|]. split; [reflexivity|].
  intros k'. rewrite lookup_insert. destruct (decide (k = k')); [discriminate|auto].
Qed.

Lemma tame_bind {A B} (m : M A) (f : A -> M B) :
  tame m -> (forall a, tame (f a)) -> tame (bind m f).
Proof.
  intros Hm Hf w. rewrite bind_run.
  destruct (Hm w) as (C1 & S1 & F1). destruct (Hf (m w).1 (m w).2) as (C2 & S2 & F2).
  split; [congruence|]. split; [congruence|]. auto.
Qed.

Lemma tame_if {A} (b : bool) (m1 m2 : M A) : tame m1 -> tame m2 -> tame (if b then m1 else m2).
Proof. now destruct b. Qed.

Ltac tame_solve :=
  repeat first
    [ apply tame_ret | apply tame_get | apply tame_allocate | apply tame_emit
    | apply tame_set_floats | apply tame_lower
    | apply tame_if
    | apply tame_bind; [|intros ?]
    | assumption ].

Lemma tame_createBuffer (data : BufferSource) (usage : Z) (label : option string) :
  tame (_createBuffer data usage label).
Proof. unfold _createBuffer. tame_solve. Qed.

Lemma tame_create_texture (k : Key) (descriptor : TextureDescriptor) (image : option Key) :
  tame (create_texture k descriptor image).
Proof. unfold create_texture. destruct image; tame_solve. Qed.

Lemma tame_stale_texture (k : Key) (o : Cached) : tame (stale_texture k o).
Proof. unfold stale_texture. tame_solve. Qed.

Lemma tame_create_sampler (k : Key) (descriptor : string) : tame (create_sampler k descriptor).
Proof. unfold create_sampler. tame_solve. Qed.

Lemma tame_create_layout (mesh : Mesh) : tame (create_layout mesh).
Proof.
  unfold create_layout.
  apply tame_bind; [apply tame_allocate|intros array].
  apply tame_bind; [apply tame_set_floats|intros ?].
  apply tame_bind; [apply tame_allocate|intros binding]. cbv zeta.
  apply tame_bind; [apply tame_allocate|intros bgl].
  apply tame_bind; [apply tame_emit|intros ?]. apply tame_ret.
Qed.

Lemma tame_create_pipeline (mesh : Mesh) (bgl : Handle) (option : PipelineOption)
    (key : string) :
  tame (create_pipeline mesh bgl option key).
Proof. unfold create_pipeline. tame_solve. Qed.

Lemma tame_draw_node (node : Mesh) : tame (draw_node node).
Proof.
  unfold draw_node. destruct (indexBuffer (geometry node)); [apply tame_emit|].
  destruct (vertexBuffers (geometry node)); apply tame_emit.
Qed.

Section SteadyFacts.
Variable kind : Key -> Kind.
Hypothesis renderer_keys : renderer_keys_of_kind kind.
Variable JSON_stringify : PipelineOption -> string.
Variable meshes : list Mesh.
Hypothesis meshes_kind : Forall (mesh_of_kind kind) meshes.
Hypothesis meshes_identity : mesh_keys_identify meshes.

Local Abbreviation good := (good kind).
Local Abbreviation moves := (evolves kind JSON_stringify meshes).
Local Abbreviation up_to_date := (pipeline_ok JSON_stringify).
Local Abbreviation set_up := (settled_mesh JSON_stringify).

Lemma evolves_refl (w : World) : moves w w.
Proof. repeat split; auto. Qed.

Lemma evolves_trans (w1 w2 w3 : World) : moves w1 w2 -> moves w2 w3 -> moves w1 w3.
Proof.
  intros (A1 & B1 & C1 & D1 & E1) (A2 & B2 & C2 & D2 & E2).
  repeat split; auto. congruence.
Qed.

(** A tame computation lets the state evolve. *)
Lemma evolves_tame {A} (m : M A) (w : World) : tame m -> moves w (m w).2.
Proof.
  intros Ht. destruct (Ht w) as (C & S & F). unfold evolves, pipeline_ok.
  rewrite C, S. repeat split; auto.
  intros k _ Hf. destruct (truthy (needsUpdate (m w).2 !! k)) eqn:E; [|reflexivity].
  rewrite (F k E) in Hf. discriminate Hf.
Qed.

(** Storing under a key lets the state evolve when the key held nothing,
    or when it is neither a [uniforms] array nor the key of a mesh whose
    pipeline is up to date. *)
Lemma evolves_store (k : Key) (v : Cached) (w : World) :
  (_cacheMap w !! k = None
   \/ (kind k <> KindUniforms
       /\ forall mesh, In mesh meshes -> mesh_key mesh = k -> ~ up_to_date w mesh)) ->
  moves w (with_cacheMap (<[k := v]> (_cacheMap w)) w).
Proof.
  intros H. unfold evolves, pipeline_ok.
  cbn [_cacheMap needsUpdate samples with_cacheMap]. repeat split; auto.
  - intros k' Hk'. rewrite lookup_insert. destruct (decide (k = k')); eauto.
  - intros k' c Hk' Hc. rewrite lookup_insert. destruct (decide (k = k')) as [->|Hne]; auto.
    destruct H as [H|[H _]]; congruence.
  - intros mesh Hin (o & Ho & Hl). rewrite lookup_insert.
    destruct (decide (k = mesh_key mesh)) as [->|Hne]; [|eauto].
    destruct H as [H|[_ H]]; [congruence|].
    exfalso. apply (H mesh Hin eq_refl). exists o. auto.
Qed.

(** A lookup lets the state evolve when it replaces an object only under a
    key that is neither a [uniforms] array nor the key of a mesh whose
    pipeline is up to date. *)
Lemma evolves_cached (k : Key) (onCreate : M Cached) (stale : option (Cached -> M bool))
    (w : World) :
  tame onCreate ->
  (forall f o, stale = Some f -> tame (f o)) ->
  (forall o f, _cacheMap w !! k = Some o -> stale = Some f -> (f o w).1 = true ->
     kind k <> KindUniforms
     /\ forall mesh, In mesh meshes -> mesh_key mesh = k -> ~ up_to_date w mesh) ->
  moves w (_cached k onCreate stale w).2.
Proof.
  intros Hc Hs Hover.
  assert (Hnew : forall ws,
            _cacheMap ws = _cacheMap w -> samples ws = samples w -> moves w ws ->
            (_cacheMap w !! k = None
             \/ (kind k <> KindUniforms
                 /\ forall mesh, In mesh meshes -> mesh_key mesh = k -> ~ up_to_date w mesh)) ->
            moves w (with_cacheMap (<[k := (onCreate ws).1]> (_cacheMap (onCreate ws).2))
                       (onCreate ws).2)).
  { intros ws C S Hm H. destruct (Hc ws) as (C' & S' & F').
    apply (evolves_trans _ ws); [exact Hm|].
    apply (evolves_trans _ (onCreate ws).2); [now apply evolves_tame|].
    apply evolves_store. unfold pipeline_ok. rewrite C', S', C, S. exact H. }
  destruct (_cacheMap w !! k) as [o|] eqn:Ho.
  - destruct stale as [f|].
    + destruct (Hs f o eq_refl w) as (C & S & F).
      destruct ((f o w).1) eqn:Hf.
      * rewrite (cached_hit_stale _ _ _ _ _ Ho Hf). cbn [snd].
        apply Hnew; try assumption.
        -- apply evolves_tame. now apply (Hs f o).
        -- right. rewrite <- Ho in Hover. rewrite Ho in Hover. now apply (Hover o f).
      * rewrite (cached_hit_fresh _ _ _ _ _ Ho Hf). cbn [snd].
        apply evolves_tame. now apply (Hs f o).
    + rewrite (cached_hit _ _ _ _ Ho). apply evolves_refl.
  - rewrite (cached_miss _ _ _ _ Ho). cbn [snd].
    apply Hnew; try reflexivity; [apply evolves_refl | now left].
Qed.

(** The key of a uniform binding is not the key of a mesh. *)
Lemma uniform_key_not_mesh (u : Uniform) (w : World) :
  uniform_of_kind kind u ->
  kind (uniform_key u) <> KindUniforms
  /\ forall mesh, In mesh meshes -> mesh_key mesh = uniform_key u -> ~ up_to_date w mesh.
Proof.
  unfold uniform_of_kind. intros Hu. split; [destruct u; cbn in *; congruence|].
  intros mesh Hin Hk. exfalso.
  destruct (proj1 (List.Forall_forall _ _) meshes_kind mesh Hin) as (Hm & _).
  rewrite Hk in Hm. destruct u; cbn in *; congruence.
Qed.

Lemma evolves_bind {A B} (m : M A) (f : A -> M B) (w : World) :
  moves w (m w).2 -> (forall a w', moves w' (f a w').2) -> moves w (bind m f w).2.
Proof.
  intros Hm Hf. rewrite bind_run. eapply evolves_trans; [exact Hm | apply Hf].
Qed.

Lemma evolves_bind_uniform (i : nat) (v : Uniform) (w : World) :
  uniform_of_kind kind v -> moves w (bind_uniform i v w).2.
Proof.
  intros Hv. pose proof (uniform_key_not_mesh v) as Hnm.
  destruct v as [k value|k d image|k d|k d]; cbn [bind_uniform uniform_key] in *;
    apply evolves_bind.
  - apply evolves_cached; [|discriminate|intros ? ? ? [=]].
    tame_solve.
  - intros buffer w'. apply evolves_tame. unfold needsUpdate_truthy. tame_solve.
  - apply evolves_cached; [apply tame_create_texture| |].
    + intros f o [= <-]. apply tame_stale_texture.
    + intros o f _ _ _. now apply Hnm.
  - intros t w'. apply evolves_tame. tame_solve.
  - apply evolves_cached; [apply tame_create_texture| |].
    + intros f o [= <-]. apply tame_stale_texture.
    + intros o f _ _ _. now apply Hnm.
  - intros t w'. apply evolves_tame. tame_solve.
  - apply evolves_cached; [apply tame_create_sampler| |].
    + intros f o [= <-]. apply tame_get.
    + intros o f _ _ _. now apply Hnm.
  - intros t w'. apply evolves_tame. tame_solve.
Qed.

Lemma evolves_bind_uniforms (us : list Uniform) (i : nat) (w : World) :
  Forall (uniform_of_kind kind) us -> moves w (bind_uniforms i us w).2.
Proof.
  intros H. revert i w. induction H as [|v rest Hv Hrest IH]; intros i w;
    cbn [bind_uniforms]; [apply evolves_refl|].
  apply evolves_bind; [apply (evolves_bind_uniform i v w Hv)|]. intros e w'.
  apply evolves_bind; [apply IH|]. intros es w''. apply evolves_refl.
Qed.

Lemma evolves_bind_vertexBuffers (vbs : list VertexBuffer) (i : nat) (w : World) :
  moves w (bind_vertexBuffers i vbs w).2.
Proof.
  revert i w. induction vbs as [|vb vbs IH]; intros i w; cbn [bind_vertexBuffers];
    [apply evolves_refl|].
  apply evolves_bind; [|intros ? w'; apply IH].
  unfold bind_vertexBuffer. apply evolves_bind.
  - apply evolves_cached; [|discriminate|intros ? ? ? [=]].
    tame_solve.
  - intros buffer w'. apply evolves_tame. unfold needsUpdate_truthy. tame_solve.
Qed.

Lemma evolves_bind_indexBuffer (ib : option IndexBuffer) (w : World) :
  moves w (bind_indexBuffer ib w).2.
Proof.
  destruct ib as [ib|]; cbn [bind_indexBuffer]; [|apply evolves_refl].
  apply evolves_bind.
  - apply evolves_cached; [|discriminate|intros ? ? ? [=]].
    tame_solve.
  - intros buffer w'. apply evolves_tame. tame_solve.
Qed.

Variable Mat4_multiply : Mat4 -> Mat4 -> Mat4.
Variable Mat3_normalFromMat4 : list Q -> Mat4 -> list Q.

Local Abbreviation usetup := (uniform_setup Mat4_multiply Mat3_normalFromMat4).
Local Abbreviation updatePipeline :=
  (_updatePipeline JSON_stringify Mat4_multiply Mat3_normalFromMat4).
Local Abbreviation nodes := (render_nodes JSON_stringify Mat4_multiply Mat3_normalFromMat4).

(** Rewriting the base block raises the flag of a buffer binding only. *)
Lemma evolves_update_base (mesh : Mesh) (camera : Camera) (us : list Uniform) (w : World) :
  Forall (uniform_of_kind kind) us ->
  moves w (update_base Mat4_multiply Mat3_normalFromMat4 mesh camera us w).2.
Proof.
  intros Hus. unfold update_base.
  destruct us as [|[k [bo|]| | |] us]; try apply evolves_refl.
  inversion Hus as [|u us' Hk _]; subst. unfold uniform_of_kind in Hk. cbn in Hk.
  unfold evolves, pipeline_ok. cbn. repeat split; auto.
  intros k' Hk' Hf. rewrite lookup_insert_ne; [exact Hf|].
  intros ->. destruct Hk'; congruence.
Qed.

Lemma evolves_uniform_setup (mesh : Mesh) (camera : Camera) (w : World) :
  good w -> mesh_of_kind kind mesh -> moves w (usetup mesh camera w).2.
Proof.
  intros Hw (_ & Hu & Hus & _). unfold uniform_setup. rewrite bind_run.
  assert (Hl : hoare good
                 (_cached (uniforms_key (material mesh)) (create_layout mesh) None)
                 (fun r w' => good w' /\ _cacheMap w' !! uniforms_key (material mesh) = Some r)).
  { apply (good_cached kind); [congruence|apply calm_create_layout|discriminate|].
    intros w0. cbn. constructor; [apply renderer_keys | exact Hus]. }
  destruct (Hl w Hw) as [Hg Hk].
  eapply evolves_trans.
  - apply (evolves_cached (uniforms_key (material mesh)) (create_layout mesh) None);
      [apply tame_create_layout|discriminate|intros ? ? ? [=]].
  - rewrite bind_run. cbn [ret snd]. apply evolves_update_base.
    exact (good_layouts _ _ Hg _ _ Hk).
Qed.

Lemma evolves_resolve_pipeline (mesh : Mesh) (bgl : Handle) (w : World) :
  In mesh meshes -> moves w (resolve_pipeline JSON_stringify mesh bgl w).2.
Proof.
  intros Hin. rewrite resolve_pipeline_unfold. cbv zeta.
  apply evolves_cached; [apply tame_create_pipeline| |].
  - intros f o [= <-]. apply tame_ret.
  - intros o f Ho [= <-] Hs.
    destruct (proj1 (List.Forall_forall _ _) meshes_kind mesh Hin) as (Hm & _).
    split; [congruence|]. intros mesh' Hin' Hk (o' & Ho' & Hl).
    rewrite (meshes_identity mesh' mesh Hin' Hin Hk) in *.
    rewrite Ho in Ho'. injection Ho' as <-.
    unfold pipeline_stale, ret in Hs. cbn [fst] in Hs.
    rewrite Hl, String.eqb_refl in Hs. discriminate Hs.
Qed.

Lemma evolves_updatePipeline (mesh : Mesh) (camera : Camera) (w : World) :
  good w -> In mesh meshes -> moves w (updatePipeline mesh camera w).2.
Proof.
  intros Hw Hin.
  pose proof (proj1 (List.Forall_forall _ _) meshes_kind mesh Hin) as Hmesh.
  unfold _updatePipeline. rewrite bind_run.
  destruct (good_uniform_setup kind renderer_keys Mat4_multiply Mat3_normalFromMat4
              mesh camera Hmesh w Hw) as [Hg HF].
  eapply evolves_trans; [apply (evolves_uniform_setup mesh camera w Hw Hmesh)|].
  apply evolves_bind; [apply (evolves_bind_uniforms _ 0 _ HF)|]. intros entries w1.
  apply evolves_bind; [apply (evolves_resolve_pipeline mesh _ _ Hin)|]. intros pipeline w2.
  apply evolves_bind; [apply evolves_tame, tame_emit|]. intros ? w3.
  apply evolves_bind; [apply evolves_bind_indexBuffer|]. intros ? w4.
  apply evolves_bind; [apply evolves_bind_vertexBuffers|]. intros ? w5.
  apply evolves_tame. tame_solve.
Qed.

Lemma settled_uniform_moves (w w' : World) (u : Uniform) :
  uniform_of_kind kind u -> moves w w' -> settled_uniform w u -> settled_uniform w' u.
Proof.
  unfold uniform_of_kind. intros Hu (E1 & _ & E3 & _) [Hc Hf]. split; [now apply E1|].
  intros Hk. apply E3; [|now apply Hf].
  destruct u; cbn in *; auto; congruence.
Qed.

Lemma set_up_moves (w w' : World) (mesh : Mesh) :
  good w -> moves w w' -> In mesh meshes -> set_up w mesh -> set_up w' mesh.
Proof.
  intros Hw Hm Hin ((layout & Hl & Hus) & Hp & Hib & Hvb).
  pose proof Hm as (E1 & E2 & E3 & E4 & E5).
  destruct (proj1 (List.Forall_forall _ _) meshes_kind mesh Hin) as (_ & Hu & _).
  split; [|split; [|split]].
  - exists layout. split; [now apply E2|].
    pose proof (good_layouts _ _ Hw _ _ Hl) as Hk.
    clear Hl. induction Hus as [|u us Hu1 Hus1 IH]; constructor.
    + inversion Hk; subst. now apply (settled_uniform_moves w).
    + inversion Hk; subst. now apply IH.
  - now apply E4.
  - intros ib Hi. apply E1. now apply Hib.
  - eapply Forall_impl; [exact Hvb|]. intros vb. apply E1.
Qed.

(** After a lookup the key holds an object. *)
Lemma cached_present (k : Key) (onCreate : M Cached) (stale : option (Cached -> M bool))
    (w : World) :
  (forall f o, stale = Some f -> tame (f o)) ->
  is_Some (_cacheMap (_cached k onCreate stale w).2 !! k).
Proof.
  intros Hs. destruct (_cacheMap w !! k) as [o|] eqn:Ho.
  - destruct stale as [f|].
    + destruct (Hs f o eq_refl w) as (C & _). destruct ((f o w).1) eqn:Hf.
      * rewrite (cached_hit_stale _ _ _ _ _ Ho Hf). cbn. rewrite lookup_insert_eq. eauto.
      * rewrite (cached_hit_fresh _ _ _ _ _ Ho Hf). cbn. rewrite C, Ho. eauto.
    + rewrite (cached_hit _ _ _ _ Ho). cbn. rewrite Ho. eauto.
  - rewrite (cached_miss _ _ _ _ Ho). cbn. rewrite lookup_insert_eq. eauto.
Qed.

Lemma bind_uniform_settles (i : nat) (v : Uniform) (w : World) :
  settled_uniform (bind_uniform i v w).2 v.
Proof.
  unfold settled_uniform.
  destruct v as [k value|k d image|k d|k d]; cbn [bind_uniform uniform_key uniform_kind];
    rewrite bind_run.
  - split; [|congruence].
    match goal with
    | |- is_Some (_cacheMap (?f ?a ?ws).2 !! _) =>
        assert (Ht : tame (f a)) by (unfold needsUpdate_truthy; tame_solve);
        destruct (Ht ws) as (C & _); rewrite C
    end.
    apply cached_present. discriminate.
  - destruct (updateTexture_cases k d image w) as [Hk Hf].
    cbn [bind allocate emit ret fst snd _cacheMap needsUpdate with_trace with_nextHandle].
    rewrite Hk. split; [eauto|auto].
  - destruct (updateTexture_cases k d None w) as [Hk Hf].
    cbn [bind allocate emit ret fst snd _cacheMap needsUpdate with_trace with_nextHandle].
    rewrite Hk. split; [eauto|auto].
  - destruct (updateSampler_cases k d w) as [Hk Hf]. cbn [ret snd].
    rewrite Hk. split; [eauto|auto].
Qed.

Lemma bind_uniforms_settles (us : list Uniform) (i : nat) (w : World) :
  Forall (uniform_of_kind kind) us ->
  Forall (settled_uniform (bind_uniforms i us w).2) us.
Proof.
  intros H. revert i w. induction H as [|v rest Hv Hrest IH]; intros i w; [constructor|].
  cbn [bind_uniforms]. do 2 rewrite bind_run. cbn [ret snd]. constructor; [|apply IH].
  apply (settled_uniform_moves (bind_uniform i v w).2); [exact Hv| |apply bind_uniform_settles].
  now apply evolves_bind_uniforms.
Qed.

Lemma bind_vertexBuffers_present (vbs : list VertexBuffer) (i : nat) (w : World) :
  Forall (fun vb => is_Some (_cacheMap (bind_vertexBuffers i vbs w).2 !! vb_key vb)) vbs.
Proof.
  revert i w. induction vbs as [|vb vbs IH]; intros i w; [constructor|].
  cbn [bind_vertexBuffers]. rewrite bind_run. constructor; [|apply IH].
  destruct (evolves_bind_vertexBuffers vbs (S i) (bind_vertexBuffer i vb w).2) as (E1 & _).
  apply E1. unfold bind_vertexBuffer. rewrite bind_run.
  match goal with
  | |- is_Some (_cacheMap (?f ?a ?ws).2 !! _) =>
      assert (Ht : tame (f a)) by (unfold needsUpdate_truthy; tame_solve);
      destruct (Ht ws) as (C & _); rewrite C
  end.
  apply cached_present. discriminate.
Qed.

Lemma bind_indexBuffer_present (ib : IndexBuffer) (w : World) :
  is_Some (_cacheMap (bind_indexBuffer (Some ib) w).2 !! ib_key ib).
Proof.
  cbn [bind_indexBuffer]. rewrite bind_run.
  change (_cacheMap (emit ?e ?ws).2) with (_cacheMap ws).
  apply cached_present. discriminate.
Qed.

Lemma uniform_setup_stores (mesh : Mesh) (camera : Camera) (w : World) :
  _cacheMap (usetup mesh camera w).2 !! uniforms_key (material mesh)
  = Some (usetup mesh camera w).1.
Proof.
  unfold uniform_setup. do 2 rewrite bind_run. cbn [ret fst snd].
  set (r := _cached _ _ _ w).
  assert (Hk : _cacheMap r.2 !! uniforms_key (material mesh) = Some r.1).
  { subst r. destruct (_cacheMap w !! uniforms_key (material mesh)) as [o|] eqn:Ho.
    - now rewrite (cached_hit _ _ _ _ Ho).
    - rewrite (cached_miss _ _ _ _ Ho). cbn. apply lookup_insert_eq. }
  clearbody r. unfold update_base.
  destruct (cached_uniforms r.1) as [|[k [bo|]| | |] us]; exact Hk.
Qed.

Lemma settled_uniforms_moves (w w' : World) (us : list Uniform) :
  Forall (uniform_of_kind kind) us -> moves w w' ->
  Forall (settled_uniform w) us -> Forall (settled_uniform w') us.
Proof.
  intros Hk Hm Hs. induction Hk as [|u rest Hu Hrest IH]; [constructor|].
  inversion Hs; subst. constructor; [now apply (settled_uniform_moves w)|now apply IH].
Qed.

(** [_updatePipeline] sets its mesh up. *)
Lemma updatePipeline_sets_up (mesh : Mesh) (camera : Camera) (w : World) :
  good w -> In mesh meshes -> set_up (updatePipeline mesh camera w).2 mesh.
Proof.
  intros Hw Hin.
  pose proof (proj1 (List.Forall_forall _ _) meshes_kind mesh Hin) as Hmesh.
  destruct (good_uniform_setup kind renderer_keys Mat4_multiply Mat3_normalFromMat4
              mesh camera Hmesh w Hw) as [Hg1 HF].
  pose proof (uniform_setup_stores mesh camera w) as H1.
  unfold _updatePipeline. rewrite bind_run.
  set (r1 := uniform_setup Mat4_multiply Mat3_normalFromMat4 mesh camera w) in *.
  clearbody r1. cbv beta.
  pose proof (evolves_bind_uniforms _ 0 r1.2 HF) as M2.
  pose proof (bind_uniforms_settles _ 0 r1.2 HF) as S2.
  rewrite bind_run.
  set (r2 := bind_uniforms 0 (cached_uniforms r1.1) r1.2) in *. clearbody r2. cbv beta.
  pose proof (evolves_resolve_pipeline mesh (cached_handle r1.1) r2.2 Hin) as M3.
  destruct (resolve_pipeline_effect JSON_stringify mesh (cached_handle r1.1) r2.2)
    as (P3l & P3k & P3s & _).
  rewrite bind_run.
  set (r3 := resolve_pipeline JSON_stringify mesh (cached_handle r1.1) r2.2) in *.
  clearbody r3. cbv beta.
  rewrite bind_run.
  pose proof (evolves_tame (emit (SetPipeline (cached_handle r3.1))) r3.2 (tame_emit _)) as M4.
  set (r4 := emit (SetPipeline (cached_handle r3.1)) r3.2) in *. clearbody r4. cbv beta.
  rewrite bind_run.
  pose proof (evolves_bind_indexBuffer (indexBuffer (geometry mesh)) r4.2) as M5.
  assert (I5 : forall ib, indexBuffer (geometry mesh) = Some ib ->
                 is_Some (_cacheMap (bind_indexBuffer (indexBuffer (geometry mesh)) r4.2).2
                            !! ib_key ib)).
  { intros ib ->. apply bind_indexBuffer_present. }
  set (r5 := bind_indexBuffer (indexBuffer (geometry mesh)) r4.2) in *. clearbody r5. cbv beta.
  rewrite bind_run.
  pose proof (evolves_bind_vertexBuffers (vertexBuffers (geometry mesh)) 0 r5.2) as M6.
  pose proof (bind_vertexBuffers_present (vertexBuffers (geometry mesh)) 0 r5.2) as V6.
  set (r6 := bind_vertexBuffers 0 (vertexBuffers (geometry mesh)) r5.2) in *.
  clearbody r6. cbv beta.
  match goal with
  | |- set_up (?m r6.2).2 mesh =>
      assert (M7 : moves r6.2 (m r6.2).2)
        by (apply evolves_tame; destruct (length r2.1 =? 0)%nat; tame_solve);
      set (r7 := m r6.2) in *; clearbody r7
  end.
  pose proof (evolves_trans _ _ _ M6 M7) as M57.
  pose proof (evolves_trans _ _ _ M5 M57) as M47.
  pose proof (evolves_trans _ _ _ M4 M47) as M37.
  pose proof (evolves_trans _ _ _ M3 M37) as M27.
  pose proof (evolves_trans _ _ _ M2 M27) as M17.
  destruct Hmesh as (_ & Hu & _).
  split; [|split; [|split]].
  - exists r1.1. split.
    + destruct M17 as (_ & E2 & _). now apply E2.
    + now apply (settled_uniforms_moves r2.2).
  - destruct M37 as (_ & _ & _ & E4 & _). apply E4; [exact Hin|].
    exists r3.1. split; [exact P3k|]. now rewrite P3l, P3s.
  - intros ib Hib. destruct M57 as (E1 & _). apply E1. now apply I5.
  - destruct M7 as (E1 & _). eapply Forall_impl; [exact V6|]. intros vb. apply E1.
Qed.

Lemma good_after_node (node : Mesh) (camera : Camera) (w : World) :
  good w -> In node meshes ->
  good (draw_node node (updatePipeline node camera w).2).2.
Proof.
  intros Hw Hin.
  pose proof (proj1 (List.Forall_forall _ _) meshes_kind node Hin) as Hmesh.
  apply (calm_good kind _ (calm_draw_node node)).
  exact (good_updatePipeline kind renderer_keys JSON_stringify Mat4_multiply
           Mat3_normalFromMat4 node camera Hmesh w Hw).
Qed.

Lemma evolves_after_node (node : Mesh) (camera : Camera) (w : World) :
  good w -> In node meshes ->
  moves w (draw_node node (updatePipeline node camera w).2).2.
Proof.
  intros Hw Hin.
  apply (evolves_trans _ (updatePipeline node camera w).2);
    [apply evolves_updatePipeline; assumption|].
  apply evolves_tame, tame_draw_node.
Qed.

Lemma evolves_render_nodes (l : list Mesh) (camera : Camera) (w : World) :
  good w -> incl l meshes -> moves w (nodes l camera w).2.
Proof.
  revert w. induction l as [|node rest IH]; intros w Hw Hl; cbn [render_nodes];
    [apply evolves_refl|].
  do 2 rewrite bind_run.
  assert (Hin : In node meshes) by (apply Hl; now left).
  eapply evolves_trans; [exact (evolves_after_node node camera w Hw Hin)|].
  apply IH; [now apply good_after_node|].
  intros m Hm. apply Hl. now right.
Qed.

(** [render_nodes] sets up every mesh of its list and keeps the others
    set up. *)
Lemma render_nodes_sets_up (l : list Mesh) (camera : Camera) (w : World) (m : Mesh) :
  good w -> incl l meshes -> In m meshes -> In m l \/ set_up w m ->
  set_up (nodes l camera w).2 m.
Proof.
  revert w. induction l as [|node rest IH]; intros w Hw Hl Hm Hcase; cbn [render_nodes].
  - destruct Hcase as [[]|H]; exact H.
  - do 2 rewrite bind_run.
    assert (Hin : In node meshes) by (apply Hl; now left).
    pose proof (good_after_node node camera w Hw Hin) as Hg2.
    pose proof (evolves_after_node node camera w Hw Hin) as M2.
    apply IH; [exact Hg2|intros x Hx; apply Hl; now right|exact Hm|].
    destruct Hcase as [[<-|Hrest]|Hset].
    + right.
      pose proof (good_updatePipeline kind renderer_keys JSON_stringify Mat4_multiply
                    Mat3_normalFromMat4 node camera
                    (proj1 (List.Forall_forall _ _) meshes_kind node Hin) w Hw) as Hg1.
      apply (set_up_moves (updatePipeline node camera w).2); [exact Hg1| |exact Hin|].
      * apply evolves_tame, tame_draw_node.
      * now apply updatePipeline_sets_up.
    + now left.
    + right. now apply (set_up_moves w).
Qed.

Lemma extends_by_refl (P : Event -> bool) (w : World) : extends_by P w w.
Proof. exists []. split; [symmetry; apply app_nil_r|reflexivity]. Qed.

Lemma extends_by_trans (P : Event -> bool) (w1 w2 w3 : World) :
  extends_by P w1 w2 -> extends_by P w2 w3 -> extends_by P w1 w3.
Proof.
  intros (es1 & E1 & P1) (es2 & E2 & P2). exists (es1 ++ es2). split.
  - now rewrite E2, E1, app_assoc.
  - rewrite forallb_app. now rewrite P1, P2.
Qed.

Lemma extends_by_emits {A} (P : Event -> bool) (m : M A) (w : World) :
  emits P m -> extends_by P w (m w).2.
Proof. intros H. exact (H w). Qed.

Lemma extends_by_bind {A B} (P : Event -> bool) (m : M A) (f : A -> M B) (w : World) :
  extends_by P w (m w).2 -> extends_by P (m w).2 (f (m w).1 (m w).2).2 ->
  extends_by P w (bind m f w).2.
Proof. rewrite bind_run. apply extends_by_trans. Qed.

Lemma extends_by_hit (P : Event -> bool) (k : Key) (onCreate : M Cached) (w : World) :
  is_Some (_cacheMap w !! k) -> extends_by P w (_cached k onCreate None w).2.
Proof. intros [o Ho]. rewrite (cached_hit _ _ _ _ Ho). apply extends_by_refl. Qed.

Lemma bind_uniform_per_frame (i : nat) (v : Uniform) (w : World) :
  settled_uniform w v -> extends_by is_per_frame w (bind_uniform i v w).2.
Proof.
  intros [[o Ho] Hf].
  destruct v as [k value|k d image|k d|k d]; cbn [bind_uniform uniform_key uniform_kind] in *.
  - apply extends_by_bind; [apply extends_by_hit; eauto|].
    apply extends_by_emits. unfold needsUpdate_truthy. emits_solve.
  - specialize (Hf ltac:(discriminate)).
    apply extends_by_bind; [|apply extends_by_emits; emits_solve].
    assert (Hs : stale_texture k o w = (false, w))
      by (unfold stale_texture, bind, get; now rewrite Hf).
    unfold _updateTexture. rewrite (cached_hit_fresh _ _ _ _ _ Ho); rewrite Hs; [|reflexivity].
    apply extends_by_refl.
  - specialize (Hf ltac:(discriminate)).
    apply extends_by_bind; [|apply extends_by_emits; emits_solve].
    assert (Hs : stale_texture k o w = (false, w))
      by (unfold stale_texture, bind, get; now rewrite Hf).
    unfold _updateTexture. rewrite (cached_hit_fresh _ _ _ _ _ Ho); rewrite Hs; [|reflexivity].
    apply extends_by_refl.
  - specialize (Hf ltac:(discriminate)).
    apply extends_by_bind; [|apply extends_by_emits; emits_solve].
    unfold _updateSampler. rewrite (cached_hit_fresh _ _ _ _ _ Ho); [|exact Hf].
    apply extends_by_refl.
Qed.

Lemma bind_uniforms_per_frame (us : list Uniform) (i : nat) (w : World) :
  Forall (uniform_of_kind kind) us -> Forall (settled_uniform w) us ->
  extends_by is_per_frame w (bind_uniforms i us w).2.
Proof.
  intros Hk. revert i w.
  induction Hk as [|v rest Hv Hrest IH]; intros i w Hs; cbn [bind_uniforms].
  - apply extends_by_refl.
  - inversion Hs as [|? ? Hs1 Hs2]; subst.
    apply extends_by_bind; [now apply bind_uniform_per_frame|].
    apply extends_by_bind; [|apply extends_by_refl].
    apply IH. apply (settled_uniforms_moves w); [exact Hrest| |exact Hs2].
    now apply evolves_bind_uniform.
Qed.

Lemma bind_vertexBuffers_per_frame (vbs : list VertexBuffer) (i : nat) (w : World) :
  Forall (fun vb => is_Some (_cacheMap w !! vb_key vb)) vbs ->
  extends_by is_per_frame w (bind_vertexBuffers i vbs w).2.
Proof.
  revert i w. induction vbs as [|vb rest IH]; intros i w Hs; cbn [bind_vertexBuffers];
    [apply extends_by_refl|].
  inversion Hs as [|? ? H1 H2]; subst. apply extends_by_bind.
  - unfold bind_vertexBuffer. apply extends_by_bind; [now apply extends_by_hit|].
    apply extends_by_emits. unfold needsUpdate_truthy. emits_solve.
  - apply IH. eapply Forall_impl; [exact H2|]. intros vb'.
    pose proof (evolves_bind_vertexBuffers [vb] i w) as (E1 & _).
    cbn [bind_vertexBuffers] in E1. rewrite bind_run in E1. exact (E1 _).
Qed.

Lemma bind_indexBuffer_per_frame (ib : option IndexBuffer) (w : World) :
  (forall b, ib = Some b -> is_Some (_cacheMap w !! ib_key b)) ->
  extends_by is_per_frame w (bind_indexBuffer ib w).2.
Proof.
  intros H. destruct ib as [ib|]; cbn [bind_indexBuffer]; [|apply extends_by_refl].
  apply extends_by_bind; [apply extends_by_hit; now apply H|].
  apply extends_by_emits. emits_solve.
Qed.

Lemma uniform_setup_per_frame (mesh : Mesh) (camera : Camera) (w : World) :
  is_Some (_cacheMap w !! uniforms_key (material mesh)) ->
  extends_by is_per_frame w (usetup mesh camera w).2.
Proof.
  intros H. unfold uniform_setup. apply extends_by_bind; [now apply extends_by_hit|].
  apply extends_by_emits. apply emits_bind; [|intros ?; apply emits_ret].
  unfold update_base.
  destruct (cached_uniforms _) as [|[k [bo|]| | |] us]; emits_solve.
Qed.

Lemma resolve_pipeline_per_frame (mesh : Mesh) (bgl : Handle) (w : World) :
  up_to_date w mesh ->
  extends_by is_per_frame w (resolve_pipeline JSON_stringify mesh bgl w).2.
Proof.
  intros (o & Ho & Hl). unfold resolve_pipeline. rewrite bind_run. cbn [get fst snd].
  rewrite (cached_hit_fresh _ _ _ _ _ Ho).
  - apply extends_by_refl.
  - unfold pipeline_stale. cbn [ret fst]. now rewrite Hl, String.eqb_refl.
Qed.

(** For a mesh that is set up, [_updatePipeline] creates nothing. *)
Lemma updatePipeline_per_frame (mesh : Mesh) (camera : Camera) (w : World) :
  good w -> In mesh meshes -> set_up w mesh ->
  extends_by is_per_frame w (updatePipeline mesh camera w).2.
Proof.
  intros Hw Hin Hs.
  pose proof (proj1 (List.Forall_forall _ _) meshes_kind mesh Hin) as Hmesh.
  destruct (good_uniform_setup kind renderer_keys Mat4_multiply Mat3_normalFromMat4
              mesh camera Hmesh w Hw) as [Hg1 HF].
  pose proof (uniform_setup_stores mesh camera w) as H1.
  pose proof (evolves_uniform_setup mesh camera w Hw Hmesh) as M1.
  assert (T1 : extends_by is_per_frame w (usetup mesh camera w).2).
  { apply uniform_setup_per_frame. destruct Hs as ((l & Hl & _) & _). eauto. }
  unfold _updatePipeline. rewrite bind_run.
  set (r1 := uniform_setup Mat4_multiply Mat3_normalFromMat4 mesh camera w) in *.
  clearbody r1. cbv beta.
  pose proof (set_up_moves w r1.2 mesh Hw M1 Hin Hs) as S1.
  assert (T2 : extends_by is_per_frame r1.2 (bind_uniforms 0 (cached_uniforms r1.1) r1.2).2).
  { apply bind_uniforms_per_frame; [exact HF|].
    destruct S1 as ((l & Hl & Hus) & _). rewrite H1 in Hl. injection Hl as <-. exact Hus. }
  pose proof (evolves_trans _ _ _ M1 (evolves_bind_uniforms _ 0 r1.2 HF)) as M2.
  rewrite bind_run.
  set (r2 := bind_uniforms 0 (cached_uniforms r1.1) r1.2) in *. clearbody r2. cbv beta.
  pose proof (set_up_moves w r2.2 mesh Hw M2 Hin Hs) as S2.
  assert (T3 : extends_by is_per_frame r2.2
                 (resolve_pipeline JSON_stringify mesh (cached_handle r1.1) r2.2).2)
    by (apply resolve_pipeline_per_frame; apply S2).
  pose proof (evolves_trans _ _ _ M2
                (evolves_resolve_pipeline mesh (cached_handle r1.1) r2.2 Hin)) as M3.
  rewrite bind_run.
  set (r3 := resolve_pipeline JSON_stringify mesh (cached_handle r1.1) r2.2) in *.
  clearbody r3. cbv beta.
  assert (T4 : extends_by is_per_frame r3.2 (emit (SetPipeline (cached_handle r3.1)) r3.2).2)
    by (apply extends_by_emits, emits_emit; reflexivity).
  pose proof (evolves_trans _ _ _ M3
                (evolves_tame (emit (SetPipeline (cached_handle r3.1))) r3.2 (tame_emit _)))
    as M4.
  rewrite bind_run.
  set (r4 := emit (SetPipeline (cached_handle r3.1)) r3.2) in *. clearbody r4. cbv beta.
  pose proof (set_up_moves w r4.2 mesh Hw M4 Hin Hs) as S4.
  assert (T5 : extends_by is_per_frame r4.2
                 (bind_indexBuffer (indexBuffer (geometry mesh)) r4.2).2)
    by (apply bind_indexBuffer_per_frame; apply S4).
  pose proof (evolves_trans _ _ _ M4
                (evolves_bind_indexBuffer (indexBuffer (geometry mesh)) r4.2)) as M5.
  rewrite bind_run.
  set (r5 := bind_indexBuffer (indexBuffer (geometry mesh)) r4.2) in *. clearbody r5. cbv beta.
  pose proof (set_up_moves w r5.2 mesh Hw M5 Hin Hs) as S5.
  assert (T6 : extends_by is_per_frame r5.2
                 (bind_vertexBuffers 0 (vertexBuffers (geometry mesh)) r5.2).2)
    by (apply bind_vertexBuffers_per_frame; apply S5).
  rewrite bind_run.
  set (r6 := bind_vertexBuffers 0 (vertexBuffers (geometry mesh)) r5.2) in *.
  clearbody r6. cbv beta.
  match goal with
  | |- extends_by _ _ (?m r6.2).2 =>
      assert (T7 : extends_by is_per_frame r6.2 (m r6.2).2)
        by (apply extends_by_emits; destruct (length r2.1 =? 0)%nat; emits_solve)
  end.
  repeat (eapply extends_by_trans; [eassumption|]). apply extends_by_refl.
Qed.

Lemma emits_draw_node_per_frame (node : Mesh) : emits is_per_frame (draw_node node).
Proof.
  unfold draw_node. destruct (indexBuffer (geometry node)); [emits_solve|].
  destruct (vertexBuffers (geometry node)); emits_solve.
Qed.

Lemma render_nodes_per_frame (l : list Mesh) (camera : Camera) (w : World) :
  good w -> incl l meshes -> (forall m, In m meshes -> set_up w m) ->
  extends_by is_per_frame w (nodes l camera w).2.
Proof.
  revert w. induction l as [|node rest IH]; intros w Hw Hl Hs; cbn [render_nodes];
    [apply extends_by_refl|].
  assert (Hin : In node meshes) by (apply Hl; now left).
  apply extends_by_bind; [apply updatePipeline_per_frame; auto|].
  apply extends_by_bind; [apply extends_by_emits, emits_draw_node_per_frame|].
  apply IH.
  - now apply good_after_node.
  - intros m Hm. apply Hl. now right.
  - intros m Hm. apply (set_up_moves w); auto. now apply evolves_after_node.
Qed.

Local Abbreviation stable := (steady kind JSON_stringify meshes).

(** The state of a steady renderer that has made only per-frame calls
    since [w0]. *)
Local Abbreviation steady_since w0 :=
  (fun w : World => stable w /\ extends_by is_per_frame w0 w).

Lemma steady_simple {A} (m : M A) (w0 : World) :
  calm m -> tame m -> emits is_per_frame m ->
  hoare (steady_since w0) m (fun _ => steady_since w0).
Proof.
  intros Hc Ht He w [(Hg & Hs & Hm) Hx]. split; [split; [|split]|].
  - exact (calm_good kind _ Hc w Hg).
  - intros mesh Hin. apply (set_up_moves w); auto. now apply evolves_tame.
  - destruct (Hc w) as (_ & _ & F & _). unfold renderer_fields in F.
    injection F as _ _ _ _ Es Em _ _ _. now rewrite Es, Em.
  - apply (extends_by_trans _ _ w); [exact Hx|]. now apply extends_by_emits.
Qed.

Lemma incl_meshes_kind (l : list Mesh) : incl l meshes -> Forall (mesh_of_kind kind) l.
Proof.
  intros Hl. apply List.Forall_forall. intros m Hm.
  exact (proj1 (List.Forall_forall _ _) meshes_kind m (Hl m Hm)).
Qed.

Lemma steady_render_nodes (l : list Mesh) (camera : Camera) (w0 : World) :
  incl l meshes ->
  hoare (steady_since w0) (nodes l camera) (fun _ => steady_since w0).
Proof.
  intros Hl w [(Hg & Hs & Hm) Hx]. split; [split; [|split]|].
  - exact (good_render_nodes kind renderer_keys JSON_stringify Mat4_multiply
             Mat3_normalFromMat4 l camera (incl_meshes_kind l Hl) w Hg).
  - intros mesh Hin. apply (set_up_moves w); auto. now apply evolves_render_nodes.
  - pose proof (keeps_fields_render_nodes JSON_stringify Mat4_multiply Mat3_normalFromMat4
                  l camera w) as F.
    unfold renderer_fields in F. injection F as _ _ _ _ Es Em _ _ _. now rewrite Es, Em.
  - apply (extends_by_trans _ _ w); [exact Hx|]. now apply render_nodes_per_frame.
Qed.

Variable Vec3_transformMat4 : Vec3 -> Mat4 -> Vec3.
Local Abbreviation frame :=
  (render JSON_stringify Mat4_multiply Mat3_normalFromMat4 Vec3_transformMat4).

Lemma sorted_incl (scene : Object3D) (camera : Camera) :
  incl (renderList scene) meshes ->
  incl (sort Mat4_multiply Vec3_transformMat4 scene (Some camera)) meshes.
Proof.
  intros Hl m Hm. apply Hl. unfold sort in Hm.
  eapply Permutation_in; [symmetry; apply Array_sort_perm|exact Hm].
Qed.

(** A frame of a steady renderer makes per-frame calls only and leaves the
    renderer steady. *)
Lemma steady_render (scene : Object3D) (camera : Camera) (w0 : World) :
  incl (renderList scene) meshes ->
  hoare (steady_since w0) (frame scene camera) (fun _ => steady_since w0).
Proof.
  intros Hl. unfold render.
  apply (hoare_bind _ (fun s w => steady_since w0 w /\ s = samples w)).
  { intros w H. cbn [get fst snd]. auto. }
  intros s.
  apply (hoare_bind _ (fun m w => (steady_since w0 w /\ s = samples w) /\ m = _msaaTexture w)).
  { intros w H. cbn [get fst snd]. auto. }
  intros msaa.
  apply (hoare_bind _ (fun _ => steady_since w0)).
  { intros w [[HJ ->] ->]. rewrite bool_decide_true by apply HJ. exact HJ. }
  intros ?.
  do 11 (eapply hoare_bind;
         [apply steady_simple;
          [first [apply calm_get | apply calm_allocate | apply calm_emit; reflexivity]
          |first [apply tame_get | apply tame_allocate | apply tame_emit]
          |first [apply emits_get | apply emits_allocate | apply emits_emit; reflexivity]]
         |intros ?]).
  eapply hoare_bind; [apply steady_render_nodes, sorted_incl, Hl|]. intros ?.
  apply steady_simple; [calm_solve|tame_solve|emits_solve].
Qed.

Lemma frame_start_samples (w : World) :
  option_map tex_sampleCount (_msaaTexture (frame_start w)) = Some (samples (frame_start w)).
Proof.
  unfold frame_start. destruct (bool_decide _) eqn:E.
  - now apply bool_decide_eq_true in E.
  - destruct (resizeSwapchain_effect w) as (_ & Hm & _ & _ & _ & _ & _ & Hs).
    now rewrite Hm, Hs.
Qed.

(** A frame that draws all the meshes sets all of them up. *)
Lemma render_sets_up (scene : Object3D) (camera : Camera) :
  incl (renderList scene) meshes -> incl meshes (renderList scene) ->
  hoare good (frame scene camera) (fun _ w => forall m, In m meshes -> set_up w m).
Proof.
  intros Hl Hr. unfold render.
  eapply hoare_bind; [apply (calm_good kind), calm_get|]. intros samples.
  eapply hoare_bind; [apply (calm_good kind), calm_get|]. intros msaa.
  eapply hoare_bind.
  { destruct (bool_decide _); [apply hoare_ret | apply (good_resizeSwapchain kind)]. }
  intros ?.
  do 11 (eapply hoare_bind;
         [apply (calm_good kind);
          first [apply calm_get | apply calm_allocate | apply calm_emit; reflexivity]|];
         intros ?).
  apply (hoare_bind _ (fun _ w => good w /\ forall m, In m meshes -> set_up w m)).
  - intros w Hw. split.
    + exact (good_render_nodes kind renderer_keys JSON_stringify Mat4_multiply
               Mat3_normalFromMat4 _ _ (incl_meshes_kind _ (sorted_incl scene camera Hl)) w Hw).
    + intros m Hm. apply render_nodes_sets_up; [exact Hw|now apply sorted_incl|exact Hm|].
      left. unfold sort. eapply Permutation_in; [apply Array_sort_perm|now apply Hr].
  - intros ? w [Hw Hs] m Hm. apply (set_up_moves w); auto.
    apply evolves_tame. tame_solve.
Qed.

Lemma render_makes_steady (scene : Object3D) (camera : Camera) (w : World) :
  incl (renderList scene) meshes -> incl meshes (renderList scene) ->
  good w -> stable (frame scene camera w).2.
Proof.
  intros Hl Hr Hw. split; [|split].
  - exact (good_render kind renderer_keys JSON_stringify Mat4_multiply Mat3_normalFromMat4
             Vec3_transformMat4 scene camera (incl_meshes_kind _ Hl) w Hw).
  - exact (render_sets_up scene camera Hl Hr w Hw).
  - pose proof (render_fields JSON_stringify Mat4_multiply Mat3_normalFromMat4
                  Vec3_transformMat4 scene camera w) as F.
    unfold renderer_fields in F. injection F as _ _ _ _ Es Em _ _ _.
    rewrite Es, Em. apply frame_start_samples.
Qed.

Lemma steady_frames (frames : list (Object3D * Camera)) (w0 w : World) :
  Forall (fun f => incl (renderList f.1) meshes) frames ->
  steady_since w0 w ->
  steady_since w0 (foldl (fun w f => (frame f.1 f.2 w).2) w frames).
Proof.
  intros H. revert w. induction H as [|f rest Hf Hrest IH]; intros w Hw; [exact Hw|].
  cbn [foldl]. apply IH. exact (steady_render f.1 f.2 w0 Hf w Hw).
Qed.
End SteadyFacts.

Lemma good_run (kind : Key -> Kind) (JSON_stringify : PipelineOption -> string)
    (Mat4_multiply : Mat4 -> Mat4 -> Mat4) (Mat3_normalFromMat4 : list Q -> Mat4 -> list Q)
    (Vec3_transformMat4 : Vec3 -> Mat4 -> Vec3) (ops : list Op) (w : World) :
  renderer_keys_of_kind kind -> Forall (op_of_kind kind) ops -> good kind w ->
  good kind (run JSON_stringify Mat4_multiply Mat3_normalFromMat4 Vec3_transformMat4 ops w).
Proof.
  intros Hk H. revert w. induction H as [|op rest Hop Hrest IH]; intros w Hw; [exact Hw|].
  unfold run. cbn [foldl]. apply IH. now apply good_step.
Qed.

(** X19. Once a frame has drawn a scene, the renderer has everything the
    scene needs: whatever the history before that frame, the frames that
    follow it with any cameras, drawing the scene or any part of it, create,
    destroy and upload nothing that outlives a frame. Their calls are the
    pass and its encoder, the views and bind groups of the frame, queue
    writes of buffers, bindings and draw calls. *)
Theorem later_frames_create_nothing (kind : Key -> Kind)
    (JSON_stringify : PipelineOption -> string)
    (Mat4_multiply : Mat4 -> Mat4 -> Mat4) (Mat3_normalFromMat4 : list Q -> Mat4 -> list Q)
    (Vec3_transformMat4 : Vec3 -> Mat4 -> Vec3)
    (ops : list Op) (scene : Object3D) (camera : Camera)
    (frames : list (Object3D * Camera)) (width height : Z) (fmt : string) :
  renderer_keys_of_kind kind ->
  Forall (op_of_kind kind) ops ->
  Forall (mesh_of_kind kind) (renderList scene) ->
  mesh_keys_identify (renderList scene) ->
  Forall (fun f => incl (renderList f.1) (renderList scene)) frames ->
  let frame s c w :=
    (render JSON_stringify Mat4_multiply Mat3_normalFromMat4 Vec3_transformMat4 s c w).2 in
  let w0 := run JSON_stringify Mat4_multiply Mat3_normalFromMat4 Vec3_transformMat4 ops
              (new_renderer width height fmt) in
  let w1 := frame scene camera w0 in
  let w2 := foldl (fun w f => frame f.1 f.2 w) w1 frames in
  exists calls, trace w2 = trace w1 ++ calls /\ forallb is_per_frame calls = true.
Proof.
  intros Hk Hops Hscene Hid Hframes frame w0 w1 w2.
  assert (Hw0 : good kind w0) by (apply good_run; auto; apply good_new_renderer).
  assert (Hw1 : steady kind JSON_stringify (renderList scene) w1).
  { apply render_makes_steady; auto; intros m Hm; exact Hm. }
  destruct (steady_frames kind Hk JSON_stringify (renderList scene) Hscene Hid
              Mat4_multiply Mat3_normalFromMat4 Vec3_transformMat4 frames w1 w1 Hframes)
    as [_ Hx].
  - split; [exact Hw1|]. exists []. split; [symmetry; apply app_nil_r|reflexivity].
  - exact Hx.
Qed.

(** X19, on a textured mesh: after a first frame that follows a change of
    [samples] and a raised texture flag, two more frames from other
    hierarchies of the same mesh make per-frame calls only. *)
Lemma later_frames_create_nothing_witness :
  let scene := ex_scene [ex_textured_mesh 50] in
  let ops := [OpSamples 1; OpNeedsUpdate (KObj 50)] in
  let frames := [(scene, ex_camera); (Node true (Some (ex_textured_mesh 50)) [], ex_camera)] in
  let frame s c w :=
    (render JSON_stringify_std Mat4_multiply_std Mat3_normalFromMat4_std
       Vec3_transformMat4_std s c w).2 in
  let w0 := run JSON_stringify_std Mat4_multiply_std Mat3_normalFromMat4_std
              Vec3_transformMat4_std ops (new_renderer 300 150 "bgra8unorm") in
  let w1 := frame scene ex_camera w0 in
  let w2 := foldl (fun w f => frame f.1 f.2 w) w1 frames in
  exists calls, trace w2 = trace w1 ++ calls /\ forallb is_per_frame calls = true.
Proof.
  intros scene ops frames.
  assert (Hmesh : mesh_of_kind ex_kind (ex_textured_mesh 50)).
  { repeat split; repeat constructor. intros ib [= <-]. reflexivity. }
  assert (Hscene : Forall (mesh_of_kind ex_kind) (renderList scene))
    by (constructor; [exact Hmesh | constructor]).
  assert (Hops : Forall (op_of_kind ex_kind) ops) by (repeat constructor).
  assert (Hid : mesh_keys_identify (renderList scene)).
  { intros m1 m2 [<-|[]] [<-|[]] _. reflexivity. }
  assert (Hframes : Forall (fun f => incl (renderList f.1) (renderList scene)) frames).
  { constructor; [intros m Hm; exact Hm|].
    constructor; [intros m Hm; exact Hm|]. constructor. }
  exact (later_frames_create_nothing ex_kind JSON_stringify_std Mat4_multiply_std
           Mat3_normalFromMat4_std Vec3_transformMat4_std ops scene ex_camera frames
           300 150 "bgra8unorm" (fun n => eq_refl) Hops Hscene Hid Hframes).
Defined.
